(** * SocialBiasCheckV2: the phrase matcher, the bias scorer and the resolver

    A shallow embedding of [backend/app/main.py] and of the scoring and
    resolution functions of [backend/app/server.py], with the properties
    the specification states about them.

    Conventions of the embedding.
    - A Python [str] is a list of characters; characters are the code
      points below 256, with Python's [str.lower] and whitespace table
      restricted to that range.
    - Python floats are kept behind the interface [Float]: the functions
      are written once over it and run on two instances, IEEE-754 binary64
      (Rocq's primitive floats, the arithmetic Python runs) and the exact
      rationals (the arithmetic the specification reasons in).
    - An exception is a value of [exn]; a function that may raise returns a
      [result].  Records written by [logger] at level INFO and above are
      collected in order ([logging.basicConfig(level=logging.INFO)] drops
      the [logger.debug] records, so they are not modelled).
    - [BIAS_KEYWORDS] is loaded from [data/bias_keywords.json], which is
      not part of the sources; it is a variable of the development. *)

From Stdlib Require Import Ascii String.
From Stdlib Require Import List Bool Arith Lia ZArith QArith Lqa.
From Stdlib Require Import Floats Uint63.
Import ListNotations.

Set Implicit Arguments.
Local Open Scope string_scope.
Local Open Scope nat_scope.
Local Open Scope list_scope.

(** ** Python values: strings, exceptions, floats *)

Module Py.

Definition str := list ascii.

Definition str_of_string (x : string) : str := list_ascii_of_string x.
Coercion str_of_string : string >-> str.

Definition strs (xs : list string) : list str := map str_of_string xs.

(** [c.isspace()] on code points below 256: TAB..CR, FS..US, space,
    NEL (0x85) and NBSP (0xA0). *)
Definition isspace (c : ascii) : bool :=
  let n := nat_of_ascii c in
  ((9 <=? n) && (n <=? 13)) || ((28 <=? n) && (n <=? 32))
  || (n =? 133) || (n =? 160).

(** [c.lower()] on code points below 256: A..Z and the Latin-1 capitals
    0xC0..0xDE (the multiplication sign 0xD7 apart) move up by 32. *)
Definition lower_char (c : ascii) : ascii :=
  let n := nat_of_ascii c in
  if ((65 <=? n) && (n <=? 90))
     || ((192 <=? n) && (n <=? 222) && negb (n =? 215))
  then ascii_of_nat (n + 32) else c.

Definition lower (s : str) : str := map lower_char s.

(** [s.split()]: the maximal runs of non-whitespace characters.
    [word] holds the current run, reversed. *)
Fixpoint split_from (word : str) (s : str) : list str :=
  match s with
  | [] => match word with [] => [] | _ => [rev word] end
  | c :: s' =>
      if isspace c
      then match word with
           | [] => split_from [] s'
           | _ => rev word :: split_from [] s'
           end
      else split_from (c :: word) s'
  end.

Definition split (s : str) : list str := split_from [] s.

Fixpoint dropwhile (p : ascii -> bool) (s : str) : str :=
  match s with
  | [] => []
  | c :: s' => if p c then dropwhile p s' else s
  end.

(** [s.strip()] *)
Definition strip (s : str) : str :=
  rev (dropwhile isspace (rev (dropwhile isspace s))).

Definition char_in (c : ascii) (chars : str) : bool :=
  existsb (Ascii.eqb c) chars.

(** [s.rstrip(chars)]: drops every trailing character that belongs to
    [chars]; [chars] is a set of characters, not a suffix. *)
Definition rstrip (chars : str) (s : str) : str :=
  rev (dropwhile (fun c => char_in c chars) (rev s)).

Fixpoint str_eqb (a b : str) : bool :=
  match a, b with
  | [], [] => true
  | x :: a', y :: b' => Ascii.eqb x y && str_eqb a' b'
  | _, _ => false
  end.

Fixpoint startswith (s prefix : str) : bool :=
  match prefix, s with
  | [], _ => true
  | _ :: _, [] => false
  | x :: p', y :: s' => Ascii.eqb x y && startswith s' p'
  end.

(** [sub in s] for two strings *)
Fixpoint str_in (sub s : str) : bool :=
  startswith s sub ||
  match s with
  | [] => false
  | _ :: s' => str_in sub s'
  end.

(** [x in xs] for a list or a set of strings *)
Definition mem (x : str) (xs : list str) : bool := existsb (str_eqb x) xs.

(** [w[i:j]] for [0 <= i <= j] *)
Definition slice (w : str) (i j : nat) : str := firstn (j - i) (skipn i w).

(** [range(a, b)] *)
Definition range (a b : nat) : list nat := seq a (b - a).

(** [set(xs)] as the list of the distinct elements, first occurrences
    kept.  Python fixes no iteration order for a set of strings. *)
Fixpoint set_of (xs : list str) : list str :=
  match xs with
  | [] => []
  | x :: xs' => x :: filter (fun y => negb (str_eqb x y)) (set_of xs')
  end.

Inductive exn : Type :=
| ZeroDivisionError
| IndexError
| ValueError.

(** [str(e)] for the exceptions above, as CPython words them *)
Definition exn_message (e : exn) : string :=
  match e with
  | ZeroDivisionError => "division by zero"
  | IndexError => "list index out of range"
  | ValueError => "max() arg is an empty sequence"
  end.

Inductive result (A : Type) : Type :=
| Ok (a : A)
| Raise (e : exn).
Arguments Ok {A} a.
Arguments Raise {A} e.

Definition bind {A B} (r : result A) (k : A -> result B) : result B :=
  match r with
  | Ok a => k a
  | Raise e => Raise e
  end.

(** The float operations the two files use. [of_count n] is [float(n)]
    for a length or a count [n]. *)
Class Float (F : Type) : Type := {
  of_count : nat -> F;
  fadd : F -> F -> F;
  fmul : F -> F -> F;
  fdiv : F -> F -> F;
  fltb : F -> F -> bool;
  fleb : F -> F -> bool;
  feqb : F -> F -> bool
}.

(** IEEE-754 binary64. A count goes through a 63-bit integer, so
    [of_count] is exact below [2^53], as [float(n)] is. *)
#[export] Instance binary64 : Float float := {
  of_count n := PrimFloat.of_uint63 (Uint63.of_Z (Z.of_nat n));
  fadd := PrimFloat.add;
  fmul := PrimFloat.mul;
  fdiv := PrimFloat.div;
  fltb := PrimFloat.ltb;
  fleb := PrimFloat.leb;
  feqb := PrimFloat.eqb
}.

(** Exact rational arithmetic. *)
#[export] Instance exact : Float Q := {
  of_count n := inject_Z (Z.of_nat n);
  fadd := Qplus;
  fmul := Qmult;
  fdiv := Qdiv;
  fltb x y := negb (Qle_bool y x);
  fleb := Qle_bool;
  feqb := Qeq_bool
}.

Section Literals.
Context {F : Type} `{Float F}.

(** The decimal literal [n/d]: the quotient of two exactly represented
    integers, so on binary64 the double nearest to [n/d], which is what
    Python reads the literal as. *)
Definition lit (n d : nat) : F := fdiv (of_count n) (of_count d).

(** The [int] 0 the score dictionaries start from, and [0.0]. *)
Definition zero : F := of_count 0.

(** [x / y] on floats *)
Definition truediv (x y : F) : result F :=
  if feqb y zero then Raise ZeroDivisionError else Ok (fdiv x y).

(** [a / b] on two non-negative [int]s: the correctly rounded quotient,
    which for operands below [2^53] is the quotient of the two floats. *)
Definition truediv_int (a b : nat) : result F :=
  if b =? 0 then Raise ZeroDivisionError
  else Ok (fdiv (of_count a) (of_count b)).

(** [sum(xs)]: a left fold from the [int] 0.  (CPython 3.12 and later
    add floats with a compensated sum; on the raw scores of [main.py],
    multiples of 0.25, every partial sum is exact and the two coincide.) *)
Definition sum (xs : list F) : F := fold_left fadd xs zero.

(** [max(x, *xs, key=key)] on a non-empty sequence: the first element
    whose key no later element exceeds. *)
Definition max_by {A : Type} (key : A -> F) (x : A) (xs : list A) : A :=
  fold_left (fun best y => if fltb (key best) (key y) then y else best) xs x.

End Literals.

End Py.

Import Py.

Declare Scope py_scope.
Delimit Scope py_scope with py.
Notation "x + y" := (fadd x y) : py_scope.
Notation "x * y" := (fmul x y) : py_scope.
Notation "x / y" := (fdiv x y) : py_scope.
Notation "x >=? y" := (fleb y x) (at level 70) : py_scope.
Notation "x >? y" := (fltb y x) (at level 70) : py_scope.
Notation "x ==? y" := (feqb x y) (at level 70) : py_scope.
Notation "'let*' x := r 'in' k" := (bind r (fun x => k))
  (at level 10, x pattern, r at level 100, k at level 200).

(** ** The data both servers share *)

Module Data.

(** The keys of the score dictionary, in the order the source writes
    them. *)
Inductive category : Type :=
| left_wing
| right_wing
| extreme_left
| extreme_right
| neutral.

Definition category_eqb (a b : category) : bool :=
  match a, b with
  | left_wing, left_wing | right_wing, right_wing
  | extreme_left, extreme_left | extreme_right, extreme_right
  | neutral, neutral => true
  | _, _ => false
  end.

(** The key itself: the string the dictionaries are indexed with. *)
Definition name (c : category) : string :=
  match c with
  | left_wing => "left_wing"
  | right_wing => "right_wing"
  | extreme_left => "extreme_left"
  | extreme_right => "extreme_right"
  | neutral => "neutral"
  end.

(** [x in xs] for a list of keys *)
Definition cat_in (c : category) (cs : list category) : bool :=
  existsb (category_eqb c) cs.

(** The dictionary [scores]: its five keys never change, so it is a
    record; [items] lists it in insertion order. *)
Record ScoreVector (F : Type) : Type := {
  s_left_wing : F;
  s_right_wing : F;
  s_extreme_left : F;
  s_extreme_right : F;
  s_neutral : F
}.

Definition keys : list category :=
  [left_wing; right_wing; extreme_left; extreme_right; neutral].

Section Scores.
Variable F : Type.

(** [scores[c]] *)
Definition get (scores : ScoreVector F) (c : category) : F :=
  match c with
  | left_wing => s_left_wing scores
  | right_wing => s_right_wing scores
  | extreme_left => s_extreme_left scores
  | extreme_right => s_extreme_right scores
  | neutral => s_neutral scores
  end.

(** [scores[c] = v] *)
Definition set (scores : ScoreVector F) (c : category) (v : F)
  : ScoreVector F :=
  match c with
  | left_wing =>
      {| s_left_wing := v; s_right_wing := s_right_wing scores;
         s_extreme_left := s_extreme_left scores;
         s_extreme_right := s_extreme_right scores;
         s_neutral := s_neutral scores |}
  | right_wing =>
      {| s_left_wing := s_left_wing scores; s_right_wing := v;
         s_extreme_left := s_extreme_left scores;
         s_extreme_right := s_extreme_right scores;
         s_neutral := s_neutral scores |}
  | extreme_left =>
      {| s_left_wing := s_left_wing scores;
         s_right_wing := s_right_wing scores;
         s_extreme_left := v;
         s_extreme_right := s_extreme_right scores;
         s_neutral := s_neutral scores |}
  | extreme_right =>
      {| s_left_wing := s_left_wing scores;
         s_right_wing := s_right_wing scores;
         s_extreme_left := s_extreme_left scores;
         s_extreme_right := v;
         s_neutral := s_neutral scores |}
  | neutral =>
      {| s_left_wing := s_left_wing scores;
         s_right_wing := s_right_wing scores;
         s_extreme_left := s_extreme_left scores;
         s_extreme_right := s_extreme_right scores;
         s_neutral := v |}
  end.

(** [scores.items()] and [scores.values()] *)
Definition items (scores : ScoreVector F) : list (category * F) :=
  map (fun c => (c, get scores c)) keys.

Definition values (scores : ScoreVector F) : list F :=
  map (get scores) keys.

End Scores.

(** [detected_phrases]: a [defaultdict(list)], kept in insertion order as
    Python dictionaries are. *)
Definition DetectedPhrases : Type := list (category * list str).

(** [detected[c].extend(matches)]: a missing key is created. *)
Fixpoint extend (detected : DetectedPhrases) (c : category)
  (matches : list str) : DetectedPhrases :=
  match detected with
  | [] => [(c, matches)]
  | (c', l) :: rest =>
      if category_eqb c' c then (c', l ++ matches) :: rest
      else (c', l) :: extend rest c matches
  end.

(** [detected.get(c)] *)
Fixpoint lookup (detected : DetectedPhrases) (c : category)
  : option (list str) :=
  match detected with
  | [] => None
  | (c', l) :: rest => if category_eqb c' c then Some l else lookup rest c
  end.

(** The contents of [data/bias_keywords.json], by the paths the two
    files read: [["extreme_right"]["keywords"]],
    [["extreme_left"]["keywords"]], [["left_wing"]["economic"]],
    [["left_wing"]["social"]], [["right_wing"]["economic"]],
    [["right_wing"]["social"]] and [["neutral_terms"]]. *)
Record Keywords : Type := {
  extreme_right_keywords : list str;
  extreme_left_keywords : list str;
  left_wing_economic : list str;
  left_wing_social : list str;
  right_wing_economic : list str;
  right_wing_social : list str;
  neutral_terms : list str
}.

End Data.

Import Data.

(** ** backend/app/main.py *)

Module Main.

Section Matcher.
Context {F : Type} `{Float F}.

(** [{w[i:j] for w in text_words for i in range(len(w))
                for j in range(i + 3, len(w) + 1)}] *)
Definition text_substrings_of (text_words : list str) : list str :=
  flat_map (fun w =>
    flat_map (fun i =>
      map (fun j => slice w i j) (range (i + 3) (length w + 1)))
      (range 0 (length w)))
    text_words.

(** The six entries of [word_variations], in the source's order. *)
Definition word_variations (phrase_word : str) : list str :=
  [ rstrip "s" phrase_word;
    rstrip "ed" phrase_word;
    rstrip "ing" phrase_word;
    phrase_word ++ ("s" : str);
    phrase_word ++ ("ed" : str);
    phrase_word ++ ("ing" : str) ].

(** The condition tested for each [text_word] of the inner loop. *)
Definition loop_condition (text_substrings : list str)
  (phrase_word text_word : str) : bool :=
  str_in phrase_word text_word
  || str_in text_word phrase_word
  || mem phrase_word text_substrings
  || existsb (fun sub => str_in sub phrase_word)
       (filter (fun sub => 3 <=? length sub) text_substrings).

(** One pass of [for phrase_word in phrase_words]: the new value of
    [matched_words].  The three exits of the body (the two [continue]s
    and the [break] out of the variations loop) each add one. *)
Definition count_word (text_words text_word_set text_substrings : list str)
  (matched_words : nat) (phrase_word : str) : nat :=
  if mem phrase_word text_word_set then matched_words + 1
  else if existsb (loop_condition text_substrings phrase_word) text_words
  then matched_words + 1
  else if existsb (fun variation =>
                     mem variation text_word_set
                     || mem variation text_substrings)
            (word_variations phrase_word)
  then matched_words + 1
  else matched_words.

(** [0.6] *)
Definition match_threshold : F := lit 6 10.

(** The body of [for phrase in phrases], with [matches] threaded
    through. *)
Fixpoint match_loop (text : str) (text_words : list str)
  (phrases : list str) (matches : list str) : result (list str) :=
  match phrases with
  | [] => Ok matches
  | phrase :: phrases' =>
      let phrase := lower phrase in
      let phrase_words := split phrase in
      if str_in phrase text
      then match_loop text text_words phrases' (matches ++ [phrase])
      else
        let text_word_set := set_of text_words in
        let text_substrings := text_substrings_of text_words in
        let matched_words :=
          fold_left (count_word text_words text_word_set text_substrings)
            phrase_words 0 in
        let* match_ratio := truediv_int matched_words (length phrase_words) in
        if (match_ratio >=? match_threshold)%py
        then match_loop text text_words phrases' (matches ++ [phrase])
        else match_loop text text_words phrases' matches
  end.

Definition find_phrase_matches (text : str) (phrases : list str)
  : result (list str) :=
  let text := lower text in
  let text_words := split text in
  match_loop text text_words phrases [].

End Matcher.


(** *** Logging and the scorer *)

Inductive level : Type := INFO | WARNING | ERROR.

(** The records the module writes at INFO and above, by their format
    string, with the values that fill it. *)
Inductive message (F : Type) : Type :=
| Received (prefix : str)
  (* "Received analysis request for text: {text[:100]}..." *)
| EmptyText
  (* "Received empty text for analysis" *)
| Found (n : nat) (what : string) (matches : list str)
  (* "Found {n} {what} matches: {matches}" *)
| RawScores (scores : ScoreVector F)
  (* "Raw scores before normalization: {scores}" *)
| FinalScores (scores : ScoreVector F)
  (* "Final normalized scores: {scores}" *)
| Complete (overall_bias : string) (confidence : F)
  (* "Analysis complete. Overall bias: ..., Confidence: ..." *)
| Failed (e : exn).
  (* "Error during analysis: {str(e)}" *)
Arguments EmptyText {F}.
Arguments Received {F} prefix.
Arguments Found {F} n what matches.
Arguments Failed {F} e.

Definition record (F : Type) : Type := (level * message F)%type.

(** A computation that logs and may raise: the records written so far
    and the outcome. *)
Definition M (F A : Type) : Type := (list (record F) * result A)%type.

Definition ret {F A} (a : A) : M F A := ([], Ok a).

Definition mbind {F A B} (c : M F A) (k : A -> M F B) : M F B :=
  match c with
  | (l, Ok a) => let (l', r) := k a in (l ++ l', r)
  | (l, Raise e) => (l, Raise e)
  end.

Definition log {F} (lvl : level) (msg : message F) : M F unit :=
  ([(lvl, msg)], Ok tt).

Definition lift {F A} (r : result A) : M F A := ([], r).

Notation "x <- c ;; k" := (mbind c (fun x => k))
  (at level 61, c at next level, right associativity).
Notation "c ;; k" := (mbind c (fun _ => k))
  (at level 61, right associativity).

Section Scorer.
Context {F : Type} `{Float F}.
Variable BIAS_KEYWORDS : Keywords.

(** [2.0], [1.0] and [0.75] *)
Definition extreme_weight : F := of_count 2.
Definition wing_weight : F := of_count 1.
Definition neutral_weight : F := lit 75 100.

(** One block of the scorer:
    [matches = find_phrase_matches(text, phrases)] and, under
    [if matches:], the record, the addition and the [extend]. *)
Definition score_block (text : str) (phrases : list str) (what : string)
  (c : category) (weight : F)
  (state : ScoreVector F * DetectedPhrases)
  : M F (ScoreVector F * DetectedPhrases) :=
  let (scores, detected_phrases) := state in
  matches <- lift (find_phrase_matches text phrases) ;;
  match matches with
  | [] => ret (scores, detected_phrases)
  | _ :: _ =>
      log INFO (Found (length matches) what matches) ;;
      ret (set scores c
             (get scores c + of_count (length matches) * weight)%py,
           extend detected_phrases c matches)
  end.

(** Lines 124 to 169: the raw scores and the detected phrases. *)
Definition accumulate_scores (text : str)
  : M F (ScoreVector F * DetectedPhrases) :=
  let scores :=
    {| s_left_wing := zero; s_right_wing := zero; s_extreme_left := zero;
       s_extreme_right := zero; s_neutral := zero |} in
  let detected_phrases : DetectedPhrases := [] in
  state <- score_block text (extreme_right_keywords BIAS_KEYWORDS)
             "extreme right" extreme_right extreme_weight
             (scores, detected_phrases) ;;
  state <- score_block text (extreme_left_keywords BIAS_KEYWORDS)
             "extreme left" extreme_left extreme_weight state ;;
  state <- score_block text (left_wing_economic BIAS_KEYWORDS)
             "left wing economic" left_wing wing_weight state ;;
  state <- score_block text (left_wing_social BIAS_KEYWORDS)
             "left wing social" left_wing wing_weight state ;;
  state <- score_block text (right_wing_economic BIAS_KEYWORDS)
             "right wing economic" right_wing wing_weight state ;;
  state <- score_block text (right_wing_social BIAS_KEYWORDS)
             "right wing social" right_wing wing_weight state ;;
  score_block text (neutral_terms BIAS_KEYWORDS)
    "neutral" neutral neutral_weight state.

(** [for category in scores:
       scores[category] = scores[category] / total_score] *)
Fixpoint normalize_loop (cats : list category) (total_score : F)
  (scores : ScoreVector F) : result (ScoreVector F) :=
  match cats with
  | [] => Ok scores
  | c :: cats' =>
      let* v := truediv (get scores c) total_score in
      normalize_loop cats' total_score (set scores c v)
  end.

Definition calculate_bias_scores (text : str)
  : M F (ScoreVector F * DetectedPhrases) :=
  state <- accumulate_scores text ;;
  let (scores, detected_phrases) := state in
  log INFO (RawScores scores) ;;
  let total_score := sum (values scores) in
  scores <- (if (total_score >? zero)%py
             then lift (normalize_loop keys total_score scores)
             else ret scores) ;;
  log INFO (FinalScores scores) ;;
  ret (scores, detected_phrases).

End Scorer.

(** *** The resolver *)

Section Resolver.
Context {F : Type} `{Float F}.

(** [0.85] *)
Definition dominance : F := lit 85 100.

(** [max(scores.values())] *)
Definition max_score_of (scores : ScoreVector F) : result F :=
  match values scores with
  | [] => Raise ValueError
  | v :: vs => Ok (max_by (fun x => x) v vs)
  end.

(** [[cat for cat, score in scores.items() if score >= threshold]] *)
Definition dominant_categories_of (scores : ScoreVector F) (threshold : F)
  : list category :=
  map fst (filter (fun item => (snd item >=? threshold)%py) (items scores)).

Definition extreme_categories : list category :=
  [extreme_left; extreme_right].

Definition determine_overall_bias (scores : ScoreVector F)
  : result (string * F) :=
  let* max_score := max_score_of scores in
  if (max_score ==? zero)%py then Ok ("neutral", zero)
  else
    let threshold := (max_score * dominance)%py in
    let dominant_categories := dominant_categories_of scores threshold in
    let has_extreme :=
      existsb (fun c => cat_in c extreme_categories) dominant_categories in
    let otherwise :=
      if 1 <? length dominant_categories then Ok ("mixed", max_score)
      else match dominant_categories with
           | [] => Raise IndexError
           | dominant_category :: _ => Ok (name dominant_category, max_score)
           end in
    if has_extreme then
      let extreme_scores :=
        map (fun c => (c, get scores c))
          (filter (fun c => cat_in c dominant_categories)
             extreme_categories) in
      match extreme_scores with
      | item :: rest =>
          let dominant_category := fst (max_by snd item rest) in
          Ok (name dominant_category, get scores dominant_category)
      | [] => otherwise
      end
    else otherwise.

End Resolver.

(** *** The [/analyze] handler *)

Record BiasAnalysis (F : Type) : Type := {
  text_of : str;
  bias_scores : ScoreVector F;
  overall_bias : string;
  confidence : F;
  detected_phrases : DetectedPhrases
}.

(** What the handler ends with: the response model, or an
    [HTTPException]. *)
Inductive outcome (F : Type) : Type :=
| Response (body : BiasAnalysis F)
| HTTPException (status_code : nat) (detail : string).
Arguments HTTPException {F} status_code detail.

Section Handler.
Context {F : Type} `{Float F}.
Variable BIAS_KEYWORDS : Keywords.

(** The body of the [try] block. *)
Definition analyze_body (text : str) : M F (BiasAnalysis F) :=
  state <- calculate_bias_scores BIAS_KEYWORDS text ;;
  let (bias_scores, detected_phrases) := state in
  verdict <- lift (determine_overall_bias bias_scores) ;;
  let (overall_bias, confidence) := verdict in
  let result :=
    {| text_of := text; bias_scores := bias_scores;
       overall_bias := overall_bias; confidence := confidence;
       detected_phrases := detected_phrases |} in
  log INFO (Complete overall_bias confidence) ;;
  ret result.

Definition analyze_text (text : str) : list (record F) * outcome F :=
  let received := [(INFO, Received (firstn 100 text))] in
  match strip text with
  | [] =>
      (received ++ [(WARNING, EmptyText)],
       HTTPException 400 "Text cannot be empty")
  | _ :: _ =>
      match analyze_body text with
      | (l, Ok result) => (received ++ l, Response result)
      | (l, Raise e) =>
          (received ++ l ++ [(ERROR, Failed e)],
           HTTPException 500 ("Analysis failed: " ++ exn_message e)%string)
      end
  end.

End Handler.

End Main.

(** ** backend/app/server.py: the scorer and the resolver *)

Module Server.

Section Policy.
Context {F : Type} `{Float F}.
Variable BIAS_KEYWORDS : Keywords.

(** [set(kw.lower() for kw in ...)], one entry of [PROCESSED_KEYWORDS] *)
Definition processed (keywords : list str) : list str :=
  set_of (map lower keywords).

(** The threshold [max(1, len(phrase_words) * 0.3)]. *)
Definition common_threshold (n : nat) : F :=
  max_by (fun x => x) (of_count 1) [(of_count n * lit 3 10)%py].

(** The body of [for phrase in phrases]: the new value of [matches]. *)
Definition match_step (processed_text : str) (input_words : list str)
  (matches : list str) (phrase : str) : list str :=
  let phrase_lower := lower phrase in
  if str_in phrase_lower processed_text then matches ++ [phrase]
  else
    let phrase_words := set_of (split phrase_lower) in
    match phrase_words with
    | [phrase_word] =>
        if existsb (fun input_word => str_in phrase_word input_word)
             input_words
        then matches ++ [phrase] else matches
    | _ =>
        let common_words :=
          filter (fun w => mem w phrase_words) input_words in
        if (of_count (length common_words)
              >=? common_threshold (length phrase_words))%py
        then matches ++ [phrase] else matches
    end.

Definition find_phrase_matches (text : str) (phrases : list str)
  : list str :=
  let processed_text := lower text in
  let input_words := set_of (split processed_text) in
  fold_left (match_step processed_text input_words) phrases [].

(** One [matches = ...; if matches: ...] block. *)
Definition score_block (text : str) (phrases : list str) (c : category)
  (weight : F) (state : ScoreVector F * DetectedPhrases)
  : ScoreVector F * DetectedPhrases :=
  let (scores, detected_phrases) := state in
  let matches := find_phrase_matches text phrases in
  match matches with
  | [] => (scores, detected_phrases)
  | _ :: _ =>
      (set scores c (get scores c + of_count (length matches) * weight)%py,
       extend detected_phrases c matches)
  end.

(** [for category in scores:
       if scores[category] > 0: scores[category] += 0.5] *)
Definition add_baseline (scores : ScoreVector F) : ScoreVector F :=
  fold_left (fun scores c =>
               if (get scores c >? zero)%py
               then set scores c (get scores c + lit 5 10)%py
               else scores)
    keys scores.

Definition calculate_bias_scores (text : str)
  : result (ScoreVector F * DetectedPhrases) :=
  let scores :=
    {| s_left_wing := zero; s_right_wing := zero; s_extreme_left := zero;
       s_extreme_right := zero; s_neutral := zero |} in
  let state := (scores, ([] : DetectedPhrases)) in
  let state := score_block text
                 (processed (extreme_right_keywords BIAS_KEYWORDS))
                 extreme_right (of_count 2) state in
  let state := score_block text
                 (processed (extreme_left_keywords BIAS_KEYWORDS))
                 extreme_left (of_count 2) state in
  let state := score_block text
                 (processed (left_wing_economic BIAS_KEYWORDS))
                 left_wing (lit 12 10) state in
  let state := score_block text
                 (processed (left_wing_social BIAS_KEYWORDS))
                 left_wing (lit 12 10) state in
  let state := score_block text
                 (processed (right_wing_economic BIAS_KEYWORDS))
                 right_wing (lit 12 10) state in
  let state := score_block text
                 (processed (right_wing_social BIAS_KEYWORDS))
                 right_wing (lit 12 10) state in
  let state := score_block text
                 (processed (neutral_terms BIAS_KEYWORDS))
                 neutral (lit 3 10) state in
  let (scores, detected_phrases) := state in
  let scores := add_baseline scores in
  let total_score := sum (values scores) in
  let* scores := (if (total_score >? zero)%py
                  then Main.normalize_loop keys total_score scores
                  else Ok scores) in
  Ok (scores, detected_phrases).

(** [max(d.items(), key=lambda x: x[1])[0]] for a dictionary given by
    its items; [max] raises on an empty one. *)
Definition argmax (d : list (category * F)) : result category :=
  match d with
  | [] => Raise ValueError
  | item :: rest => Ok (fst (max_by snd item rest))
  end.

Definition determine_overall_bias (scores : ScoreVector F)
  : result (string * F) :=
  let* max_score := Main.max_score_of scores in
  if (max_score ==? zero)%py then Ok ("neutral", zero)
  else
    let threshold := (max_score * lit 5 10)%py in
    let dominant_categories :=
      Main.dominant_categories_of scores threshold in
    let extreme_categories := [extreme_left; extreme_right] in
    let has_extreme :=
      existsb (fun c => cat_in c extreme_categories) dominant_categories in
    let positive (item : category * F) := (snd item >? zero)%py in
    let regular :=
      let highest :=
        let non_neutral_scores :=
          filter (fun item => positive item
                              && negb (category_eqb (fst item) neutral))
            (items scores) in
        match non_neutral_scores with
        | _ :: _ => let* c := argmax non_neutral_scores in
                    Ok (name c, max_score)
        | [] => let* c := argmax (items scores) in Ok (name c, max_score)
        end in
      if cat_in neutral dominant_categories then
        let non_neutral :=
          filter (fun item => positive item
                              && negb (category_eqb (fst item) neutral)
                              && negb (cat_in (fst item) extreme_categories))
            (items scores) in
        match non_neutral with
        | _ :: _ => let* c := argmax non_neutral in Ok (name c, max_score)
        | [] => highest
        end
      else highest in
    if has_extreme then
      if cat_in extreme_left dominant_categories
         && cat_in extreme_right dominant_categories
      then Ok ("mixed extreme", max_score)
      else
        let extreme_scores :=
          filter positive
            (map (fun c => (c, get scores c)) extreme_categories) in
        match extreme_scores with
        | _ :: _ => let* c := argmax extreme_scores in Ok (name c, max_score)
        | [] => regular
        end
    else regular.

End Policy.

End Server.

(** ** The two pipelines *)

Section Pipelines.
Context {F : Type} `{Float F}.
Variable BIAS_KEYWORDS : Keywords.

(** [determine_overall_bias(calculate_bias_scores(text)[0])], as both
    handlers compose them. *)
Definition main_pipeline (text : str) : result (string * F) :=
  let* state := snd (Main.calculate_bias_scores BIAS_KEYWORDS text) in
  Main.determine_overall_bias (fst state).

Definition server_pipeline (text : str) : result (string * F) :=
  let* state := Server.calculate_bias_scores BIAS_KEYWORDS text in
  Server.determine_overall_bias (fst state).

End Pipelines.

(** ** What the properties are stated with *)

(** [sub] occurs in [s]: Python's [sub in s]. *)
Definition Infix (sub s : str) : Prop := exists a b, s = a ++ sub ++ b.

(** Two words share a run of at least three characters. *)
Definition Shares3 (a b : str) : Prop :=
  exists sub, 3 <= length sub /\ Infix sub a /\ Infix sub b.

(** The phrase word [w] counts as matched against the text's tokens:
    some token contains it, or is contained in it, or shares a run of at
    least three characters with it.  (A token equal to [w] contains it.) *)
Definition WordHit (tokens : list str) (w : str) : Prop :=
  exists t, In t tokens /\ (Infix w t \/ Infix t w \/ Shares3 t w).

(** [Hits tokens ws m]: exactly [m] of the words [ws] are matched. *)
Inductive Hits (tokens : list str) : list str -> nat -> Prop :=
| Hits_nil : Hits tokens [] 0
| Hits_hit w ws m :
    WordHit tokens w -> Hits tokens ws m -> Hits tokens (w :: ws) (S m)
| Hits_miss w ws m :
    ~ WordHit tokens w -> Hits tokens ws m -> Hits tokens (w :: ws) m.

(** [m / n >= 0.6], in the arithmetic the matcher runs on. *)
Definition ratio_ok {F : Type} `{Float F} (m n : nat) : bool :=
  (of_count m / of_count n >=? Main.match_threshold)%py.

(** The lowercased phrase [p] is matched in [text]: it occurs verbatim in
    the lowercased text, or enough of its words are matched. *)
Definition PhraseHit {F : Type} `{Float F} (text p : str) : Prop :=
  Infix p (lower text) \/
  exists m, Hits (split (lower text)) (split p) m
            /\ ratio_ok m (length (split p)) = true.

(** *** The matcher as the specification words it

    Three mechanisms only (token membership, containment either way, one
    of the six variants in the token set), a variant being the word with
    the suffix removed or added, and a phrase with no word never matched
    on the ratio. *)






(** *** The scorer's inputs by top-level category *)

(** The keyword lists whose matches are scored under [c], in the order
    the scorer reads them. *)
Definition lists_of (kw : Keywords) (c : category) : list (list str) :=
  match c with
  | extreme_right => [extreme_right_keywords kw]
  | extreme_left => [extreme_left_keywords kw]
  | left_wing => [left_wing_economic kw; left_wing_social kw]
  | right_wing => [right_wing_economic kw; right_wing_social kw]
  | neutral => [neutral_terms kw]
  end.

(** [detected.get(c, [])] *)
Definition phrases_of (detected : DetectedPhrases) (c : category)
  : list str :=
  match lookup detected c with
  | Some l => l
  | None => []
  end.


(** ** What the proofs are stated with *)

Section Terms.
Context {F : Type} `{Float F}.

(** Whether one pass of the word loop adds to [matched_words]. *)
Definition counted (text_words : list str) (phrase_word : str) : bool :=
  mem phrase_word (set_of text_words)
  || existsb (Main.loop_condition (Main.text_substrings_of text_words)
                phrase_word) text_words
  || existsb (fun variation =>
                mem variation (set_of text_words)
                || mem variation (Main.text_substrings_of text_words))
       (Main.word_variations phrase_word).

(** The verdict of the loop body on one lowercased phrase. *)
Definition kept (text : str) (p : str) : bool :=
  str_in p (lower text)
  || ratio_ok (length (filter (counted (split (lower text))) (split p)))
       (length (split p)).

(** What one block does to a score, to the detected phrases and to the
    log, by the matches it found. *)
Definition credit (x : F) (matches : list str) (weight : F) : F :=
  match matches with
  | [] => x
  | _ :: _ => (x + of_count (length matches) * weight)%py
  end.

Definition noted (detected : DetectedPhrases) (c : category)
  (matches : list str) : DetectedPhrases :=
  match matches with
  | [] => detected
  | _ :: _ => extend detected c matches
  end.

Definition found_log (what : string) (matches : list str)
  : list (Main.record F) :=
  match matches with
  | [] => []
  | _ :: _ => [(Main.INFO, Main.Found (length matches) what matches)]
  end.

(** The seven calls of the scorer, in the order it makes them. *)
Definition calls (kw : Keywords) : list (list str) :=
  [ extreme_right_keywords kw; extreme_left_keywords kw;
    left_wing_economic kw; left_wing_social kw;
    right_wing_economic kw; right_wing_social kw; neutral_terms kw ].

(** The raw scores and the detected phrases, from the seven match
    lists. *)
Definition raw_of (er el lwe lws rwe rws nt : list str) : ScoreVector F :=
  {| s_left_wing :=
       credit (credit zero lwe Main.wing_weight) lws Main.wing_weight;
     s_right_wing :=
       credit (credit zero rwe Main.wing_weight) rws Main.wing_weight;
     s_extreme_left := credit zero el Main.extreme_weight;
     s_extreme_right := credit zero er Main.extreme_weight;
     s_neutral := credit zero nt Main.neutral_weight |}.

Definition detected_of (er el lwe lws rwe rws nt : list str)
  : DetectedPhrases :=
  noted (noted (noted (noted (noted (noted (noted []
    extreme_right er) extreme_left el) left_wing lwe) left_wing lws)
    right_wing rwe) right_wing rws) neutral nt.

(** The scores after the normalisation loop. *)
Definition normalized (scores : ScoreVector F) (total_score : F)
  : ScoreVector F :=
  {| s_left_wing := (s_left_wing scores / total_score)%py;
     s_right_wing := (s_right_wing scores / total_score)%py;
     s_extreme_left := (s_extreme_left scores / total_score)%py;
     s_extreme_right := (s_extreme_right scores / total_score)%py;
     s_neutral := (s_neutral scores / total_score)%py |}.

(** What [calculate_bias_scores] returns once its first stage has
    returned [raw] and [d]. *)
Definition finish (raw : ScoreVector F) (d : DetectedPhrases)
  : result (ScoreVector F * DetectedPhrases) :=
  let total_score := sum (values raw) in
  if (total_score >? zero)%py
  then if (total_score ==? zero)%py then Raise ZeroDivisionError
       else Ok (normalized raw total_score, d)
  else Ok (raw, d).

(** The value of [max(scores.values())]. *)
Definition top (scores : ScoreVector F) : F :=
  max_by (fun x => x) (s_left_wing scores)
    [s_right_wing scores; s_extreme_left scores; s_extreme_right scores;
     s_neutral scores].

(** The dominant categories of a score vector whose maximum is not 0. *)
Definition dominant (scores : ScoreVector F) : list category :=
  Main.dominant_categories_of scores (top scores * Main.dominance)%py.

(** [c] is dominant: its score reaches 0.85 times the maximum. *)
Definition reaches (scores : ScoreVector F) (c : category) : bool :=
  (get scores c >=? top scores * Main.dominance)%py.

End Terms.

(** On binary64 the ratio test on [n] words agrees with
    [3 * n <= 5 * m] for every count [m <= n]. *)
Definition ratio_agrees (n : nat) : bool :=
  forallb (fun m => Bool.eqb (ratio_ok (F := float) m n) (3 * n <=? 5 * m))
    (seq 0 (n + 1)).

(** The matches scored under [c], by the seven match lists. *)
Definition matched_under (er el lwe lws rwe rws nt : list str)
  (c : category) : list str :=
  match c with
  | left_wing => lwe ++ lws
  | right_wing => rwe ++ rws
  | extreme_left => el
  | extreme_right => er
  | neutral => nt
  end.

(** The all-zero score vector, on either arithmetic. *)
Definition no_scores {F : Type} `{Float F} : ScoreVector F :=
  {| s_left_wing := zero; s_right_wing := zero; s_extreme_left := zero;
     s_extreme_right := zero; s_neutral := zero |}.

(** The seven calls of the matcher return the lists [ms]. *)
Definition matcher_returns {F : Type} `{Float F} (kw : Keywords)
  (text : str) (ms : list (list str)) : Prop :=
  map (Main.find_phrase_matches text) (calls kw) = map Ok ms.

(** The raw scores are the weights times the match counts, compared with
    the arithmetic's own [==]. *)
Definition RawScoresWeighted {F : Type} `{Float F} (raw : ScoreVector F)
  (er el lwe lws rwe rws nt : list str) : Prop :=
  (get raw extreme_right ==? of_count (length er) * Main.extreme_weight)%py
  = true
  /\ (get raw extreme_left ==? of_count (length el) * Main.extreme_weight)%py
     = true
  /\ (get raw left_wing
        ==? of_count (length lwe + length lws) * Main.wing_weight)%py = true
  /\ (get raw right_wing
        ==? of_count (length rwe + length rws) * Main.wing_weight)%py = true
  /\ (get raw neutral ==? of_count (length nt) * Main.neutral_weight)%py
     = true.

(** [credit] by the number of matches. *)
Definition credit_n {F : Type} `{Float F} (x : F) (n : nat) (weight : F)
  : F :=
  match n with
  | 0 => x
  | S _ => (x + of_count n * weight)%py
  end.

(** On binary64, the score credited for [n] matches of one list, and for
    [a] then [b] matches of two lists, is the weight times the count. *)
Definition single_agrees (weight : float) (n : nat) : bool :=
  (credit_n zero n weight ==? of_count n * weight)%py.

Definition pair_agrees (weight : float) (a b : nat) : bool :=
  (credit_n (credit_n zero a weight) b weight
     ==? of_count (a + b) * weight)%py.

(** A double that is zero or a positive finite number. *)
Definition nonneg_finite (x : float) : bool :=
  match Prim2SF x with
  | S754_zero _ => true
  | S754_finite false _ _ => true
  | _ => false
  end.

(** On binary64, the score credited for [n] matches, and for [a] then
    [b] matches, is finite and not negative. *)
Definition single_finite (weight : float) (n : nat) : bool :=
  nonneg_finite (credit_n zero n weight).

Definition pair_finite (weight : float) (a b : nat) : bool :=
  nonneg_finite (credit_n (credit_n zero a weight) b weight).

(** Every keyword list has at most 256 phrases. *)
Definition small_lists (kw : Keywords) : bool :=
  forallb (fun phrases => length phrases <=? 256) (calls kw).

(** Two wings level with each other on binary64, no extreme. *)
Definition level_floats : ScoreVector float :=
  {| s_left_wing := 0.5%float; s_right_wing := 0.5%float;
     s_extreme_left := 0%float; s_extreme_right := 0%float;
     s_neutral := 0%float |}.

(** The mantissa of the double nearest to 0.85, which is
    [dominance_mantissa * 2^-53]. *)
Definition dominance_mantissa : positive := 7656119366529843.

(** A keyword set in the shape of [data/bias_keywords.json]. *)
Definition example_keywords : Keywords :=
  {| extreme_right_keywords := strs ["deep state"; "globalist"; "invasion"];
     extreme_left_keywords := strs ["abolish"];
     left_wing_economic := strs ["wealth tax"];
     left_wing_social := strs ["equity"];
     right_wing_economic := strs ["deregulation"; "tax cuts"];
     right_wing_social := strs ["tradition"];
     neutral_terms := strs ["according to"] |}.

Definition example_text : str :=
  "Tax cuts and deregulation, according to the report".



(** A near tie between a wing and an extreme: the extreme is returned
    with its own score, which is not the maximum. *)
Definition near_tie : ScoreVector Q :=
  {| s_left_wing := (1 # 2)%Q; s_right_wing := 0%Q;
     s_extreme_left := (9 # 20)%Q; s_extreme_right := (1 # 20)%Q;
     s_neutral := 0%Q |}.

(** Two wings level with each other, no extreme. *)
Definition level_wings : ScoreVector Q :=
  {| s_left_wing := (1 # 2)%Q; s_right_wing := (1 # 2)%Q;
     s_extreme_left := 0%Q; s_extreme_right := 0%Q; s_neutral := 0%Q |}.

(** ** backend/app/main.py: [get_ngrams] *)

(** [sep.join(xs)] *)
Fixpoint join (sep : str) (xs : list str) : str :=
  match xs with
  | [] => []
  | x :: xs' =>
      match xs' with
      | [] => x
      | _ :: _ => x ++ sep ++ join sep xs'
      end
  end.

(** The position a slice bound [k] stands for in a sequence of length
    [len]: a negative bound counts from the end, and every bound is
    clamped to the sequence. *)
Definition slice_index (len k : Z) : Z :=
  if (k <? 0)%Z then Z.max 0 (k + len) else Z.min k len.

(** [xs[i:j]] for any two integers *)
Definition list_slice {A : Type} (xs : list A) (i j : Z) : list A :=
  let len := Z.of_nat (length xs) in
  let a := slice_index len i in
  let b := slice_index len j in
  firstn (Z.to_nat (b - a)) (skipn (Z.to_nat a) xs).

(** [range(n)] for any integer [n] *)
Definition range_int (n : Z) : list Z := map Z.of_nat (seq 0 (Z.to_nat n)).

(** The set is listed by first occurrences, as [set_of] lists it. *)
Definition get_ngrams (text : str) (n : Z) : list str :=
  let words := split text in
  set_of (map (fun i => join " " (list_slice words i (i + n)%Z))
            (range_int (Z.of_nat (length words) - n + 1)%Z)).

(** ** What the further properties are stated with *)

(** A keyword made of whitespace only that does not occur in the text:
    it has no word, and it is the candidate on which the matcher of
    [main.py] divides by zero.  (The empty keyword occurs in every
    text.) *)
Definition Wordless_absent (text p : str) : Prop :=
  forallb isspace p = true /\ ~ Infix (lower p) (lower text).

Definition wordless_absent (text p : str) : bool :=
  match split (lower p) with
  | [] => negb (str_in (lower p) (lower text))
  | _ :: _ => false
  end.

(** Some keyword list of [kw] holds such a keyword. *)
Definition Keywords_fail (kw : Keywords) (text : str) : Prop :=
  exists phrases p,
    In phrases (calls kw) /\ In p phrases /\ Wordless_absent text p.

Definition keywords_fail (kw : Keywords) (text : str) : bool :=
  existsb (existsb (wordless_absent text)) (calls kw).

(** The six strings [determine_overall_bias] of [main.py] can answer
    with, and the six of [server.py]. *)
Definition main_labels : list string :=
  map name keys ++ ["mixed"].

Definition server_labels : list string :=
  map name keys ++ ["mixed extreme"].

(** The verdict of the loop body of [server.py]'s matcher on one
    phrase. *)
Definition server_kept {F : Type} `{Float F} (text : str) (phrase : str)
  : bool :=
  let processed_text := lower text in
  let input_words := set_of (split processed_text) in
  let phrase_words := set_of (split (lower phrase)) in
  str_in (lower phrase) processed_text
  || match phrase_words with
     | [phrase_word] =>
         existsb (fun input_word => str_in phrase_word input_word) input_words
     | _ =>
         (of_count (length (filter (fun w => mem w phrase_words) input_words))
            >=? Server.common_threshold (length phrase_words))%py
     end.

(** The number of distinct tokens of the text that are words of the
    phrase: [len(common_words)]. *)
Definition common_count (text phrase : str) : nat :=
  length (filter (fun w => mem w (set_of (split (lower phrase))))
            (set_of (split (lower text)))).

(** [server.py]'s matcher, read in integers: the phrase occurs verbatim,
    or its one distinct word is inside a token, or it has [k <> 1]
    distinct words of which at least one, and at least 30%, are tokens. *)
Definition ServerHit (text phrase : str) : Prop :=
  Infix (lower phrase) (lower text)
  \/ (exists w, set_of (split (lower phrase)) = [w]
                /\ exists t, In t (split (lower text)) /\ Infix w t)
  \/ (length (set_of (split (lower phrase))) <> 1
      /\ 1 <= common_count text phrase
      /\ 3 * length (set_of (split (lower phrase)))
         <= 10 * common_count text phrase).

(** On binary64 the threshold test on [k] distinct words agrees with
    "at least one and at least 30%" for every count [m <= k]. *)
Definition threshold_agrees (k : nat) : bool :=
  forallb (fun m =>
             Bool.eqb (of_count (F := float) m
                         >=? Server.common_threshold k)%py
               ((1 <=? m) && (3 * k <=? 10 * m)))
    (seq 0 (k + 1)).

(** The raw scores of [server.py] from the seven match lists, before
    the baseline. *)
Definition server_raw_of {F : Type} `{Float F}
  (er el lwe lws rwe rws nt : list str) : ScoreVector F :=
  {| s_left_wing := credit (credit zero lwe (lit 12 10)) lws (lit 12 10);
     s_right_wing := credit (credit zero rwe (lit 12 10)) rws (lit 12 10);
     s_extreme_left := credit zero el (of_count 2);
     s_extreme_right := credit zero er (of_count 2);
     s_neutral := credit zero nt (lit 3 10) |}.

(** One pass of the baseline loop on one score. *)
Definition with_baseline {F : Type} `{Float F} (x : F) : F :=
  if (x >? zero)%py then (x + lit 5 10)%py else x.

(** What [server.py]'s scorer returns from the raw scores [raw] and the
    detected phrases [d]. *)
Definition server_finish {F : Type} `{Float F} (raw : ScoreVector F)
  (d : DetectedPhrases) : result (ScoreVector F * DetectedPhrases) :=
  let scores :=
    {| s_left_wing := with_baseline (s_left_wing raw);
       s_right_wing := with_baseline (s_right_wing raw);
       s_extreme_left := with_baseline (s_extreme_left raw);
       s_extreme_right := with_baseline (s_extreme_right raw);
       s_neutral := with_baseline (s_neutral raw) |} in
  let total_score := sum (values scores) in
  if (total_score >? zero)%py
  then if (total_score ==? zero)%py then Raise ZeroDivisionError
       else Ok (normalized scores total_score, d)
  else Ok (scores, d).

(** The category a verdict of [server.py]'s resolver names when the
    maximum is not 0 and the extremes are not both dominant: one other
    than "neutral" with a positive score or, when there is none, one that
    scores the maximum. *)
Definition Names {F : Type} `{Float F} (scores : ScoreVector F)
  (label : string) : Prop :=
  exists c,
    label = name c
    /\ ((c <> neutral /\ (get scores c >? zero)%py = true)
        \/ (get scores c = top scores
            /\ forall c', c' <> neutral ->
                          (get scores c' >? zero)%py = false)).

(** Nine tenths neutral, one tenth left wing. *)
Definition mostly_neutral : ScoreVector Q :=
  {| s_left_wing := (1 # 10)%Q; s_right_wing := 0%Q;
     s_extreme_left := 0%Q; s_extreme_right := 0%Q;
     s_neutral := (9 # 10)%Q |}.

(** ** Strings *)

Lemma str_eqb_eq (a b : str) : str_eqb a b = true <-> a = b.
Proof.
  revert b; induction a as [|x a IH]; intros [|y b]; simpl;
    try (split; [discriminate | congruence]); try tauto.
  rewrite andb_true_iff, Ascii.eqb_eq, IH.
  split; [intros [-> ->]; reflexivity | intros E; inversion E; tauto].
Qed.

Lemma str_eqb_refl (a : str) : str_eqb a a = true.
Proof. apply str_eqb_eq; reflexivity. Qed.

Lemma mem_In (x : str) (xs : list str) : mem x xs = true <-> In x xs.
Proof.
  unfold mem. rewrite existsb_exists. split.
  - intros [y [Hin E]]. apply str_eqb_eq in E. subst. exact Hin.
  - intros Hin. exists x. split; [exact Hin | apply str_eqb_refl].
Qed.

Lemma In_set_of (x : str) (xs : list str) : In x (set_of xs) <-> In x xs.
Proof.
  induction xs as [|y xs IH]; simpl; [tauto|].
  rewrite filter_In, IH, negb_true_iff. split.
  - intros [E | [Hin _]]; auto.
  - intros [E | Hin]; auto.
    destruct (str_eqb y x) eqn:E; [left; apply str_eqb_eq; exact E | right; auto].
Qed.

Lemma startswith_prefix (s p : str) :
  startswith s p = true <-> exists b, s = p ++ b.
Proof.
  revert s; induction p as [|x p IH]; intros s; simpl.
  - split; [intros _; exists s; reflexivity | destruct s; reflexivity].
  - destruct s as [|y s]; simpl.
    + split; [discriminate | intros [b E]; discriminate].
    + rewrite andb_true_iff, Ascii.eqb_eq, IH. split.
      * intros [-> [b ->]]. exists b. reflexivity.
      * intros [b E]. inversion E. split; [reflexivity | exists b; reflexivity].
Qed.

Lemma str_in_nil (sub : str) : str_in sub [] = startswith [] sub.
Proof. simpl. apply orb_false_r. Qed.

Lemma str_in_cons (sub : str) (c : ascii) (s : str) :
  str_in sub (c :: s) = startswith (c :: s) sub || str_in sub s.
Proof. reflexivity. Qed.

Lemma str_in_Infix (sub s : str) : str_in sub s = true <-> Infix sub s.
Proof.
  unfold Infix. induction s as [|c s IH].
  - rewrite str_in_nil, startswith_prefix. split.
    + intros [b E]. exists [], b. exact E.
    + intros [a [b E]]. destruct a; simpl in E.
      * exists b. exact E.
      * discriminate.
  - rewrite str_in_cons, orb_true_iff, startswith_prefix, IH. split.
    + intros [[b E] | [a [b E]]].
      * exists [], b. exact E.
      * exists (c :: a), b. simpl. congruence.
    + intros [a [b E]]. destruct a as [|c' a]; simpl in E.
      * left. exists b. exact E.
      * right. inversion E. exists a, b. reflexivity.
Qed.

Lemma Infix_refl (w : str) : Infix w w.
Proof. exists [], []. simpl. rewrite app_nil_r. reflexivity. Qed.

Lemma Infix_trans (a b c : str) : Infix a b -> Infix b c -> Infix a c.
Proof.
  intros [x [y ->]] [u [v ->]]. exists (u ++ x), (y ++ v).
  rewrite <- !app_assoc. reflexivity.
Qed.

Lemma Infix_prefix (p b : str) : Infix p (p ++ b).
Proof. exists [], b. reflexivity. Qed.

Lemma rstrip_prefix (chars w : str) : exists b, w = rstrip chars w ++ b.
Proof.
  unfold rstrip.
  assert (G : forall p (l : str), exists a, l = a ++ dropwhile p l).
  { intros p l. induction l as [|c l [a E]]; simpl.
    - exists []. reflexivity.
    - destruct (p c).
      + exists (c :: a). simpl. congruence.
      + exists []. reflexivity. }
  destruct (G (fun c => char_in c chars) (rev w)) as [a E].
  exists (rev a).
  rewrite <- rev_app_distr, <- E, rev_involutive. reflexivity.
Qed.

Lemma slice_Infix (w : str) (i j : nat) :
  i <= j <= length w ->
  Infix (slice w i j) w /\ length (slice w i j) = j - i.
Proof.
  intros Hij. unfold slice. split.
  - exists (firstn i w), (skipn (j - i) (skipn i w)).
    rewrite (firstn_skipn (j - i) (skipn i w)), firstn_skipn. reflexivity.
  - rewrite length_firstn, length_skipn. lia.
Qed.

(** The set [text_substrings]: the runs of at least three characters of
    the text's words. *)
Lemma In_text_substrings (x : str) (text_words : list str) :
  In x (Main.text_substrings_of text_words) <->
  exists w, In w text_words /\ Infix x w /\ 3 <= length x.
Proof.
  unfold Main.text_substrings_of, range. rewrite in_flat_map. split.
  - intros [w [Hw Hx]]. exists w. split; [exact Hw|].
    apply in_flat_map in Hx. destruct Hx as [i [Hi Hx]].
    apply in_map_iff in Hx. destruct Hx as [j [<- Hj]].
    apply in_seq in Hi. apply in_seq in Hj.
    destruct (@slice_Infix w i j) as [Hinf Hlen]; [lia|].
    split; [exact Hinf | lia].
  - intros [w [Hw [[a [b E]] Hlen]]]. exists w. split; [exact Hw|].
    apply in_flat_map. exists (length a).
    assert (Hl : length w = length a + length x + length b)
      by (rewrite E, !length_app; lia).
    split; [apply in_seq; lia|].
    apply in_map_iff. exists (length a + length x). split.
    + unfold slice. rewrite E, skipn_app, Nat.sub_diag, skipn_all. simpl.
      replace (length a + length x - length a) with (length x) by lia.
      rewrite firstn_app, Nat.sub_diag, firstn_all. simpl.
      apply app_nil_r.
    + apply in_seq. lia.
Qed.

(** ** The matcher *)

Section MatcherFacts.
Context {F : Type} `{Float F}.

Lemma count_word_counted (text_words : list str) (m : nat) (w : str) :
  Main.count_word text_words (set_of text_words)
    (Main.text_substrings_of text_words) m w
  = if counted text_words w then m + 1 else m.
Proof.
  unfold Main.count_word, counted.
  destruct (mem w (set_of text_words)); [reflexivity|].
  destruct (existsb _ text_words); [reflexivity|].
  simpl. reflexivity.
Qed.

(** The inner [for text_word in text_words] loop finds a match exactly
    when the word is matched in the sense of [WordHit]. *)
Lemma loop_condition_WordHit (text_words : list str) (w : str) :
  existsb (Main.loop_condition (Main.text_substrings_of text_words) w)
    text_words = true
  <-> WordHit text_words w.
Proof.
  rewrite existsb_exists. unfold Main.loop_condition, WordHit. split.
  - intros [t [Ht C]].
    rewrite !orb_true_iff in C. destruct C as [[[C | C] | C] | C].
    + exists t. split; [exact Ht|]. left. apply str_in_Infix. exact C.
    + exists t. split; [exact Ht|]. right; left. apply str_in_Infix. exact C.
    + apply mem_In in C. apply -> In_text_substrings in C.
      destruct C as [t' [Ht' [Hinf _]]].
      exists t'. split; [exact Ht'|]. left. exact Hinf.
    + apply existsb_exists in C. destruct C as [sub [Hsub Hin]].
      apply filter_In in Hsub. destruct Hsub as [Hsub _].
      apply -> In_text_substrings in Hsub.
      destruct Hsub as [t' [Ht' [Hinf Hlen]]].
      exists t'. split; [exact Ht'|]. right; right.
      exists sub. split; [exact Hlen|]. split; [exact Hinf|].
      apply str_in_Infix. exact Hin.
  - intros [t [Ht [C | [C | [sub [Hlen [Hst Hsw]]]]]]]; exists t;
      (split; [exact Ht|]); rewrite !orb_true_iff.
    + left; left; left. apply str_in_Infix. exact C.
    + left; left; right. apply str_in_Infix. exact C.
    + right. apply existsb_exists. exists sub. split.
      * apply filter_In. split.
        -- apply In_text_substrings. exists t. auto.
        -- apply Nat.leb_le. exact Hlen.
      * apply str_in_Infix. exact Hsw.
Qed.

(** The six variations add nothing: a word one of them would match is
    matched by the loop before them. *)
Lemma variations_subsumed (text_words : list str) (w v : str) :
  In v (Main.word_variations w) ->
  mem v (set_of text_words)
  || mem v (Main.text_substrings_of text_words) = true ->
  WordHit text_words w.
Proof.
  intros Hv Hm.
  assert (Hcase : Infix v w \/ Infix w v).
  { simpl in Hv.
    destruct Hv as [<- | [<- | [<- | [<- | [<- | [<- | []]]]]]];
      try (left;
           match goal with
           | |- Infix (rstrip ?c w) w =>
               destruct (rstrip_prefix c w) as [b E];
               exists [], b; simpl; exact E
           end);
      right; apply Infix_prefix. }
  apply orb_true_iff in Hm. destruct Hm as [Hm | Hm].
  - apply mem_In in Hm. apply -> In_set_of in Hm.
    exists v. split; [exact Hm|]. destruct Hcase; auto.
  - apply mem_In in Hm. apply -> In_text_substrings in Hm.
    destruct Hm as [t [Ht [Hinf Hlen]]].
    exists t. split; [exact Ht|]. destruct Hcase as [Hvw | Hwv].
    + right; right. exists v. auto.
    + left. eapply Infix_trans; eassumption.
Qed.

Lemma counted_WordHit (text_words : list str) (w : str) :
  counted text_words w = true <-> WordHit text_words w.
Proof.
  unfold counted. rewrite !orb_true_iff, loop_condition_WordHit. split.
  - intros [[Hm | Hl] | Hv].
    + apply mem_In in Hm. apply -> In_set_of in Hm.
      exists w. split; [exact Hm|]. left. apply Infix_refl.
    + exact Hl.
    + apply existsb_exists in Hv. destruct Hv as [v [Hv Hm]].
      eapply variations_subsumed; eassumption.
  - intros Hw. left; right. exact Hw.
Qed.

Lemma fold_count_word (text_words phrase_words : list str) (m : nat) :
  fold_left (Main.count_word text_words (set_of text_words)
               (Main.text_substrings_of text_words)) phrase_words m
  = m + length (filter (counted text_words) phrase_words).
Proof.
  revert m. induction phrase_words as [|w ws IH]; intros m; simpl.
  - lia.
  - rewrite count_word_counted, IH.
    destruct (counted text_words w); simpl; lia.
Qed.

Lemma Hits_counted (text_words phrase_words : list str) :
  Hits text_words phrase_words
    (length (filter (counted text_words) phrase_words)).
Proof.
  induction phrase_words as [|w ws IH]; simpl.
  - constructor.
  - destruct (counted text_words w) eqn:E; simpl.
    + apply Hits_hit; [apply counted_WordHit; exact E | exact IH].
    + apply Hits_miss; [|exact IH].
      intros Hw. apply counted_WordHit in Hw. congruence.
Qed.

Lemma Hits_functional (tokens ws : list str) (m n : nat) :
  Hits tokens ws m -> Hits tokens ws n -> m = n.
Proof.
  intros Hm. revert n.
  induction Hm as [|w ws m Hw _ IH|w ws m Hw _ IH]; intros n Hn;
    inversion Hn; subst; try reflexivity; try contradiction.
  - f_equal. apply IH. assumption.
  - apply IH. assumption.
Qed.

Lemma kept_PhraseHit (text p : str) :
  kept text p = true <-> PhraseHit text p.
Proof.
  unfold kept, PhraseHit. rewrite orb_true_iff, str_in_Infix. split.
  - intros [Hin | Hr]; [left; exact Hin | right].
    eexists. split; [apply Hits_counted | exact Hr].
  - intros [Hin | [m [Hm Hr]]]; [left; exact Hin | right].
    rewrite (Hits_functional (Hits_counted _ _) Hm). exact Hr.
Qed.

Lemma match_loop_filter (text : str) (phrases matches : list str) :
  (forall p, In p phrases ->
     split (lower p) = [] -> str_in (lower p) (lower text) = true) ->
  Main.match_loop (lower text) (split (lower text)) phrases matches
  = Ok (matches ++ filter (kept text) (map lower phrases)).
Proof.
  revert matches. induction phrases as [|p ps IH]; intros matches Hok; simpl.
  - rewrite app_nil_r. reflexivity.
  - assert (Hps : forall q, In q ps -> split (lower q) = [] ->
                    str_in (lower q) (lower text) = true)
      by (intros q Hq; apply Hok; right; exact Hq).
    unfold kept at 1.
    destruct (str_in (lower p) (lower text)) eqn:Hin; simpl.
    + rewrite IH by exact Hps. rewrite <- app_assoc. reflexivity.
    + rewrite fold_count_word. simpl. unfold truediv_int.
      destruct (length (split (lower p)) =? 0) eqn:Hz.
      * apply Nat.eqb_eq, length_zero_iff_nil in Hz.
        rewrite (Hok p (or_introl eq_refl) Hz) in Hin. discriminate.
      * simpl. unfold ratio_ok.
        destruct (fleb _ _); rewrite IH by exact Hps;
          [rewrite <- app_assoc|]; reflexivity.
Qed.

(** The matcher returns at most as many phrases as it was given. *)
Lemma match_loop_length (text : str) (text_words phrases : list str) :
  forall matches found,
    Main.match_loop text text_words phrases matches = Ok found ->
    length found <= length matches + length phrases.
Proof.
  induction phrases as [|p ps IH]; intros matches found E; simpl in E.
  - injection E as <-. lia.
  - destruct (str_in (lower p) text).
    + apply IH in E. rewrite length_app in E. simpl in *. lia.
    + destruct (truediv_int _ _) as [ratio | e]; [|discriminate E].
      simpl in E. destruct (fleb _ _); apply IH in E;
        rewrite ?length_app in E; simpl in *; lia.
Qed.

Lemma find_phrase_matches_length (text : str) (phrases found : list str) :
  Main.find_phrase_matches text phrases = Ok found ->
  length found <= length phrases.
Proof.
  intros E. apply match_loop_length in E. simpl in E. exact E.
Qed.

End MatcherFacts.

(** In exact arithmetic the ratio test is "at least 60% of the words". *)
Lemma ratio_ok_exact (m n : nat) :
  0 < n -> (ratio_ok (F := Q) m n = true <-> 3 * n <= 5 * m).
Proof.
  intros Hn. unfold ratio_ok, Main.match_threshold, lit. simpl.
  rewrite Qle_bool_iff.
  destruct n as [|k]; [lia|].
  unfold Qle, Qdiv, Qmult, Qinv, inject_Z. simpl Z.of_nat.
  cbn [Qnum Qden]. lia.
Qed.

(** The same reading holds on binary64 for every phrase of up to 256
    words, checked value by value. *)
Lemma ratio_ok_binary64 (m n : nat) :
  0 < n <= 256 -> m <= n ->
  (ratio_ok (F := float) m n = true <-> 3 * n <= 5 * m).
Proof.
  intros Hn Hm.
  assert (A : forallb ratio_agrees (seq 1 256) = true)
    by (vm_compute; reflexivity).
  rewrite forallb_forall in A.
  assert (B : ratio_agrees n = true) by (apply A, in_seq; lia).
  unfold ratio_agrees in B. rewrite forallb_forall in B.
  assert (C : Bool.eqb (ratio_ok (F := float) m n) (3 * n <=? 5 * m) = true)
    by (apply B, in_seq; lia).
  apply Bool.eqb_prop in C. rewrite C. apply Nat.leb_le.
Qed.




(** The matcher returns exactly when no candidate without words is
    absent from the text: such a candidate makes it raise
    [ZeroDivisionError]. *)
Lemma match_loop_raises {F : Type} `{Float F}
  (text : str) (phrases matches : list str) :
  (exists p, In p phrases /\ split (lower p) = []
             /\ str_in (lower p) (lower text) = false) ->
  Main.match_loop (lower text) (split (lower text)) phrases matches
  = Raise ZeroDivisionError.
Proof.
  revert matches. induction phrases as [|q qs IH]; intros matches Hp.
  - destruct Hp as [p [[] _]].
  - simpl.
    destruct (str_in (lower q) (lower text)) eqn:Hin.
    + apply IH. destruct Hp as [p [[<- | Hp] [Hs Hn]]];
        [congruence | exists p; auto].
    + destruct (split (lower q)) as [|w ws] eqn:Hs; [reflexivity|].
      unfold truediv_int. simpl Nat.eqb. simpl bind.
      destruct (fleb _ _); apply IH;
        destruct Hp as [p [[<- | Hp] [Hs' Hn]]];
        try congruence; exists p; auto.
Qed.

(** C2. A candidate made of whitespace only, absent from the text, makes
    [find_phrase_matches] raise [ZeroDivisionError] on either arithmetic,
    and the empty candidate is reported as a match; the matcher of
    [server.py] returns on the same input and reports nothing. *)
Theorem find_phrase_matches_zero_words :
  Main.find_phrase_matches (F := float) "abc" (strs ["  "])
  = Raise ZeroDivisionError
  /\ Main.find_phrase_matches (F := Q) "abc" (strs ["  "])
     = Raise ZeroDivisionError
  /\ Main.find_phrase_matches (F := float) "abc" (strs [""]) = Ok (strs [""])
  /\ Server.find_phrase_matches (F := float) "abc" (strs ["  "]) = [].
Proof. repeat split; vm_compute; reflexivity. Qed.

(** ** The scorer *)

Section ScorerFacts.
Context {F : Type} `{Float F}.

Lemma set_get_same (scores : ScoreVector F) (c : category) :
  set scores c (get scores c) = scores.
Proof. destruct scores, c; reflexivity. Qed.

Lemma category_eqb_eq (a b : category) : category_eqb a b = true <-> a = b.
Proof. destruct a, b; simpl; split; congruence. Qed.

Lemma score_block_ok (text : str) (phrases : list str) (what : string)
  (c : category) (w : F) (scores : ScoreVector F) (d : DetectedPhrases)
  (ms : list str) :
  Main.find_phrase_matches text phrases = Ok ms ->
  Main.score_block text phrases what c w (scores, d)
  = (found_log what ms,
     Ok (set scores c (credit (get scores c) ms w), noted d c ms)).
Proof.
  intros E. unfold Main.score_block, Main.mbind, Main.lift. rewrite E.
  destruct ms as [|m ms]; simpl.
  - rewrite set_get_same. reflexivity.
  - reflexivity.
Qed.

Lemma score_block_raise (text : str) (phrases : list str) (what : string)
  (c : category) (w : F) (state : ScoreVector F * DetectedPhrases)
  (e : exn) :
  Main.find_phrase_matches text phrases = Raise e ->
  Main.score_block text phrases what c w state = ([], Raise e).
Proof.
  intros E. destruct state as [scores d].
  unfold Main.score_block, Main.mbind, Main.lift. rewrite E. reflexivity.
Qed.

Lemma mbind_ok {A B : Type} (l : list (Main.record F)) (a : A)
  (k : A -> Main.M F B) :
  Main.mbind (l, Ok a) k = (l ++ fst (k a), snd (k a)).
Proof. unfold Main.mbind. destruct (k a). reflexivity. Qed.

Lemma mbind_raise {A B : Type} (l : list (Main.record F)) (e : exn)
  (k : A -> Main.M F B) :
  Main.mbind (l, Raise e) k = (l, Raise e).
Proof. reflexivity. Qed.

Lemma accumulate_scores_ok (kw : Keywords) (text : str)
  (er el lwe lws rwe rws nt : list str) :
  map (Main.find_phrase_matches text) (calls kw)
  = map Ok [er; el; lwe; lws; rwe; rws; nt] ->
  exists l,
    Main.accumulate_scores kw text
    = (l, Ok (raw_of er el lwe lws rwe rws nt,
              detected_of er el lwe lws rwe rws nt)).
Proof.
  intros E. simpl in E.
  injection E as E1 E2 E3 E4 E5 E6 E7.
  unfold Main.accumulate_scores.
  erewrite score_block_ok by exact E1; rewrite mbind_ok.
  erewrite score_block_ok by exact E2; rewrite mbind_ok.
  erewrite score_block_ok by exact E3; rewrite mbind_ok.
  erewrite score_block_ok by exact E4; rewrite mbind_ok.
  erewrite score_block_ok by exact E5; rewrite mbind_ok.
  erewrite score_block_ok by exact E6; rewrite mbind_ok.
  erewrite score_block_ok by exact E7.
  cbn [fst snd]. eexists. f_equal.
Qed.

(** One block of the first stage, by the outcome of its call. *)
Ltac block_by text phrases :=
  let ms := fresh "ms" in
  let e := fresh "e" in
  let E := fresh "E" in
  destruct (Main.find_phrase_matches text phrases) as [ms | e] eqn:E;
  [ erewrite score_block_ok by exact E; rewrite ?mbind_ok
  | erewrite score_block_raise by exact E; rewrite ?mbind_raise;
    discriminate ].

(** If the scorer's first stage returns, its seven calls returned. *)
Lemma accumulate_scores_inv (kw : Keywords) (text : str)
  (l : list (Main.record F)) (state : ScoreVector F * DetectedPhrases) :
  Main.accumulate_scores kw text = (l, Ok state) ->
  exists er el lwe lws rwe rws nt,
    map (Main.find_phrase_matches text) (calls kw)
    = map Ok [er; el; lwe; lws; rwe; rws; nt].
Proof.
  unfold Main.accumulate_scores.
  block_by text (extreme_right_keywords kw).
  block_by text (extreme_left_keywords kw).
  block_by text (left_wing_economic kw).
  block_by text (left_wing_social kw).
  block_by text (right_wing_economic kw).
  block_by text (right_wing_social kw).
  block_by text (neutral_terms kw).
  intros _. simpl calls. simpl map.
  repeat match goal with
         | E : Main.find_phrase_matches _ _ = Ok _ |- _ =>
             rewrite E; clear E
         end.
  repeat eexists.
Qed.

End ScorerFacts.

Section NormalizeFacts.
Context {F : Type} `{Float F}.

Lemma normalize_loop_keys (scores : ScoreVector F) (total_score : F) :
  Main.normalize_loop keys total_score scores
  = if (total_score ==? zero)%py then Raise ZeroDivisionError
    else Ok (normalized scores total_score).
Proof.
  unfold keys, Main.normalize_loop, truediv.
  destruct (total_score ==? zero)%py; [reflexivity|].
  destruct scores; reflexivity.
Qed.

Lemma calculate_bias_scores_finish (kw : Keywords) (text : str)
  (l : list (Main.record F)) (raw : ScoreVector F) (d : DetectedPhrases) :
  Main.accumulate_scores kw text = (l, Ok (raw, d)) ->
  snd (Main.calculate_bias_scores kw text) = finish raw d
  /\ exists l', fst (Main.calculate_bias_scores kw text)
                = l ++ (Main.INFO, Main.RawScores raw) :: l'.
Proof.
  intros E. unfold Main.calculate_bias_scores, finish. rewrite E.
  cbn [Main.mbind Main.log].
  destruct (sum (values raw) >? zero)%py.
  - unfold Main.lift. rewrite normalize_loop_keys.
    destruct (sum (values raw) ==? zero)%py.
    + cbn [Main.mbind fst snd]. split; [reflexivity|].
      eexists. reflexivity.
    + cbn [Main.mbind Main.log Main.ret fst snd app].
      split; [reflexivity|]. eexists. reflexivity.
  - cbn [Main.mbind Main.log Main.ret fst snd app].
    split; [reflexivity|]. eexists. reflexivity.
Qed.

Lemma calculate_bias_scores_inv (kw : Keywords) (text : str)
  (l : list (Main.record F)) (scores : ScoreVector F)
  (d : DetectedPhrases) :
  Main.calculate_bias_scores kw text = (l, Ok (scores, d)) ->
  exists l0 raw,
    Main.accumulate_scores kw text = (l0, Ok (raw, d))
    /\ finish raw d = Ok (scores, d)
    /\ In (Main.INFO, Main.RawScores raw) l.
Proof.
  intros E.
  destruct (Main.accumulate_scores kw text) as [l0 [[raw d0]|e]] eqn:A.
  - destruct (calculate_bias_scores_finish _ _ A) as [Hs [l' Hl]].
    rewrite E in Hs, Hl. simpl in Hs, Hl.
    assert (d0 = d).
    { unfold finish in Hs.
      destruct (sum (values raw) >? zero)%py;
        [destruct (sum (values raw) ==? zero)%py|]; congruence. }
    subst d0. exists l0, raw. split; [reflexivity|]. split; [auto|].
    rewrite Hl. apply in_or_app. right. left. reflexivity.
  - unfold Main.calculate_bias_scores in E. rewrite A in E.
    rewrite mbind_raise in E. discriminate.
Qed.

End NormalizeFacts.

(** ** The detected phrases *)

Lemma lookup_detected_of (er el lwe lws rwe rws nt : list str)
  (c : category) :
  lookup (detected_of er el lwe lws rwe rws nt) c
  = match matched_under er el lwe lws rwe rws nt c with
    | [] => None
    | m :: ms => Some (m :: ms)
    end.
Proof.
  destruct er, el, lwe, lws, rwe, rws, nt, c; simpl;
    rewrite ?app_nil_r; reflexivity.
Qed.

Lemma phrases_of_detected_of (er el lwe lws rwe rws nt : list str)
  (c : category) :
  phrases_of (detected_of er el lwe lws rwe rws nt) c
  = matched_under er el lwe lws rwe rws nt c.
Proof.
  unfold phrases_of. rewrite lookup_detected_of.
  destruct (matched_under er el lwe lws rwe rws nt c); reflexivity.
Qed.

(** C10. In the dictionary of detected phrases that
    [calculate_bias_scores] returns, a category is a key exactly when one
    of its keyword lists produced a match, and a key is never mapped to
    the empty list. *)
Theorem detected_phrases_keys
  {F : Type} `{Float F} (kw : Keywords) (text : str)
  (l : list (Main.record F)) (scores : ScoreVector F)
  (d : DetectedPhrases) :
  Main.calculate_bias_scores kw text = (l, Ok (scores, d)) ->
  forall c,
    (lookup d c <> None <->
     exists phrases m ms,
       In phrases (lists_of kw c)
       /\ Main.find_phrase_matches text phrases = Ok (m :: ms))
    /\ (forall found, lookup d c = Some found -> found <> []).
Proof.
  intros E c.
  destruct (calculate_bias_scores_inv _ _ E) as [l0 [raw [A _]]].
  destruct (accumulate_scores_inv _ _ A)
    as [er [el [lwe [lws [rwe [rws [nt Hc]]]]]]].
  destruct (accumulate_scores_ok Hc) as [l1 A'].
  rewrite A in A'. injection A' as _ _ ->.
  rewrite lookup_detected_of.
  simpl in Hc. injection Hc as E1 E2 E3 E4 E5 E6 E7.
  split.
  - split.
    + intros Hne.
      destruct c; simpl in Hne |- *.
      * destruct lwe as [|m ms].
        -- destruct lws as [|m ms]; [exfalso; apply Hne; reflexivity|].
           exists (left_wing_social kw), m, ms. auto.
        -- exists (left_wing_economic kw), m, ms. auto.
      * destruct rwe as [|m ms].
        -- destruct rws as [|m ms]; [exfalso; apply Hne; reflexivity|].
           exists (right_wing_social kw), m, ms. auto.
        -- exists (right_wing_economic kw), m, ms. auto.
      * destruct el as [|m ms]; [exfalso; apply Hne; reflexivity|].
        exists (extreme_left_keywords kw), m, ms. auto.
      * destruct er as [|m ms]; [exfalso; apply Hne; reflexivity|].
        exists (extreme_right_keywords kw), m, ms. auto.
      * destruct nt as [|m ms]; [exfalso; apply Hne; reflexivity|].
        exists (neutral_terms kw), m, ms. auto.
    + intros [phrases [m [ms [Hin Hm]]]].
      destruct c; simpl in Hin |- *;
        repeat (destruct Hin as [<- | Hin]; [|]); try contradiction;
        match goal with
        | E : Main.find_phrase_matches text ?p = Ok ?x,
          E' : Main.find_phrase_matches text ?p = Ok (_ :: _) |- _ =>
            rewrite E in E'; injection E' as ->
        end; try discriminate.
      destruct lwe; discriminate.
      destruct rwe; discriminate.
  - intros found. destruct (matched_under er el lwe lws rwe rws nt c);
      [discriminate | intros [= <-]; discriminate].
Qed.

(** ** The scorer in exact arithmetic *)

Local Open Scope Q_scope.

Lemma of_count_nonneg (n : nat) : 0 <= of_count (F := Q) n.
Proof.
  simpl. change 0 with (inject_Z 0). rewrite <- Zle_Qle. lia.
Qed.

Lemma of_count_pos (n : nat) : (0 < n)%nat -> 0 < of_count (F := Q) n.
Proof.
  intros Hn. simpl. change 0 with (inject_Z 0). rewrite <- Zlt_Qlt. lia.
Qed.

Lemma of_count_add (a b : nat) :
  of_count (F := Q) (a + b) == of_count a + of_count b.
Proof. simpl. rewrite Nat2Z.inj_add, inject_Z_plus. reflexivity. Qed.

Lemma credit_exact (x : Q) (ms : list str) (w : Q) :
  credit x ms w == x + of_count (length ms) * w.
Proof.
  destruct ms as [|m ms]; [|reflexivity].
  unfold credit. simpl. ring.
Qed.

Lemma weights_exact :
  Main.extreme_weight (F := Q) == 2
  /\ Main.wing_weight (F := Q) == 1
  /\ Main.neutral_weight (F := Q) == 75 # 100.
Proof. repeat split; reflexivity. Qed.

Lemma raw_of_exact (er el lwe lws rwe rws nt : list str) :
  let raw := raw_of (F := Q) er el lwe lws rwe rws nt in
  get raw extreme_right == 2 * of_count (length er)
  /\ get raw extreme_left == 2 * of_count (length el)
  /\ get raw left_wing == 1 * of_count (length lwe + length lws)
  /\ get raw right_wing == 1 * of_count (length rwe + length rws)
  /\ get raw neutral == (75 # 100) * of_count (length nt).
Proof.
  destruct weights_exact as [W2 [W1 W75]].
  cbn [raw_of get s_extreme_right s_extreme_left s_left_wing s_right_wing
       s_neutral].
  rewrite !credit_exact, !of_count_add, W2, W1, W75.
  unfold zero. change (of_count (F := Q) 0) with 0.
  repeat split; ring.
Qed.

Lemma sum_values (scores : ScoreVector Q) :
  sum (values scores)
  == get scores left_wing + get scores right_wing
     + get scores extreme_left + get scores extreme_right
     + get scores neutral.
Proof.
  unfold sum, values, keys. simpl. unfold zero.
  change (of_count (F := Q) 0) with 0. ring.
Qed.

Lemma raw_of_nonneg (er el lwe lws rwe rws nt : list str) (c : category) :
  0 <= get (raw_of (F := Q) er el lwe lws rwe rws nt) c.
Proof.
  destruct (raw_of_exact er el lwe lws rwe rws nt)
    as [Her [Hel [Hlw [Hrw Hnt]]]].
  destruct c;
    [rewrite Hlw | rewrite Hrw | rewrite Hel | rewrite Her | rewrite Hnt];
    apply Qmult_le_0_compat; try apply of_count_nonneg; discriminate.
Qed.

Lemma sum5_pos (a b c d e : Q) :
  0 <= a -> 0 <= b -> 0 <= c -> 0 <= d -> 0 <= e ->
  0 < a \/ 0 < b \/ 0 < c \/ 0 < d \/ 0 < e ->
  0 < a + b + c + d + e.
Proof. intros Ha Hb Hc Hd He [P | [P | [P | [P | P]]]]; lra. Qed.

(** The raw total is positive exactly when something matched. *)
Lemma raw_total_pos (er el lwe lws rwe rws nt : list str) :
  0 < sum (values (raw_of (F := Q) er el lwe lws rwe rws nt))
  <-> detected_of er el lwe lws rwe rws nt <> [].
Proof.
  rewrite sum_values.
  destruct (raw_of_exact er el lwe lws rwe rws nt)
    as [Her [Hel [Hlw [Hrw Hnt]]]].
  split.
  - intros Hpos Hd.
    assert (Z : er = [] /\ el = [] /\ lwe = [] /\ lws = [] /\ rwe = []
                /\ rws = [] /\ nt = []).
    { destruct er, el, lwe, lws, rwe, rws, nt; simpl in Hd;
        try discriminate Hd; repeat split. }
    destruct Z as [-> [-> [-> [-> [-> [-> ->]]]]]].
    vm_compute in Hpos. discriminate.
  - intros Hd.
    assert (P : (0 < length lwe + length lws \/ 0 < length rwe + length rws
                 \/ 0 < length el \/ 0 < length er \/ 0 < length nt)%nat).
    { destruct er, el, lwe, lws, rwe, rws, nt; simpl in Hd |- *;
        try (exfalso; apply Hd; reflexivity); lia. }
    assert (M : forall (w : Q) n, 0 < w -> (0 < n)%nat -> 0 < w * of_count n)
      by (intros w n Hw Hn; apply Qmult_lt_0_compat;
          [exact Hw | apply of_count_pos; exact Hn]).
    apply sum5_pos; try apply raw_of_nonneg.
    rewrite Her, Hel, Hlw, Hrw, Hnt.
    destruct P as [P | [P | [P | [P | P]]]];
      [left | right; left | right; right; left | right; right; right; left
      | right; right; right; right];
      apply M; try exact P; reflexivity.
Qed.

Lemma fltb_exact (x y : Q) : fltb x y = true <-> x < y.
Proof.
  simpl. rewrite negb_true_iff. split.
  - intros E. apply Qnot_le_lt. intros Hle.
    apply Qle_bool_iff in Hle. congruence.
  - intros Hlt. destruct (Qle_bool y x) eqn:E; [|reflexivity].
    apply Qle_bool_iff in E. exfalso.
    exact (Qlt_irrefl _ (Qlt_le_trans _ _ _ Hlt E)).
Qed.

Lemma fleb_exact (x y : Q) : fleb x y = true <-> x <= y.
Proof. apply Qle_bool_iff. Qed.

Lemma feqb_exact (x y : Q) : feqb x y = true <-> x == y.
Proof. apply Qeq_bool_iff. Qed.

Lemma zero_exact : zero (F := Q) = 0.
Proof. reflexivity. Qed.

Lemma finish_exact_pos (raw : ScoreVector Q) (d : DetectedPhrases) :
  0 < sum (values raw) ->
  finish raw d = Ok (normalized raw (sum (values raw)), d).
Proof.
  intros Hpos. unfold finish.
  destruct (fltb zero (sum (values raw))) eqn:L.
  - destruct (feqb (sum (values raw)) zero) eqn:N; [|reflexivity].
    apply feqb_exact in N. rewrite zero_exact in N. rewrite N in Hpos.
    exfalso. exact (Qlt_irrefl _ Hpos).
  - apply fltb_exact in Hpos. rewrite zero_exact in L. congruence.
Qed.

Lemma finish_exact_nonpos (raw : ScoreVector Q) (d : DetectedPhrases) :
  ~ 0 < sum (values raw) -> finish raw d = Ok (raw, d).
Proof.
  intros Hn. unfold finish.
  destruct (fltb zero (sum (values raw))) eqn:L; [|reflexivity].
  apply fltb_exact in L. rewrite zero_exact in L. contradiction.
Qed.

Lemma get_normalized (raw : ScoreVector Q) (t : Q) (c : category) :
  get (normalized raw t) c = get raw c / t.
Proof. destruct c; reflexivity. Qed.

Lemma detected_of_nil (er el lwe lws rwe rws nt : list str) :
  detected_of er el lwe lws rwe rws nt = [] ->
  er = [] /\ el = [] /\ lwe = [] /\ lws = [] /\ rwe = [] /\ rws = []
  /\ nt = [].
Proof.
  destruct er, el, lwe, lws, rwe, rws, nt; simpl; intros Hd;
    try discriminate Hd; repeat split.
Qed.

(** In exact arithmetic the scores that [calculate_bias_scores] returns
    are non-negative; the raw total is positive exactly when a phrase was
    detected, and then the five scores sum to exactly 1; when nothing was
    detected the five scores are 0. *)
Lemma normalised_scores_exact (kw : Keywords) (text : str)
  (l : list (Main.record Q)) (scores : ScoreVector Q)
  (d : DetectedPhrases) :
  Main.calculate_bias_scores kw text = (l, Ok (scores, d)) ->
  exists raw,
    In (Main.INFO, Main.RawScores raw) l
    /\ (forall c, 0 <= get scores c)
    /\ (0 < sum (values raw) <-> d <> [])
    /\ (0 < sum (values raw) -> sum (values scores) == 1)
    /\ (d = [] -> forall c, get scores c == 0).
Proof.
  intros E.
  destruct (calculate_bias_scores_inv _ _ E) as [l0 [raw [A [Fn Hlog]]]].
  destruct (accumulate_scores_inv _ _ A)
    as [er [el [lwe [lws [rwe [rws [nt Hc]]]]]]].
  destruct (accumulate_scores_ok Hc) as [l1 A'].
  rewrite A in A'. injection A' as _ -> ->.
  exists (raw_of er el lwe lws rwe rws nt).
  split; [exact Hlog|].
  set (raw := raw_of er el lwe lws rwe rws nt) in *.
  set (t := sum (values raw)) in *.
  assert (Hnn : forall c, 0 <= get raw c) by (intros c; apply raw_of_nonneg).
  assert (Hpos : 0 < t -> scores = normalized raw t).
  { intros Ht. unfold t in Ht. rewrite (finish_exact_pos _ Ht) in Fn.
    injection Fn as <-. reflexivity. }
  assert (Hnon : ~ 0 < t -> scores = raw).
  { intros Ht. rewrite (finish_exact_nonpos _ Ht) in Fn.
    injection Fn as <-. reflexivity. }
  split; [|split; [apply raw_total_pos|split]].
  - intros c. destruct (Qlt_le_dec 0 t) as [Ht | Ht].
    + rewrite (Hpos Ht), get_normalized.
      apply Qle_shift_div_l; [exact Ht|]. rewrite Qmult_0_l. apply Hnn.
    + rewrite Hnon; [apply Hnn|]. intros Ht'.
      exact (Qlt_irrefl _ (Qlt_le_trans _ _ _ Ht' Ht)).
  - intros Ht. rewrite (Hpos Ht), sum_values, !get_normalized.
    assert (St : t == get raw left_wing + get raw right_wing
                      + get raw extreme_left + get raw extreme_right
                      + get raw neutral) by apply sum_values.
    assert (Hz : ~ t == 0)
      by (intros Z; rewrite Z in Ht; exact (Qlt_irrefl _ Ht)).
    setoid_replace (get raw left_wing / t + get raw right_wing / t
                    + get raw extreme_left / t + get raw extreme_right / t
                    + get raw neutral / t)
      with ((get raw left_wing + get raw right_wing
             + get raw extreme_left + get raw extreme_right
             + get raw neutral) / t) by (field; exact Hz).
    rewrite <- St. field. exact Hz.
  - intros Hd c.
    assert (Hn : ~ 0 < t) by (intros Ht; apply raw_total_pos in Ht; auto).
    rewrite (Hnon Hn).
    apply detected_of_nil in Hd.
    destruct Hd as [-> [-> [-> [-> [-> [-> ->]]]]]].
    destruct c; reflexivity.
Qed.

Local Close Scope Q_scope.

(** ** Rounding on binary64

    The product of a positive double by 0.85 never exceeds it: the exact
    product is smaller and rounding to nearest is monotone.  The proof
    follows [SFmul] through its two shifts. *)

Unset Implicit Arguments.
Local Open Scope Z_scope.

Lemma digits2_size (p : positive) : digits2_pos p = Pos.size p.
Proof. induction p; simpl; congruence. Qed.

Lemma digits2_bounds (p : positive) :
  2 ^ (Zpos (digits2_pos p) - 1) <= Zpos p < 2 ^ Zpos (digits2_pos p).
Proof.
  rewrite digits2_size. split.
  - pose proof (Pos.size_le p) as L.
    assert (L' : 2 ^ Zpos (Pos.size p) <= 2 * Zpos p).
    { change 2 with (Zpos 2) at 1. rewrite <- Pos2Z.inj_pow.
      change (2 * Zpos p) with (Zpos p~0). apply Pos2Z.pos_le_pos. exact L. }
    replace (Zpos (Pos.size p)) with (Z.succ (Zpos (Pos.size p) - 1)) in L' by lia.
    rewrite Z.pow_succ_r in L' by lia. lia.
  - pose proof (Pos.size_gt p) as G.
    change 2 with (Zpos 2). rewrite <- Pos2Z.inj_pow.
    apply Pos2Z.pos_lt_pos. exact G.
Qed.

Lemma digits2_le (n : Z) (p : positive) :
  0 <= n -> Zpos p < 2 ^ n -> Zpos (digits2_pos p) <= n.
Proof.
  intros Hn Hp. destruct (digits2_bounds p) as [L _].
  destruct (Z_le_gt_dec (Zpos (digits2_pos p)) n) as [|G]; [assumption|].
  exfalso.
  assert (2 ^ n <= 2 ^ (Zpos (digits2_pos p) - 1))
    by (apply Z.pow_le_mono_r; lia).
  lia.
Qed.

Lemma digits2_ge (n : Z) (p : positive) :
  2 ^ (n - 1) <= Zpos p -> n <= Zpos (digits2_pos p).
Proof.
  intros Hp. destruct (digits2_bounds p) as [_ U].
  destruct (Z_le_gt_dec n (Zpos (digits2_pos p))) as [|G]; [assumption|].
  exfalso.
  assert (2 ^ Zpos (digits2_pos p) <= 2 ^ (n - 1))
    by (apply Z.pow_le_mono_r; lia).
  lia.
Qed.

Lemma shr_1_m (mrs : shr_record) :
  0 <= shr_m mrs -> shr_m (shr_1 mrs) = shr_m mrs / 2.
Proof.
  destruct mrs as [m r s]. simpl. intros Hm.
  destruct m as [|p|p]; [reflexivity| |lia].
  destruct p as [p|p|]; simpl shr_m.
  - rewrite Pos2Z.inj_xI. apply Z.div_unique with 1; lia.
  - rewrite Pos2Z.inj_xO. apply Z.div_unique with 0; lia.
  - reflexivity.
Qed.

Lemma iter_pos_shr_m (k : positive) :
  forall mrs, 0 <= shr_m mrs ->
  shr_m (iter_pos shr_1 k mrs) = shr_m mrs / 2 ^ Zpos k.
Proof.
  induction k as [k IH|k IH|]; intros mrs Hm; simpl iter_pos.
  - assert (H1 : 0 <= shr_m (shr_1 mrs))
      by (rewrite shr_1_m by assumption; apply Z.div_pos; lia).
    assert (H2 : 0 <= shr_m (iter_pos shr_1 k (shr_1 mrs)))
      by (rewrite IH by assumption; apply Z.div_pos; [|apply Z.pow_pos_nonneg]; lia).
    rewrite IH, IH, shr_1_m by assumption.
    rewrite !Z.div_div by (try apply Z.pow_pos_nonneg; lia).
    f_equal. change (Zpos k~1) with (2 * Zpos k + 1).
    replace (2 * Zpos k + 1) with (1 + Zpos k + Zpos k) by lia.
    rewrite !Z.pow_add_r by lia. rewrite Z.pow_1_r. ring.
  - assert (H2 : 0 <= shr_m (iter_pos shr_1 k mrs))
      by (rewrite IH by assumption; apply Z.div_pos; [|apply Z.pow_pos_nonneg]; lia).
    rewrite IH, IH by assumption.
    rewrite !Z.div_div by (try apply Z.pow_pos_nonneg; lia).
    f_equal. change (Zpos k~0) with (2 * Zpos k).
    replace (2 * Zpos k) with (Zpos k + Zpos k) by lia.
    rewrite !Z.pow_add_r by lia. ring.
  - rewrite shr_1_m by assumption. rewrite Z.pow_1_r. reflexivity.
Qed.

Lemma round_nearest_even_bounds (q : Z) (l : location) :
  q <= round_nearest_even q l <= q + 1.
Proof.
  destruct l as [|[| |]]; simpl; try lia.
  destruct (Z.even q); lia.
Qed.

Lemma Prim2SF_dominance :
  Prim2SF (Main.dominance (F := float))
  = S754_finite false dominance_mantissa (-53).
Proof. vm_compute. reflexivity. Qed.

Lemma dominance_mantissa_bounds : 2 ^ 52 <= Zpos dominance_mantissa < 2 ^ 53.
Proof. unfold dominance_mantissa. split; [apply Z.leb_le | apply Z.ltb_lt]; vm_compute; reflexivity. Qed.

Lemma fexp_eq (e : Z) : fexp prec emax e = Z.max (e - 53) (-1074).
Proof. reflexivity. Qed.

Lemma shr_fexp_noshift (m e : Z) :
  fexp prec emax (Zdigits2 m + e) - e <= 0 ->
  shr_fexp prec emax m e loc_Exact
  = ({| shr_m := m; shr_r := false; shr_s := false |}, e).
Proof.
  intros Hk. unfold shr_fexp, shr.
  destruct (fexp prec emax (Zdigits2 m + e) - e); try reflexivity; lia.
Qed.

Lemma shr_fexp_shift (m e : Z) (k : positive) :
  fexp prec emax (Zdigits2 m + e) - e = Zpos k ->
  shr_fexp prec emax m e loc_Exact
  = (iter_pos shr_1 k {| shr_m := m; shr_r := false; shr_s := false |},
     e + Zpos k).
Proof.
  intros Hk. unfold shr_fexp. rewrite Hk. reflexivity.
Qed.

Lemma SFleb_finite_same_exp (m mx : positive) (e : Z) :
  (m <= mx)%positive ->
  SFleb (S754_finite false m e) (S754_finite false mx e) = true.
Proof.
  intros Hm. unfold SFleb, SFcompare. rewrite Z.compare_refl.
  change (Pos.compare_cont Eq m mx) with (Pos.compare m mx).
  destruct (Pos.compare m mx) eqn:C; try reflexivity.
  apply Pos.compare_gt_iff in C. lia.
Qed.

Lemma SFleb_finite_lower_exp (m mx : positive) (e ex : Z) :
  e < ex ->
  SFleb (S754_finite false m e) (S754_finite false mx ex) = true.
Proof.
  intros He. unfold SFleb, SFcompare.
  apply Z.compare_lt_iff in He. rewrite He. reflexivity.
Qed.

(** The second rounding stage and the comparison, once the first stage
    has produced the mantissa [m1] at exponent [e1]. *)
Lemma round_stage2 (m1 e1 : Z) (mx : positive) (ex : Z) :
  -1074 <= ex <= 971 ->
  (e1 = ex /\ 0 <= m1 <= Zpos mx /\ Zpos mx < 2 ^ 53)
  \/ (e1 = ex - 1 /\ -1074 <= e1 /\ 2 ^ 52 <= m1 <= 2 ^ 53
      /\ 2 ^ 52 <= Zpos mx) ->
  SFleb
    (let '(mrs'', e'') := shr_fexp prec emax m1 e1 loc_Exact in
     match shr_m mrs'' with
     | Z0 => S754_zero false
     | Zpos m => if Z.leb e'' (emax - prec) then S754_finite false m e''
                 else S754_infinity false
     | Zneg _ => S754_nan
     end)
    (S754_finite false mx ex) = true.
Proof.
  intros Hex [[-> [Hm Hmx]] | [He1 [Hlo [Hm Hmx]]]].
  - assert (Hk : fexp prec emax (Zdigits2 m1 + ex) - ex <= 0).
    { rewrite fexp_eq. destruct m1 as [|m|m]; simpl Zdigits2; try lia.
      assert (Zpos (digits2_pos m) <= 53) by (apply digits2_le; lia).
      lia. }
    rewrite (@shr_fexp_noshift _ _ Hk). simpl shr_m.
    destruct m1 as [|m|m]; [reflexivity | | lia].
    replace (ex <=? emax - prec) with true
      by (symmetry; apply Z.leb_le; change (emax - prec) with 971; lia).
    apply SFleb_finite_same_exp. lia.
  - destruct m1 as [|m|m]; try lia.
    destruct (Z_lt_le_dec (Zpos m) (2 ^ 53)) as [Hlt | Hge].
    + assert (Hd : Zpos (digits2_pos m) = 53).
      { apply Z.le_antisymm; [apply digits2_le; lia | apply digits2_ge; lia]. }
      assert (Hk : fexp prec emax (Zdigits2 (Zpos m) + e1) - e1 <= 0).
      { rewrite fexp_eq. simpl Zdigits2. rewrite Hd. lia. }
      rewrite (@shr_fexp_noshift _ _ Hk). simpl shr_m.
      replace (e1 <=? emax - prec) with true
        by (symmetry; apply Z.leb_le; change (emax - prec) with 971; lia).
      apply SFleb_finite_lower_exp. lia.
    + assert (Em : Zpos m = 2 ^ 53) by lia.
      assert (Hd : Zpos (digits2_pos m) = 54).
      { apply Z.le_antisymm; [apply digits2_le; lia | apply digits2_ge; lia]. }
      assert (Hk : fexp prec emax (Zdigits2 (Zpos m) + e1) - e1 = Zpos 1).
      { rewrite fexp_eq. simpl Zdigits2. rewrite Hd. lia. }
      rewrite (@shr_fexp_shift _ _ _ Hk).
      assert (Hs : shr_m (iter_pos shr_1 1
                     {| shr_m := Zpos m; shr_r := false; shr_s := false |})
                   = 2 ^ 52).
      { rewrite iter_pos_shr_m by (simpl; lia). simpl shr_m. rewrite Em.
        reflexivity. }
      rewrite Hs. change (2 ^ 52) with (Zpos (2 ^ 52)%positive).
      cbv iota beta.
      replace (e1 + 1 <=? emax - prec) with true
        by (symmetry; apply Z.leb_le; change (emax - prec) with 971; lia).
      replace (e1 + 1) with ex by lia.
      apply SFleb_finite_same_exp.
      change (2 ^ 52) with (Zpos (2 ^ 52)%positive) in Hmx. lia.
Qed.

Lemma round_mul_le (mx : positive) (ex : Z) :
  bounded prec emax mx ex = true ->
  SFleb (binary_round_aux prec emax false (Zpos (mx * dominance_mantissa)) (ex + -53)
           loc_Exact)
        (S754_finite false mx ex) = true.
Proof.
  intros Hb. unfold bounded, canonical_mantissa in Hb.
  apply andb_true_iff in Hb. destruct Hb as [Hc He].
  apply Z.eqb_eq in Hc. apply Z.leb_le in He.
  rewrite fexp_eq in Hc. change (emax - prec) with 971 in He.
  destruct (digits2_bounds mx) as [Lx Ux].
  destruct (digits2_bounds (mx * dominance_mantissa)) as [Lp Up].
  destruct dominance_mantissa_bounds as [Lc Uc].
  set (d := Zpos (digits2_pos mx)) in *.
  set (dP := Zpos (digits2_pos (mx * dominance_mantissa))) in *.
  assert (Hd : 1 <= d <= 53) by (unfold d; lia).
  assert (Hex : -1074 <= ex <= 971) by lia.
  assert (HP : Zpos (mx * dominance_mantissa) = Zpos mx * Zpos dominance_mantissa) by apply Pos2Z.inj_mul.
  assert (Hx53 : Zpos mx < 2 ^ 53).
  { apply Z.lt_le_trans with (2 ^ d); [exact Ux|].
    apply Z.pow_le_mono_r; lia. }
  assert (HPlt : Zpos (mx * dominance_mantissa) < Zpos mx * 2 ^ 53).
  { rewrite HP. apply Z.mul_lt_mono_pos_l; lia. }
  assert (HdP : dP <= d + 53).
  { apply digits2_le; [lia|]. rewrite Z.pow_add_r by lia.
    apply Z.lt_trans with (Zpos mx * 2 ^ 53); [exact HPlt|].
    apply Z.mul_lt_mono_pos_r; [apply Z.pow_pos_nonneg; lia | exact Ux]. }
  assert (HdP' : d + 52 <= dP).
  { apply digits2_ge. replace (d + 52 - 1) with ((d - 1) + 52) by lia.
    rewrite Z.pow_add_r by lia. rewrite HP.
    apply Z.mul_le_mono_nonneg; try assumption;
      apply Z.pow_nonneg; lia. }
  unfold binary_round_aux.
  change (Zdigits2 (Zpos (mx * dominance_mantissa))) with dP in *.
  assert (Hk : fexp prec emax (Zdigits2 (Zpos (mx * dominance_mantissa)) + (ex + -53))
               - (ex + -53) = Zpos 53
               \/ (fexp prec emax (Zdigits2 (Zpos (mx * dominance_mantissa)) + (ex + -53))
                   - (ex + -53) = Zpos 52
                   /\ d = 53 /\ dP = 105 /\ -1073 <= ex)).
  { rewrite fexp_eq. change (Zdigits2 (Zpos (mx * dominance_mantissa))) with dP. lia. }
  destruct Hk as [Hk | [Hk [Ed [EdP Hex']]]];
    rewrite (@shr_fexp_shift _ _ _ Hk); cbv iota beta;
    match goal with
    | |- context [iter_pos shr_1 ?k ?r] =>
        assert (Hq : shr_m (iter_pos shr_1 k r)
                     = Zpos (mx * dominance_mantissa) / 2 ^ Zpos k)
          by (rewrite iter_pos_shr_m; [reflexivity | cbn [shr_m]; lia]);
        remember (iter_pos shr_1 k r) as mrs1 eqn:Em1; clear Em1
    end;
    pose proof (round_nearest_even_bounds (shr_m mrs1)
                  (loc_of_shr_record mrs1)) as Hr;
    apply round_stage2; try exact Hex.
  - left. split; [lia|]. split; [|exact Hx53].
    assert (0 <= shr_m mrs1 < Zpos mx).
    { rewrite Hq. split.
      - apply Z.div_pos; lia.
      - apply Z.div_lt_upper_bound; lia. }
    lia.
  - right. split; [lia|]. split; [lia|].
    rewrite EdP in Lp, Up. rewrite Ed in Lx.
    assert (2 ^ 52 <= shr_m mrs1 < 2 ^ 53).
    { rewrite Hq. split.
      - apply Z.div_le_lower_bound; [lia|].
        change (2 ^ Zpos 52 * 2 ^ 52) with (2 ^ (105 - 1)). exact Lp.
      - apply Z.div_lt_upper_bound; [lia|].
        change (2 ^ Zpos 52 * 2 ^ 53) with (2 ^ 105). exact Up. }
    change (53 - 1) with 52 in Lx. lia.
Qed.

(** A positive double times 0.85 is at most itself. *)
Lemma mul_dominance_le (m : float) :
  PrimFloat.ltb 0 m = true ->
  PrimFloat.leb (m * Main.dominance (F := float)) m = true.
Proof.
  intros Hpos. rewrite FloatAxioms.ltb_spec in Hpos.
  rewrite FloatAxioms.leb_spec, FloatAxioms.mul_spec, Prim2SF_dominance.
  pose proof (Prim2SF_valid m) as Hv.
  change (Prim2SF 0) with (S754_zero false) in Hpos.
  destruct (Prim2SF m) as [s | s | | s mx ex].
  - discriminate Hpos.
  - destruct s; [discriminate Hpos | reflexivity].
  - discriminate Hpos.
  - destruct s; [discriminate Hpos|].
    apply round_mul_le. exact Hv.
Qed.

(** Rounding a non-negative mantissa gives a non-negative number, and
    so does dividing a finite non-negative double by a positive one. *)
Lemma shr_record_of_loc_m (m : Z) (l : location) :
  shr_m (shr_record_of_loc m l) = m.
Proof. destruct l as [|[| |]]; reflexivity. Qed.

Lemma shr_fexp_nonneg (m e : Z) (l : location) :
  0 <= m -> 0 <= shr_m (fst (shr_fexp prec emax m e l)).
Proof.
  intros Hm. unfold shr_fexp, shr.
  destruct (fexp prec emax (Zdigits2 m + e) - e) as [|k|k]; cbn [fst];
    try (rewrite shr_record_of_loc_m; exact Hm).
  rewrite iter_pos_shr_m by (rewrite shr_record_of_loc_m; exact Hm).
  rewrite shr_record_of_loc_m. apply Z.div_pos; [exact Hm|].
  apply Z.pow_pos_nonneg; lia.
Qed.

Lemma binary_round_aux_nonneg (m e : Z) (l : location) :
  0 <= m ->
  SFleb (S754_zero false) (binary_round_aux prec emax false m e l) = true.
Proof.
  intros Hm. unfold binary_round_aux.
  pose proof (@shr_fexp_nonneg m e l Hm) as H1.
  destruct (shr_fexp prec emax m e l) as [mrs' e'] eqn:E1. cbn [fst] in H1.
  pose proof (round_nearest_even_bounds (shr_m mrs')
                (loc_of_shr_record mrs')) as Hr.
  assert (H2 : 0 <= round_nearest_even (shr_m mrs') (loc_of_shr_record mrs'))
    by lia.
  pose proof (@shr_fexp_nonneg _ e' loc_Exact H2) as H3.
  destruct (shr_fexp prec emax
              (round_nearest_even (shr_m mrs') (loc_of_shr_record mrs'))
              e' loc_Exact) as [mrs'' e''] eqn:E2.
  cbn [fst] in H3.
  destruct (shr_m mrs'') as [|p|p]; [reflexivity| |lia].
  destruct (e'' <=? emax - prec); reflexivity.
Qed.

Lemma div_nonneg (x t : float) :
  nonneg_finite x = true ->
  PrimFloat.ltb 0 t = true ->
  PrimFloat.leb 0 (x / t) = true.
Proof.
  unfold nonneg_finite. intros Hx Ht.
  rewrite FloatAxioms.ltb_spec in Ht.
  rewrite FloatAxioms.leb_spec, FloatAxioms.div_spec.
  change (Prim2SF 0) with (S754_zero false) in *.
  destruct (Prim2SF t) as [st | st | | st mt et]; try discriminate Ht;
    destruct st; try discriminate Ht;
    destruct (Prim2SF x) as [sx | sx | | sx mx ex]; try discriminate Hx;
    try (destruct sx; try discriminate Hx; reflexivity).
  destruct sx; [discriminate Hx|].
  unfold SF64div, SFdiv.
  destruct (SFdiv_core_binary prec emax (Zpos mx) ex (Zpos mt) et)
    as [[mz ez] lz] eqn:E.
  apply binary_round_aux_nonneg.
  unfold SFdiv_core_binary in E.
  match type of E with
  | (let '(q, r) := Z.div_eucl ?a ?b in _) = _ =>
      assert (Ha : 0 <= a);
      [| pose proof (Z_div_mod a b ltac:(lia)) as D;
         destruct (Z.div_eucl a b) as [q r] eqn:Q ]
  end.
  - match goal with
    | |- 0 <= match ?s with _ => _ end => destruct s; try lia
    end.
    apply Z.shiftl_nonneg. lia.
  - injection E as <- _ _. destruct D as [D1 D2]. nia.
Qed.

Lemma nonneg_finite_leb (x : float) :
  nonneg_finite x = true -> PrimFloat.leb 0 x = true.
Proof.
  unfold nonneg_finite. rewrite FloatAxioms.leb_spec.
  change (Prim2SF 0) with (S754_zero false).
  destruct (Prim2SF x) as [s | s | | s m e]; try discriminate;
    destruct s; try discriminate; reflexivity.
Qed.

Local Close Scope Z_scope.
Set Implicit Arguments.

(** ** The scorer on binary64 *)

(** A positive double is not equal to 0, so the division of the
    normalisation loop never raises. *)
Lemma pos_nonzero_binary64 (x : float) :
  PrimFloat.ltb 0 x = true -> PrimFloat.eqb x 0 = false.
Proof.
  intros Hpos. rewrite FloatAxioms.ltb_spec in Hpos.
  rewrite FloatAxioms.eqb_spec.
  change (Prim2SF 0) with (S754_zero false) in *.
  destruct (Prim2SF x) as [s | s | | s m e]; try discriminate Hpos;
    destruct s; try discriminate Hpos; reflexivity.
Qed.

Lemma finish_binary64_returns (raw : ScoreVector float)
  (d : DetectedPhrases) :
  exists scores, finish raw d = Ok (scores, d).
Proof.
  unfold finish.
  destruct (sum (values raw) >? zero)%py eqn:Hpos;
    [|eexists; reflexivity].
  change (PrimFloat.ltb 0 (sum (values raw)) = true) in Hpos.
  change (sum (values raw) ==? zero)%py
    with (PrimFloat.eqb (sum (values raw)) 0).
  rewrite (pos_nonzero_binary64 Hpos). eexists. reflexivity.
Qed.


Lemma credit_credit_n {F : Type} `{Float F} (x : F) (ms : list str)
  (w : F) :
  credit x ms w = credit_n x (length ms) w.
Proof. destruct ms; reflexivity. Qed.

Lemma single_checks_256 (n : nat) :
  n <= 256 ->
  single_agrees Main.extreme_weight n = true
  /\ single_agrees Main.neutral_weight n = true
  /\ single_finite Main.extreme_weight n = true
  /\ single_finite Main.neutral_weight n = true.
Proof.
  intros Hn.
  assert (A : forallb (fun n => single_agrees Main.extreme_weight n
                                && single_agrees Main.neutral_weight n
                                && single_finite Main.extreme_weight n
                                && single_finite Main.neutral_weight n)
                (seq 0 257) = true) by (vm_compute; reflexivity).
  rewrite forallb_forall in A.
  assert (B := A n ltac:(apply in_seq; lia)).
  rewrite !andb_true_iff in B. tauto.
Qed.

Lemma pair_checks_256 (a b : nat) :
  a <= 256 -> b <= 256 ->
  pair_agrees Main.wing_weight a b = true
  /\ pair_finite Main.wing_weight a b = true.
Proof.
  intros Ha Hb.
  assert (A : forallb (fun a =>
                forallb (fun b => pair_agrees Main.wing_weight a b
                                  && pair_finite Main.wing_weight a b)
                  (seq 0 257)) (seq 0 257) = true)
    by (vm_compute; reflexivity).
  rewrite forallb_forall in A.
  assert (B := A a ltac:(apply in_seq; lia)).
  rewrite forallb_forall in B.
  assert (C := B b ltac:(apply in_seq; lia)).
  rewrite andb_true_iff in C. exact C.
Qed.

(** With keyword lists of at most 256 phrases, no call of the matcher
    returns more than 256 matches. *)
Lemma matches_bounded {F : Type} `{Float F} (kw : Keywords) (text : str)
  (er el lwe lws rwe rws nt : list str) :
  small_lists kw = true ->
  matcher_returns kw text [er; el; lwe; lws; rwe; rws; nt] ->
  length er <= 256 /\ length el <= 256 /\ length lwe <= 256
  /\ length lws <= 256 /\ length rwe <= 256 /\ length rws <= 256
  /\ length nt <= 256.
Proof.
  unfold small_lists, matcher_returns. simpl.
  rewrite !andb_true_iff, !Nat.leb_le.
  intros [B1 [B2 [B3 [B4 [B5 [B6 [B7 _]]]]]]] E.
  injection E as E1 E2 E3 E4 E5 E6 E7.
  apply find_phrase_matches_length in E1, E2, E3, E4, E5, E6, E7.
  repeat split; lia.
Qed.

(** On binary64 the raw scores are the weights times the counts, and
    are finite and not negative, for up to 256 matches per keyword
    list. *)
Lemma raw_of_binary64 (er el lwe lws rwe rws nt : list str) :
  length er <= 256 /\ length el <= 256 /\ length lwe <= 256
  /\ length lws <= 256 /\ length rwe <= 256 /\ length rws <= 256
  /\ length nt <= 256 ->
  RawScoresWeighted (raw_of (F := float) er el lwe lws rwe rws nt)
    er el lwe lws rwe rws nt
  /\ forall c,
       nonneg_finite (get (raw_of (F := float) er el lwe lws rwe rws nt) c)
       = true.
Proof.
  intros [H1 [H2 [H3 [H4 [H5 [H6 H7]]]]]].
  destruct (single_checks_256 H1) as [A1 [_ [F1 _]]].
  destruct (single_checks_256 H2) as [A2 [_ [F2 _]]].
  destruct (pair_checks_256 H3 H4) as [A3 F3].
  destruct (pair_checks_256 H5 H6) as [A5 F5].
  destruct (single_checks_256 H7) as [_ [A7 [_ F7]]].
  unfold RawScoresWeighted, single_agrees, pair_agrees, single_finite,
    pair_finite in *.
  split.
  - cbn [raw_of get s_extreme_right s_extreme_left s_left_wing s_right_wing
         s_neutral].
    rewrite !credit_credit_n. repeat split; assumption.
  - intros c.
    destruct c;
      cbn [raw_of get s_extreme_right s_extreme_left s_left_wing
           s_right_wing s_neutral];
      rewrite !credit_credit_n; assumption.
Qed.

(** On binary64 the returned scores are not negative when the raw ones
    are finite and not negative. *)
Lemma finish_binary64_nonneg (raw scores : ScoreVector float)
  (d : DetectedPhrases) :
  (forall c, nonneg_finite (get raw c) = true) ->
  finish raw d = Ok (scores, d) ->
  forall c, (get scores c >=? zero)%py = true.
Proof.
  intros Hraw Hf c. unfold finish in Hf.
  destruct (sum (values raw) >? zero)%py eqn:Hpos.
  - destruct (sum (values raw) ==? zero)%py; [discriminate Hf|].
    injection Hf as <-.
    replace (get (normalized raw (sum (values raw))) c)
      with (PrimFloat.div (get raw c) (sum (values raw)))
      by (destruct c; reflexivity).
    apply div_nonneg; [apply Hraw | exact Hpos].
  - injection Hf as <-. apply nonneg_finite_leb. apply Hraw.
Qed.





(** ** The resolver *)

Section ResolverFacts.
Context {F : Type} `{Float F}.

Lemma max_score_of_top (scores : ScoreVector F) :
  Main.max_score_of scores = Ok (top scores).
Proof. reflexivity. Qed.

Lemma In_dominant (scores : ScoreVector F) (c : category) :
  In c (dominant scores) <-> reaches scores c = true.
Proof.
  unfold dominant, Main.dominant_categories_of, reaches.
  rewrite in_map_iff. split.
  - intros [[c' v] [<- Hin]]. apply filter_In in Hin.
    destruct Hin as [Hin Hv]. unfold items in Hin.
    apply in_map_iff in Hin. destruct Hin as [c0 [E _]].
    injection E as -> <-. exact Hv.
  - intros Hr. exists (c, get scores c). split; [reflexivity|].
    apply filter_In. split; [|exact Hr].
    unfold items. apply in_map_iff. exists c. split; [reflexivity|].
    destruct c; simpl; auto 6.
Qed.

Lemma cat_in_In (c : category) (cs : list category) :
  cat_in c cs = true <-> In c cs.
Proof.
  unfold cat_in. rewrite existsb_exists. split.
  - intros [x [Hin E]]. apply category_eqb_eq in E. subst. exact Hin.
  - intros Hin. exists c. split; [exact Hin | apply category_eqb_eq; reflexivity].
Qed.

Lemma cat_in_dominant (scores : ScoreVector F) (c : category) :
  cat_in c (dominant scores) = reaches scores c.
Proof.
  destruct (reaches scores c) eqn:E.
  - apply cat_in_In, In_dominant. exact E.
  - destruct (cat_in c (dominant scores)) eqn:E'; [|reflexivity].
    apply cat_in_In, In_dominant in E'. congruence.
Qed.

(** The dominant list, entry by entry, in dictionary order. *)
Lemma dominant_unfold (scores : ScoreVector F) :
  dominant scores
  = (if reaches scores left_wing then [left_wing] else [])
    ++ (if reaches scores right_wing then [right_wing] else [])
    ++ (if reaches scores extreme_left then [extreme_left] else [])
    ++ (if reaches scores extreme_right then [extreme_right] else [])
    ++ (if reaches scores neutral then [neutral] else []).
Proof.
  unfold dominant, Main.dominant_categories_of, reaches, items, keys.
  simpl.
  destruct (s_left_wing scores >=? top scores * Main.dominance)%py,
           (s_right_wing scores >=? top scores * Main.dominance)%py,
           (s_extreme_left scores >=? top scores * Main.dominance)%py,
           (s_extreme_right scores >=? top scores * Main.dominance)%py,
           (s_neutral scores >=? top scores * Main.dominance)%py;
    reflexivity.
Qed.

(** The resolver, by the tests it makes. *)
Lemma determine_overall_bias_cases (scores : ScoreVector F) :
  Main.determine_overall_bias scores =
  if (top scores ==? zero)%py then Ok ("neutral"%string, zero)
  else if reaches scores extreme_left then
    if reaches scores extreme_right then
      if (get scores extreme_right >? get scores extreme_left)%py
      then Ok (name extreme_right, get scores extreme_right)
      else Ok (name extreme_left, get scores extreme_left)
    else Ok (name extreme_left, get scores extreme_left)
  else if reaches scores extreme_right
    then Ok (name extreme_right, get scores extreme_right)
  else if (1 <? length (dominant scores))%nat
    then Ok ("mixed"%string, top scores)
  else match dominant scores with
       | [] => Raise IndexError
       | c :: _ => Ok (name c, top scores)
       end.
Proof.
  unfold Main.determine_overall_bias. rewrite max_score_of_top. simpl bind.
  destruct (top scores ==? zero)%py; [reflexivity|].
  cbv zeta.
  change (Main.dominant_categories_of scores (top scores * Main.dominance)%py)
    with (dominant scores).
  assert (X : existsb (fun c => cat_in c Main.extreme_categories)
                (dominant scores)
              = reaches scores extreme_left || reaches scores extreme_right).
  { rewrite dominant_unfold.
    destruct (reaches scores left_wing), (reaches scores right_wing),
      (reaches scores extreme_left), (reaches scores extreme_right),
      (reaches scores neutral); reflexivity. }
  change (existsb
            (fun c => category_eqb c extreme_left
                      || (category_eqb c extreme_right || false))
            (dominant scores))
    with (existsb (fun c => cat_in c Main.extreme_categories)
            (dominant scores)).
  rewrite X, !cat_in_dominant.
  destruct (reaches scores extreme_left), (reaches scores extreme_right);
    try reflexivity.
  cbn [map fst snd max_by fold_left orb].
  destruct (get scores extreme_right >? get scores extreme_left)%py;
    reflexivity.
Qed.

End ResolverFacts.

(** C5 (as amended). When the maximum score is not 0 and an extreme
    category is dominant, [determine_overall_bias] returns a dominant
    extreme category with that category's own score: [extreme_right] when
    it is the only dominant extreme or when both are dominant and its
    score is strictly the higher, [extreme_left] otherwise. *)
Theorem extreme_precedence
  {F : Type} `{Float F} (scores : ScoreVector F) :
  (top scores ==? zero)%py = false ->
  reaches scores extreme_left = true
  \/ reaches scores extreme_right = true ->
  Main.determine_overall_bias scores
  = Ok (if reaches scores extreme_left && reaches scores extreme_right
        then if (get scores extreme_right >? get scores extreme_left)%py
             then (name extreme_right, get scores extreme_right)
             else (name extreme_left, get scores extreme_left)
        else if reaches scores extreme_left
             then (name extreme_left, get scores extreme_left)
             else (name extreme_right, get scores extreme_right)).
Proof.
  intros Hz Hx. rewrite determine_overall_bias_cases, Hz.
  destruct (reaches scores extreme_left), (reaches scores extreme_right);
    cbn [andb].
  - destruct (get scores extreme_right >? get scores extreme_left)%py;
      reflexivity.
  - reflexivity.
  - reflexivity.
  - destruct Hx; discriminate.
Qed.

(** C5 (as stated) fails on the all-zero vector: both extremes reach
    0.85 times the maximum, and the verdict is "neutral". *)
Lemma extreme_precedence_fails_at_zero :
  reaches (F := float) no_scores extreme_left = true
  /\ reaches (F := float) no_scores extreme_right = true
  /\ Main.determine_overall_bias (F := float) no_scores
     = Ok ("neutral"%string, 0%float)
  /\ reaches (F := Q) no_scores extreme_left = true
  /\ Main.determine_overall_bias (F := Q) no_scores
     = Ok ("neutral"%string, 0%Q).
Proof. repeat split; vm_compute; reflexivity. Qed.


(** The maximum is the score of some category. *)
Lemma top_is_a_score {F : Type} `{Float F} (scores : ScoreVector F) :
  exists c, top scores = get scores c.
Proof.
  unfold top, max_by. simpl.
  repeat match goal with
         | |- context [if ?b then _ else _] => destruct b
         end;
    first [ exists left_wing; reflexivity
          | exists right_wing; reflexivity
          | exists extreme_left; reflexivity
          | exists extreme_right; reflexivity
          | exists neutral; reflexivity ].
Qed.

(** With a dominant category at hand the resolver returns. *)
Lemma determine_overall_bias_returns
  {F : Type} `{Float F} (scores : ScoreVector F) :
  dominant scores <> [] ->
  exists verdict, Main.determine_overall_bias scores = Ok verdict.
Proof.
  intros Hd. rewrite determine_overall_bias_cases.
  repeat match goal with
         | |- context [if ?b then _ else _] => destruct b
         end; try (eexists; reflexivity).
  destruct (dominant scores); [contradiction | eexists; reflexivity].
Qed.

(** The category that scores the maximum is dominant as soon as 0.85
    times the maximum does not exceed the maximum. *)
Lemma dominant_nonempty_when
  {F : Type} `{Float F} (scores : ScoreVector F) :
  (top scores >=? top scores * Main.dominance)%py = true ->
  dominant scores <> []
  /\ exists verdict, Main.determine_overall_bias scores = Ok verdict.
Proof.
  intros Hle.
  assert (Hd : dominant scores <> []).
  { destruct (top_is_a_score scores) as [c Hc].
    assert (Hin : In c (dominant scores)).
    { apply In_dominant. unfold reaches. rewrite <- Hc. exact Hle. }
    intros E. rewrite E in Hin. exact Hin. }
  split; [exact Hd | apply determine_overall_bias_returns; exact Hd].
Qed.

(** C9. For a binary64 score vector with non-negative entries whose
    maximum is positive, the category that scores the maximum is
    dominant, so the dominant list is not empty and
    [determine_overall_bias] returns. *)
Theorem dominant_nonempty (scores : ScoreVector float) :
  (forall c, (get scores c >=? zero)%py = true) ->
  (top scores >? zero)%py = true ->
  dominant scores <> []
  /\ exists verdict, Main.determine_overall_bias scores = Ok verdict.
Proof.
  intros _ Hpos. apply dominant_nonempty_when.
  apply mul_dominance_le. exact Hpos.
Qed.

(** The same in exact arithmetic. *)
Lemma dominant_nonempty_exact (scores : ScoreVector Q) :
  (0 < top scores)%Q ->
  dominant scores <> []
  /\ exists verdict, Main.determine_overall_bias scores = Ok verdict.
Proof.
  intros Hpos. apply dominant_nonempty_when. apply fleb_exact.
  simpl fmul.
  setoid_replace (top scores) with (top scores * 1)%Q at 2 by ring.
  apply Qmult_le_l; [exact Hpos | discriminate].
Qed.

(** ** The [/analyze] handler *)

Lemma dropwhile_all (p : ascii -> bool) (x : str) :
  forallb p x = true -> dropwhile p x = [].
Proof.
  induction x as [|c x IH]; simpl; [reflexivity|].
  intros Hall. apply andb_true_iff in Hall. destruct Hall as [Hc Hx].
  rewrite Hc. apply IH. exact Hx.
Qed.

Lemma strip_whitespace (text : str) :
  forallb isspace text = true -> strip text = [].
Proof.
  intros Hall. unfold strip. rewrite (dropwhile_all _ _ Hall). reflexivity.
Qed.

Lemma strip_nil_whitespace (text : str) :
  strip text = [] -> forallb isspace text = true.
Proof.
  unfold strip. intros E.
  assert (D : dropwhile isspace text = []).
  { apply (f_equal (@rev ascii)) in E. rewrite rev_involutive in E.
    simpl in E.
    destruct (dropwhile isspace text) as [|c r] eqn:D; [reflexivity|].
    exfalso.
    assert (Hc : isspace c = false).
    { clear E. induction text as [|a text IH]; simpl in D; [discriminate|].
      destruct (isspace a) eqn:Ha; [apply IH; exact D|].
      injection D as <- _. exact Ha. }
    simpl in E.
    assert (G : forall (x : str), isspace c = false ->
                dropwhile isspace (x ++ [c]) <> []).
    { intros x Hc'. induction x as [|a x IH]; simpl.
      - rewrite Hc'. discriminate.
      - destruct (isspace a); [exact IH | discriminate]. }
    exact (G (rev r) Hc E). }
  clear E. induction text as [|a text IH]; simpl in *; [reflexivity|].
  destruct (isspace a); [apply IH; exact D | discriminate].
Qed.

(** C7. A text that is empty or made of whitespace only is answered
    with HTTP 400 and the message "Text cannot be empty"; the handler has
    then logged the request and the warning and nothing else, so the
    scorer, which logs the raw scores whenever it runs to that point, and
    the error branch were not entered. *)
Theorem empty_text_rejected
  {F : Type} `{Float F} (kw : Keywords) (text : str) :
  forallb isspace text = true ->
  Main.analyze_text kw text
  = ([(Main.INFO, Main.Received (firstn 100 text));
      (Main.WARNING, Main.EmptyText)],
     Main.HTTPException 400 "Text cannot be empty").
Proof.
  intros Hall. unfold Main.analyze_text.
  rewrite (strip_whitespace _ Hall). reflexivity.
Qed.

(** Any other text enters the [try] block: the answer is the response
    or HTTP 500, never HTTP 400. *)
Lemma other_text_analysed
  {F : Type} `{Float F} (kw : Keywords) (text : str) :
  forallb isspace text = false ->
  forall l detail, Main.analyze_text kw text
                   <> (l, Main.HTTPException 400 detail).
Proof.
  intros Hall l detail. unfold Main.analyze_text.
  destruct (strip text) as [|c r] eqn:E.
  - apply strip_nil_whitespace in E. congruence.
  - destruct (Main.analyze_body kw text) as [l' [body|e]]; discriminate.
Qed.

(** A text that is analysed leaves a trace: the raw scores are logged,
    or the error is. *)
Lemma analysis_leaves_trace
  {F : Type} `{Float F} (kw : Keywords) (text : str) :
  forallb isspace text = false ->
  (exists raw, In (Main.INFO, Main.RawScores raw)
                  (fst (Main.analyze_text kw text)))
  \/ (exists e, In (Main.ERROR, Main.Failed e)
                   (fst (Main.analyze_text kw text))).
Proof.
  intros Hall. unfold Main.analyze_text.
  destruct (strip text) as [|c r] eqn:E.
  - apply strip_nil_whitespace in E. congruence.
  - destruct (Main.analyze_body kw text) as [l [body | e]] eqn:B.
    + left. unfold Main.analyze_body in B.
      destruct (Main.calculate_bias_scores kw text)
        as [l0 [[scores d] | e]] eqn:C; [|discriminate B].
      destruct (calculate_bias_scores_inv _ _ C) as [_ [raw [_ [_ Hin]]]].
      exists raw. cbn [fst]. apply in_or_app. right.
      rewrite mbind_ok in B. injection B as <- _.
      apply in_or_app. left. exact Hin.
    + right. exists e. cbn [fst]. apply in_or_app. right.
      apply in_or_app. right. left. reflexivity.
Qed.

(** ** Worked inputs *)

(** The examples of the specification's testable properties. *)
Example exact_substring_match :
  Main.find_phrase_matches (F := float) "the radical leftist movement grew"
    (strs ["radical leftist"]) = Ok (strs ["radical leftist"]).
Proof. vm_compute. reflexivity. Qed.

Example fuzzy_fallback_match :
  Main.find_phrase_matches (F := float) "social justice"
    (strs ["social justice warrior"]) = Ok (strs ["social justice warrior"])
  /\ Main.find_phrase_matches (F := float) "social"
       (strs ["social justice warrior"]) = Ok [].
Proof. split; vm_compute; reflexivity. Qed.

Example resolve_all_zero :
  Main.determine_overall_bias (F := float) no_scores
  = Ok ("neutral"%string, 0%float).
Proof. vm_compute. reflexivity. Qed.




Lemma detected_phrases_keys_witness :
  exists l scores d,
    Main.calculate_bias_scores (F := float) example_keywords example_text
    = (l, Ok (scores, d))
    /\ forall c,
         (lookup d c <> None <->
          exists phrases m ms,
            In phrases (lists_of example_keywords c)
            /\ Main.find_phrase_matches (F := float) example_text phrases
               = Ok (m :: ms))
         /\ (forall found, lookup d c = Some found -> found <> []).
Proof.
  destruct (Main.calculate_bias_scores (F := float) example_keywords
              example_text) as [l [[scores d] | e]] eqn:E.
  - exists l, scores, d. split; [reflexivity|].
    exact (detected_phrases_keys _ _ E).
  - exfalso. vm_compute in E. discriminate E.
Defined.

Lemma extreme_precedence_witness :
  Main.determine_overall_bias near_tie
  = Ok (if reaches near_tie extreme_left && reaches near_tie extreme_right
        then if (get near_tie extreme_right >? get near_tie extreme_left)%py
             then (name extreme_right, get near_tie extreme_right)
             else (name extreme_left, get near_tie extreme_left)
        else if reaches near_tie extreme_left
             then (name extreme_left, get near_tie extreme_left)
             else (name extreme_right, get near_tie extreme_right))
  /\ Main.determine_overall_bias near_tie
     = Ok ("extreme_left"%string, (9 # 20)%Q).
Proof.
  split.
  - apply (@extreme_precedence Q exact near_tie).
    + vm_compute. reflexivity.
    + left. vm_compute. reflexivity.
  - vm_compute. reflexivity.
Defined.


Lemma dominant_nonempty_witness :
  dominant level_floats <> []
  /\ exists verdict, Main.determine_overall_bias level_floats = Ok verdict.
Proof.
  apply (dominant_nonempty level_floats).
  - intros c. destruct c; vm_compute; reflexivity.
  - vm_compute. reflexivity.
Defined.

Lemma empty_text_rejected_witness :
  Main.analyze_text (F := float) example_keywords "   "
  = ([(Main.INFO, Main.Received (firstn 100 ("   " : str)));
      (Main.WARNING, Main.EmptyText)],
     Main.HTTPException 400 "Text cannot be empty").
Proof.
  apply (@empty_text_rejected float binary64 example_keywords "   ").
  vm_compute. reflexivity.
Defined.

(** ** The two policies *)

(** C8. The two pipelines disagree.  On a text in which both matchers
    find one left-wing and one right-wing phrase and nothing else,
    [main.py] answers "mixed" and [server.py] answers "left_wing"; on
    [example_text] both answer "right_wing", with different
    confidences. *)
Theorem pipelines_differ :
  (exists kw text,
     main_pipeline (F := float) kw text
     <> server_pipeline (F := float) kw text)
  /\ main_pipeline (F := float) example_keywords "wealth tax, tax cuts"
     = Ok ("mixed"%string, 0.5%float)
  /\ server_pipeline (F := float) example_keywords "wealth tax, tax cuts"
     = Ok ("left_wing"%string, 0.5%float)
  /\ exists c1 c2,
       main_pipeline (F := float) example_keywords example_text
       = Ok ("right_wing"%string, c1)
       /\ server_pipeline (F := float) example_keywords example_text
          = Ok ("right_wing"%string, c2)
       /\ (c1 ==? c2)%py = false.
Proof.
  assert (M : main_pipeline (F := float) example_keywords
                "wealth tax, tax cuts"
              = Ok ("mixed"%string, 0.5%float))
    by (vm_compute; reflexivity).
  assert (S : server_pipeline (F := float) example_keywords
                "wealth tax, tax cuts"
              = Ok ("left_wing"%string, 0.5%float))
    by (vm_compute; reflexivity).
  split; [|split; [exact M | split; [exact S|]]].
  - exists example_keywords, ("wealth tax, tax cuts" : str).
    rewrite M, S. discriminate.
  - eexists. eexists.
    split; [vm_compute; reflexivity|].
    split; vm_compute; reflexivity.
Qed.

(** ** More on strings *)

Lemma lower_char_idempotent (c : ascii) :
  lower_char (lower_char c) = lower_char c.
Proof.
  destruct c as [[] [] [] [] [] [] [] []]; vm_compute; reflexivity.
Qed.

Lemma lower_idempotent (s : str) : lower (lower s) = lower s.
Proof.
  unfold lower. rewrite map_map. apply map_ext. apply lower_char_idempotent.
Qed.

Lemma isspace_lower_char (c : ascii) : isspace (lower_char c) = isspace c.
Proof.
  destruct c as [[] [] [] [] [] [] [] []]; vm_compute; reflexivity.
Qed.

Lemma forallb_isspace_lower (s : str) :
  forallb isspace (lower s) = forallb isspace s.
Proof.
  unfold lower. induction s as [|c s IH]; simpl; [reflexivity|].
  rewrite isspace_lower_char, IH. reflexivity.
Qed.

(** A word under construction is never lost. *)
Lemma split_from_word (word s : str) :
  word <> [] -> split_from word s <> [].
Proof.
  revert word. induction s as [|c s IH]; intros word Hw; simpl.
  - destruct word; [contradiction | discriminate].
  - destruct (isspace c).
    + destruct word; [contradiction | discriminate].
    + apply IH. discriminate.
Qed.

(** [s.split()] is empty exactly when [s] is made of whitespace. *)
Lemma split_nil_iff (s : str) :
  split s = [] <-> forallb isspace s = true.
Proof.
  unfold split. induction s as [|c s IH]; simpl.
  - tauto.
  - destruct (isspace c) eqn:Hc; simpl.
    + exact IH.
    + split; [|discriminate].
      intros E. exfalso. revert E. apply split_from_word. discriminate.
Qed.

(** The words of [s.split()] are tokens: not empty, and without
    whitespace. *)
Lemma split_from_tokens (s word : str) :
  forallb (fun c => negb (isspace c)) word = true ->
  forall w, In w (split_from word s) ->
    w <> [] /\ forallb (fun c => negb (isspace c)) w = true.
Proof.
  assert (R : forall x : str,
             forallb (fun c => negb (isspace c)) x = true ->
             forallb (fun c => negb (isspace c)) (rev x) = true).
  { intros x Hx. rewrite forallb_forall in *.
    intros c Hc. apply Hx. apply in_rev. exact Hc. }
  revert word. induction s as [|c s IH]; intros word Hw w Hin; simpl in Hin.
  - destruct word as [|a word]; [contradiction|].
    destruct Hin as [<- | []]. split; [|apply R; exact Hw].
    intros E. apply (f_equal (@length ascii)) in E.
    rewrite length_rev in E. discriminate.
  - destruct (isspace c) eqn:Hc.
    + destruct word as [|a word].
      * apply (IH [] eq_refl). exact Hin.
      * destruct Hin as [<- | Hin].
        -- split; [|apply R; exact Hw].
           intros E. apply (f_equal (@length ascii)) in E.
           rewrite length_rev in E. discriminate.
        -- apply (IH [] eq_refl). exact Hin.
    + apply (IH (c :: word)); [|exact Hin].
      simpl. rewrite Hc, Hw. reflexivity.
Qed.

Lemma split_tokens (s w : str) :
  In w (split s) ->
  w <> [] /\ forallb (fun c => negb (isspace c)) w = true.
Proof. apply split_from_tokens. reflexivity. Qed.

Lemma split_from_app_token (w word rest : str) :
  forallb (fun c => negb (isspace c)) w = true ->
  split_from word (w ++ rest) = split_from (rev w ++ word) rest.
Proof.
  revert word. induction w as [|c w IH]; intros word Hw; simpl.
  - reflexivity.
  - simpl in Hw. apply andb_true_iff in Hw. destruct Hw as [Hc Hw].
    apply negb_true_iff in Hc. rewrite Hc, IH by exact Hw.
    rewrite <- app_assoc. reflexivity.
Qed.

(** Splitting what was joined with single spaces gives the tokens
    back. *)
Lemma split_join (ws : list str) :
  (forall w, In w ws ->
     w <> [] /\ forallb (fun c => negb (isspace c)) w = true) ->
  split (join " " ws) = ws.
Proof.
  unfold split. induction ws as [|x ws IH]; intros Hws; [reflexivity|].
  destruct (Hws x (or_introl eq_refl)) as [Hne Hx].
  assert (Hr : rev x <> []).
  { intros E. apply (f_equal (@length ascii)) in E.
    rewrite length_rev in E. destruct x; [contradiction | discriminate]. }
  destruct ws as [|y ws].
  - simpl join. rewrite <- (app_nil_r x) at 1.
    rewrite split_from_app_token by exact Hx. simpl.
    rewrite app_nil_r. destruct (rev x) eqn:E; [contradiction|].
    rewrite <- E, rev_involutive. reflexivity.
  - change (join " " (x :: y :: ws))
      with (x ++ (" " : str) ++ join " " (y :: ws)).
    rewrite split_from_app_token by exact Hx.
    rewrite app_nil_r. cbn [str_of_string list_ascii_of_string app].
    cbn [split_from]. change (isspace " ") with true. cbv iota.
    destruct (rev x) eqn:E; [contradiction|].
    rewrite <- E, rev_involutive. f_equal.
    apply IH. intros w Hw. apply Hws. right. exact Hw.
Qed.

(** ** [get_ngrams] *)

Lemma list_slice_window {A : Type} (xs : list A) (i n : nat) :
  i + n <= length xs ->
  list_slice xs (Z.of_nat i) (Z.of_nat i + Z.of_nat n)
  = firstn n (skipn i xs).
Proof.
  intros Hb. unfold list_slice, slice_index.
  destruct (Z.ltb_spec (Z.of_nat i) 0); [lia|].
  destruct (Z.ltb_spec (Z.of_nat i + Z.of_nat n) 0); [lia|].
  rewrite !Z.min_l by lia.
  replace (Z.to_nat (Z.of_nat i + Z.of_nat n - Z.of_nat i)) with n by lia.
  rewrite Nat2Z.id. reflexivity.
Qed.

Lemma window_split {A : Type} (xs : list A) (i n : nat) :
  i + n <= length xs ->
  xs = firstn i xs ++ firstn n (skipn i xs) ++ skipn n (skipn i xs)
  /\ length (firstn n (skipn i xs)) = n.
Proof.
  intros Hb. split.
  - rewrite (firstn_skipn n (skipn i xs)), firstn_skipn. reflexivity.
  - rewrite length_firstn, length_skipn. lia.
Qed.

Lemma In_get_ngrams (text : str) (n : nat) (g : str) :
  1 <= n ->
  (In g (get_ngrams text (Z.of_nat n)) <->
   exists a ws b,
     split text = a ++ ws ++ b /\ length ws = n /\ g = join " " ws).
Proof.
  intros Hn. unfold get_ngrams, range_int.
  rewrite In_set_of, in_map_iff. split.
  - intros [i [<- Hi]]. apply in_map_iff in Hi.
    destruct Hi as [k [<- Hk]]. apply in_seq in Hk.
    assert (Hb : k + n <= length (split text)) by lia.
    rewrite (list_slice_window _ _ _ Hb).
    destruct (window_split (split text) k n Hb) as [E L].
    exists (firstn k (split text)), (firstn n (skipn k (split text))),
      (skipn n (skipn k (split text))).
    split; [exact E|]. split; [exact L | reflexivity].
  - intros [a [ws [b [E [L ->]]]]].
    exists (Z.of_nat (length a)). split.
    + assert (Hb : length a + n <= length (split text))
        by (rewrite E, !length_app; lia).
      rewrite (list_slice_window _ _ _ Hb). f_equal.
      rewrite E, skipn_app, skipn_all, Nat.sub_diag. simpl.
      rewrite firstn_app, <- L, firstn_all, Nat.sub_diag. simpl.
      apply app_nil_r.
    + apply in_map. apply in_seq.
      rewrite E, !length_app. lia.
Qed.

Lemma set_of_constant (x : str) (l : list str) :
  l <> [] -> (forall y, In y l -> y = x) -> set_of l = [x].
Proof.
  intros Hne Hall. destruct l as [|y l]; [contradiction|].
  assert (y = x) by (apply Hall; left; reflexivity). subst y.
  simpl. f_equal.
  assert (G : forall l', (forall y, In y l' -> y = x) ->
              filter (fun y => negb (str_eqb x y)) l' = []).
  { intros l' H'. induction l' as [|z l' IH]; [reflexivity|].
    simpl. rewrite (H' z (or_introl eq_refl)), str_eqb_refl. simpl.
    apply IH. intros y Hy. apply H'. right. exact Hy. }
  apply G. intros y Hy. apply -> In_set_of in Hy. apply Hall. right. exact Hy.
Qed.

(** X1. [get_ngrams] at the edges: asked for more words than the text
    has, it returns the empty set (so it does for an empty text and any
    [n >= 1]); asked for as many words as the text has, it returns the
    one string made of the words joined by single spaces; and for
    [n = 0] it returns the set holding the empty string only, whatever
    the text. *)
Theorem get_ngrams_edges (text : str) (n : Z) :
  ((Z.of_nat (length (split text)) < n)%Z -> get_ngrams text n = [])
  /\ ((1 <= n)%Z -> Z.of_nat (length (split text)) = n ->
      get_ngrams text n = [join " " (split text)])
  /\ get_ngrams text 0 = [[]].
Proof.
  split; [|split].
  - intros Hlt. unfold get_ngrams, range_int.
    replace (Z.to_nat (Z.of_nat (length (split text)) - n + 1)) with 0 by lia.
    reflexivity.
  - intros Hn E. unfold get_ngrams, range_int.
    replace (Z.to_nat (Z.of_nat (length (split text)) - n + 1)) with 1 by lia.
    subst n. cbn [seq map set_of filter]. f_equal. f_equal.
    rewrite (list_slice_window (split text) 0 (length (split text)))
      by (simpl; lia).
    cbn [skipn]. apply firstn_all.
  - unfold get_ngrams, range_int. apply set_of_constant.
    + replace (Z.to_nat (Z.of_nat (length (split text)) - 0 + 1))
        with (S (length (split text))) by lia.
      simpl. discriminate.
    + intros y Hy. apply in_map_iff in Hy. destruct Hy as [i [<- Hi]].
      apply in_map_iff in Hi. destruct Hi as [k [<- Hk]].
      apply in_seq in Hk. rewrite Z.add_0_r.
      unfold list_slice. rewrite Z.sub_diag. reflexivity.
Qed.

Lemma get_ngrams_edges_witness :
  get_ngrams "a b" 3 = []
  /\ get_ngrams "  tax   cuts " 2 = [("tax cuts" : str)].
Proof.
  split.
  - apply (proj1 (get_ngrams_edges "a b" 3)). vm_compute. reflexivity.
  - apply (proj1 (proj2 (get_ngrams_edges "  tax   cuts " 2)));
      vm_compute; [discriminate | reflexivity].
Defined.

(** X2. For [n >= 1] the n-grams of a text are exactly the runs of [n]
    consecutive words of [text.split()], each joined by single spaces;
    splitting an n-gram gives its [n] words back, and there are at most
    [len(words) - n + 1] of them. *)
Theorem get_ngrams_windows (text : str) (n : Z) :
  (1 <= n)%Z ->
  (forall g,
     In g (get_ngrams text n) <->
     exists a ws b,
       split text = a ++ ws ++ b /\ Z.of_nat (length ws) = n
       /\ g = join " " ws)
  /\ (forall g,
        In g (get_ngrams text n) ->
        Z.of_nat (length (split g)) = n
        /\ join " " (split g) = g
        /\ exists a b, split text = a ++ split g ++ b)
  /\ (Z.of_nat (length (get_ngrams text n))
      <= Z.max 0 (Z.of_nat (length (split text)) - n + 1))%Z.
Proof.
  intros Hn.
  assert (En : n = Z.of_nat (Z.to_nat n)) by lia.
  assert (Hn' : 1 <= Z.to_nat n) by lia.
  assert (A : forall g,
             In g (get_ngrams text n) <->
             exists a ws b,
               split text = a ++ ws ++ b /\ Z.of_nat (length ws) = n
               /\ g = join " " ws).
  { intros g. rewrite En at 1. rewrite (In_get_ngrams text g Hn').
    split; intros [a [ws [b [E [L G]]]]]; exists a, ws, b;
      (split; [exact E|]); (split; [lia | exact G]). }
  split; [exact A|]. split.
  - intros g Hg. apply A in Hg. destruct Hg as [a [ws [b [E [L ->]]]]].
    assert (S : split (join " " ws) = ws).
    { apply split_join. intros w Hw. apply (@split_tokens text).
      rewrite E. apply in_or_app. right. apply in_or_app. left. exact Hw. }
    rewrite S. split; [exact L|]. split; [reflexivity|].
    exists a, b. exact E.
  - unfold get_ngrams, range_int.
    assert (G : forall l, length (set_of l) <= length l).
    { induction l as [|x l IH]; simpl; [lia|].
      pose proof (filter_length_le (fun y => negb (str_eqb x y)) (set_of l)).
      lia. }
    match goal with
    | |- (Z.of_nat (length (set_of ?l)) <= _)%Z => pose proof (G l) as B
    end.
    rewrite !length_map, length_seq in B. lia.
Qed.

Lemma get_ngrams_windows_witness :
  In ("cuts and" : str) (get_ngrams "Tax cuts and deregulation" 2) <->
  exists a ws b,
    split "Tax cuts and deregulation" = a ++ ws ++ b
    /\ Z.of_nat (length ws) = 2%Z /\ ("cuts and" : str) = join " " ws.
Proof.
  apply (proj1 (@get_ngrams_windows "Tax cuts and deregulation" 2
                  ltac:(lia)) ("cuts and" : str)).
Defined.

(** ** More on the matcher of [main.py] *)

Lemma wordless_absent_iff (text p : str) :
  wordless_absent text p = true <-> Wordless_absent text p.
Proof.
  unfold wordless_absent, Wordless_absent.
  rewrite <- forallb_isspace_lower, <- split_nil_iff.
  destruct (split (lower p)) as [|w ws].
  - rewrite negb_true_iff. split.
    + intros E. split; [reflexivity|]. intros Hin.
      apply str_in_Infix in Hin. congruence.
    + intros [_ Hn]. destruct (str_in (lower p) (lower text)) eqn:E;
        [|reflexivity]. exfalso. apply Hn, str_in_Infix. exact E.
  - split; [discriminate | intros [E _]; discriminate].
Qed.

Lemma exists_wordless_absent (text : str) (phrases : list str) :
  existsb (wordless_absent text) phrases = true <->
  exists p, In p phrases /\ Wordless_absent text p.
Proof.
  rewrite existsb_exists. split; intros [p [Hp Hw]]; exists p;
    (split; [exact Hp|]); apply wordless_absent_iff; exact Hw.
Qed.

(** What the matcher does, by whether a candidate makes it divide by
    zero. *)
Lemma find_phrase_matches_outcome {F : Type} `{Float F}
  (text : str) (phrases : list str) :
  Main.find_phrase_matches text phrases
  = if existsb (wordless_absent text) phrases
    then Raise ZeroDivisionError
    else Ok (filter (kept text) (map lower phrases)).
Proof.
  unfold Main.find_phrase_matches.
  destruct (existsb (wordless_absent text) phrases) eqn:E.
  - apply match_loop_raises. apply existsb_exists in E.
    destruct E as [p [Hp Hw]]. exists p. split; [exact Hp|].
    unfold wordless_absent in Hw.
    destruct (split (lower p)); [|discriminate Hw].
    split; [reflexivity|]. apply negb_true_iff. exact Hw.
  - rewrite match_loop_filter; [reflexivity|].
    intros p Hp Hs.
    destruct (str_in (lower p) (lower text)) eqn:Hin; [reflexivity|].
    exfalso.
    assert (X : existsb (wordless_absent text) phrases = true).
    { apply existsb_exists. exists p. split; [exact Hp|].
      unfold wordless_absent. rewrite Hs, Hin. reflexivity. }
    congruence.
Qed.

(** X3. [find_phrase_matches] of [main.py] raises exactly when some
    candidate is made of whitespace only and does not occur in the
    lowercased text; the exception is then [ZeroDivisionError], whatever
    the other candidates are.  Otherwise it returns. *)
Theorem find_phrase_matches_raises_iff {F : Type} `{Float F}
  (text : str) (phrases : list str) :
  (forall e,
     Main.find_phrase_matches text phrases = Raise e <->
     e = ZeroDivisionError
     /\ exists p, In p phrases /\ forallb isspace p = true
                  /\ ~ Infix (lower p) (lower text))
  /\ ((exists found, Main.find_phrase_matches text phrases = Ok found) <->
      forall p, In p phrases -> forallb isspace p = true ->
                Infix (lower p) (lower text)).
Proof.
  rewrite find_phrase_matches_outcome.
  destruct (existsb (wordless_absent text) phrases) eqn:E.
  - apply exists_wordless_absent in E. destruct E as [p [Hp [Hs Hn]]].
    split.
    + intros e. split.
      * intros [= <-]. split; [reflexivity|]. exists p. auto.
      * intros [-> _]. reflexivity.
    + split.
      * intros [found X]. discriminate X.
      * intros Hall. exfalso. apply Hn, Hall; assumption.
  - split.
    + intros e. split; [discriminate|].
      intros [_ [p [Hp [Hs Hn]]]]. exfalso.
      assert (X : existsb (wordless_absent text) phrases = true)
        by (apply exists_wordless_absent; exists p; split;
            [exact Hp | split; assumption]).
      congruence.
    + split; [|intros _; eexists; reflexivity].
      intros _ p Hp Hs.
      destruct (str_in (lower p) (lower text)) eqn:Hin;
        [apply str_in_Infix; exact Hin|].
      exfalso.
      assert (X : existsb (wordless_absent text) phrases = true).
      { apply exists_wordless_absent. exists p. split; [exact Hp|].
        split; [exact Hs|]. intros Hi. apply str_in_Infix in Hi.
        congruence. }
      congruence.
Qed.

(** X4. The candidates are judged one by one: the matches of a list
    [ps ++ qs] are the matches of [ps] followed by those of [qs], and the
    call on the whole list raises as soon as the call on either part
    does. *)
Theorem find_phrase_matches_app {F : Type} `{Float F}
  (text : str) (ps qs : list str) :
  Main.find_phrase_matches text (ps ++ qs)
  = (let* a := Main.find_phrase_matches text ps in
     let* b := Main.find_phrase_matches text qs in
     Ok (a ++ b)).
Proof.
  rewrite !find_phrase_matches_outcome.
  rewrite existsb_app, map_app, filter_app.
  destruct (existsb (wordless_absent text) ps),
           (existsb (wordless_absent text) qs); reflexivity.
Qed.

Lemma map_lower_outcome (text : str) (phrases : list str) :
  existsb (wordless_absent text) (map lower phrases)
  = existsb (wordless_absent text) phrases.
Proof.
  induction phrases as [|p ps IH]; simpl; [reflexivity|].
  rewrite IH. unfold wordless_absent at 1 3.
  rewrite lower_idempotent. reflexivity.
Qed.

Lemma existsb_pointwise {A : Type} (f g : A -> bool) (l : list A) :
  (forall x, f x = g x) -> existsb f l = existsb g l.
Proof.
  intros E. induction l as [|x l IH]; simpl; [reflexivity|].
  rewrite E, IH. reflexivity.
Qed.

(** X5. The matcher of [main.py] ignores case, in the text and in the
    candidates: two calls whose texts and whose candidates agree once
    lowercased have the same outcome. *)
Theorem find_phrase_matches_ignores_case {F : Type} `{Float F}
  (text text' : str) (phrases phrases' : list str) :
  lower text = lower text' ->
  map lower phrases = map lower phrases' ->
  Main.find_phrase_matches text phrases
  = Main.find_phrase_matches text' phrases'.
Proof.
  intros Et Ep. rewrite !find_phrase_matches_outcome.
  rewrite <- (map_lower_outcome text phrases),
          <- (map_lower_outcome text' phrases'), Ep.
  assert (W : forall p, wordless_absent text p = wordless_absent text' p)
    by (intros p; unfold wordless_absent; rewrite Et; reflexivity).
  rewrite (existsb_pointwise _ _ _ W).
  assert (K : forall p, kept text p = kept text' p)
    by (intros p; unfold kept; rewrite Et; reflexivity).
  rewrite (filter_ext _ _ K). reflexivity.
Qed.

Lemma find_phrase_matches_ignores_case_witness :
  Main.find_phrase_matches (F := float) "TAX Cuts now"
    (strs ["Tax Cuts"; "EQUITY"])
  = Main.find_phrase_matches (F := float) "tax cuts NOW"
      (strs ["tax cuts"; "Equity"]).
Proof.
  apply (@find_phrase_matches_ignores_case float binary64);
    vm_compute; reflexivity.
Defined.

(** A candidate of one word passes the ratio test exactly when its word
    is matched. *)
Lemma kept_one_word {F : Type} `{Float F} (text q w : str) :
  ratio_ok 1 1 = true -> ratio_ok 0 1 = false ->
  split q = [w] ->
  (kept text q = true <->
   Infix q (lower text) \/ WordHit (split (lower text)) w).
Proof.
  intros R1 R0 Hs. unfold kept. rewrite Hs. cbn [filter length].
  rewrite orb_true_iff, str_in_Infix, <- counted_WordHit.
  destruct (counted (split (lower text)) w); cbn [length].
  - rewrite R1. tauto.
  - rewrite R0. split; [intros [X | X]; [left; exact X | discriminate]|].
    intros [X | X]; [left; exact X | discriminate].
Qed.

Lemma In_filter_map_lower (keep : str -> bool) (phrases : list str)
  (p : str) :
  In p phrases ->
  (In (lower p) (filter keep (map lower phrases)) <-> keep (lower p) = true).
Proof.
  intros Hp. rewrite filter_In. split; [tauto|].
  intros K. split; [apply in_map; exact Hp | exact K].
Qed.

(** X6. A candidate of a single word is reported, when the matcher
    returns, exactly when it occurs verbatim in the lowercased text or
    some token of the text contains its word, is contained in its word,
    or shares a run of at least three characters with it; this holds on
    binary64 and in exact arithmetic.  (So a token as short as one
    letter reports every one-word candidate that contains that
    letter.) *)
Theorem one_word_candidate (text : str) (phrases : list str) (p w : str) :
  In p phrases -> split (lower p) = [w] ->
  (forall found,
     Main.find_phrase_matches (F := float) text phrases = Ok found ->
     (In (lower p) found <->
      Infix (lower p) (lower text) \/ WordHit (split (lower text)) w))
  /\ (forall found,
        Main.find_phrase_matches (F := Q) text phrases = Ok found ->
        (In (lower p) found <->
         Infix (lower p) (lower text) \/ WordHit (split (lower text)) w)).
Proof.
  intros Hp Hs. split; intros found E;
    rewrite find_phrase_matches_outcome in E;
    destruct (existsb (wordless_absent text) phrases);
    try discriminate E; injection E as <-;
    rewrite (In_filter_map_lower _ _ _ Hp);
    apply kept_one_word; try exact Hs; vm_compute; reflexivity.
Qed.

Lemma one_word_candidate_witness :
  exists found,
    Main.find_phrase_matches (F := float) "a plan" (strs ["Nation"; "tax"])
    = Ok found
    /\ (In (lower "Nation") found <->
        Infix (lower "Nation") (lower "a plan")
        \/ WordHit (split (lower "a plan")) "nation").
Proof.
  destruct (Main.find_phrase_matches (F := float) "a plan"
              (strs ["Nation"; "tax"])) as [found | e] eqn:E.
  - exists found. split; [reflexivity|].
    exact (proj1 (@one_word_candidate "a plan" (strs ["Nation"; "tax"])
                    "Nation" "nation"
                    ltac:(left; reflexivity)
                    ltac:(vm_compute; reflexivity)) found E).
  - exfalso. vm_compute in E. discriminate E.
Defined.

(** ** More on the scorer of [main.py] *)

Lemma keywords_fail_iff (kw : Keywords) (text : str) :
  keywords_fail kw text = true <-> Keywords_fail kw text.
Proof.
  unfold keywords_fail, Keywords_fail. rewrite existsb_exists. split.
  - intros [phrases [Hin E]]. apply exists_wordless_absent in E.
    destruct E as [p [Hp Hw]]. exists phrases, p. auto.
  - intros [phrases [p [Hin [Hp Hw]]]]. exists phrases.
    split; [exact Hin|]. apply exists_wordless_absent. exists p. auto.
Qed.

(** The matches the seven calls return when none of them raises. *)
Lemma matcher_returns_kept {F : Type} `{Float F}
  (kw : Keywords) (text : str) :
  keywords_fail kw text = false ->
  matcher_returns kw text
    (map (fun phrases => filter (kept text) (map lower phrases)) (calls kw)).
Proof.
  unfold keywords_fail, matcher_returns. rewrite map_map.
  intros E. apply map_ext_in. intros phrases Hin.
  rewrite find_phrase_matches_outcome.
  destruct (existsb (wordless_absent text) phrases) eqn:X; [|reflexivity].
  exfalso.
  assert (Y : existsb (existsb (wordless_absent text)) (calls kw) = true)
    by (apply existsb_exists; exists phrases; auto).
  congruence.
Qed.

(** One block of the first stage, by whether its keyword list makes the
    matcher raise. *)
Ltac block_outcome text phrases :=
  rewrite (find_phrase_matches_outcome text phrases);
  destruct (existsb (wordless_absent text) phrases);
  [ intros _; eexists; reflexivity |].

(** The first stage raises [ZeroDivisionError] when a keyword list makes
    the matcher raise. *)
Lemma accumulate_scores_raises {F : Type} `{Float F}
  (kw : Keywords) (text : str) :
  keywords_fail kw text = true ->
  exists l, Main.accumulate_scores kw text = (l, Raise ZeroDivisionError).
Proof.
  unfold keywords_fail, calls, Main.accumulate_scores, Main.score_block,
    Main.lift. cbn [existsb].
  block_outcome text (extreme_right_keywords kw).
  cbn [Main.mbind orb].
  destruct (filter (kept text) (map lower (extreme_right_keywords kw)));
    cbn [Main.mbind Main.ret Main.log app];
  block_outcome text (extreme_left_keywords kw);
  cbn [Main.mbind orb];
  destruct (filter (kept text) (map lower (extreme_left_keywords kw)));
    cbn [Main.mbind Main.ret Main.log app];
  block_outcome text (left_wing_economic kw);
  cbn [Main.mbind orb];
  destruct (filter (kept text) (map lower (left_wing_economic kw)));
    cbn [Main.mbind Main.ret Main.log app];
  block_outcome text (left_wing_social kw);
  cbn [Main.mbind orb];
  destruct (filter (kept text) (map lower (left_wing_social kw)));
    cbn [Main.mbind Main.ret Main.log app];
  block_outcome text (right_wing_economic kw);
  cbn [Main.mbind orb];
  destruct (filter (kept text) (map lower (right_wing_economic kw)));
    cbn [Main.mbind Main.ret Main.log app];
  block_outcome text (right_wing_social kw);
  cbn [Main.mbind orb];
  destruct (filter (kept text) (map lower (right_wing_social kw)));
    cbn [Main.mbind Main.ret Main.log app];
  block_outcome text (neutral_terms kw);
  discriminate.
Qed.

Lemma calculate_bias_scores_raises {F : Type} `{Float F}
  (kw : Keywords) (text : str) :
  keywords_fail kw text = true ->
  exists l, Main.calculate_bias_scores kw text
            = (l, Raise ZeroDivisionError).
Proof.
  intros E. destruct (accumulate_scores_raises kw text E) as [l A].
  exists l. unfold Main.calculate_bias_scores. rewrite A. reflexivity.
Qed.

(** The scorer returns when no keyword list makes the matcher raise and
    the last stage returns, as it does on both arithmetics. *)
Lemma calculate_bias_scores_returns {F : Type} `{Float F}
  (kw : Keywords) (text : str) :
  (forall raw d, exists scores, finish raw d = Ok (scores, d)) ->
  keywords_fail kw text = false ->
  exists l scores d,
    Main.calculate_bias_scores kw text = (l, Ok (scores, d)).
Proof.
  intros Hfin E. pose proof (matcher_returns_kept kw text E) as Hc.
  unfold matcher_returns in Hc. simpl map in Hc.
  destruct (accumulate_scores_ok Hc) as [l0 A].
  destruct (calculate_bias_scores_finish _ _ A) as [Hs _].
  match type of A with
  | _ = (_, Ok (?raw, ?d)) => destruct (Hfin raw d) as [scores Hf]
  end.
  eexists. exists scores. eexists.
  rewrite (surjective_pairing (Main.calculate_bias_scores kw text)).
  rewrite Hs, Hf. reflexivity.
Qed.

Lemma finish_exact_returns (raw : ScoreVector Q) (d : DetectedPhrases) :
  exists scores, finish raw d = Ok (scores, d).
Proof.
  destruct (Qlt_le_dec 0 (sum (values raw))) as [Ht | Ht].
  - eexists. apply finish_exact_pos. exact Ht.
  - eexists. apply finish_exact_nonpos. intros Ht'.
    exact (Qlt_irrefl _ (Qlt_le_trans _ _ _ Ht' Ht)).
Qed.

(** The outcome of the scorer, by whether a keyword list makes the
    matcher raise. *)
Lemma calculate_bias_scores_outcome {F : Type} `{Float F}
  (kw : Keywords) (text : str) :
  (forall raw d, exists scores, finish raw d = Ok (scores, d)) ->
  forall e,
    snd (Main.calculate_bias_scores kw text) = Raise e <->
    e = ZeroDivisionError /\ Keywords_fail kw text.
Proof.
  intros Hfin e. rewrite <- keywords_fail_iff.
  destruct (keywords_fail kw text) eqn:K.
  - destruct (calculate_bias_scores_raises kw text K) as [l C].
    rewrite C. cbn [snd]. split.
    + intros [= <-]. auto.
    + intros [-> _]. reflexivity.
  - destruct (calculate_bias_scores_returns kw text Hfin K)
      as [l [scores [d C]]].
    rewrite C. cbn [snd]. split; [discriminate | intros [_ X]; discriminate].
Qed.

(** X7. [calculate_bias_scores] of [main.py] raises exactly when one of
    the seven keyword lists holds a keyword made of whitespace only that
    does not occur in the lowercased text, and the exception is then
    [ZeroDivisionError]; with any other keyword set it returns.  The
    normalisation never divides by zero, on binary64 or in exact
    arithmetic. *)
Theorem calculate_bias_scores_raises_iff (kw : Keywords) (text : str) :
  (forall e,
     snd (Main.calculate_bias_scores (F := float) kw text) = Raise e <->
     e = ZeroDivisionError /\ Keywords_fail kw text)
  /\ (forall e,
        snd (Main.calculate_bias_scores (F := Q) kw text) = Raise e <->
        e = ZeroDivisionError /\ Keywords_fail kw text)
  /\ (~ Keywords_fail kw text ->
      (exists l scores d,
         Main.calculate_bias_scores (F := float) kw text
         = (l, Ok (scores, d)))
      /\ (exists l scores d,
            Main.calculate_bias_scores (F := Q) kw text
            = (l, Ok (scores, d)))).
Proof.
  split; [|split].
  - apply calculate_bias_scores_outcome. apply finish_binary64_returns.
  - apply calculate_bias_scores_outcome. apply finish_exact_returns.
  - intros Hk.
    assert (K : keywords_fail kw text = false).
    { destruct (keywords_fail kw text) eqn:K; [|reflexivity].
      exfalso. apply Hk, keywords_fail_iff. exact K. }
    split; apply calculate_bias_scores_returns; try exact K.
    + apply finish_binary64_returns.
    + apply finish_exact_returns.
Qed.

Lemma calculate_bias_scores_raises_iff_witness :
  (exists l scores d,
     Main.calculate_bias_scores (F := float) example_keywords example_text
     = (l, Ok (scores, d)))
  /\ (exists l scores d,
        Main.calculate_bias_scores (F := Q) example_keywords example_text
        = (l, Ok (scores, d))).
Proof.
  apply (proj2 (proj2 (calculate_bias_scores_raises_iff example_keywords
                         example_text))).
  intros K. apply keywords_fail_iff in K. vm_compute in K. discriminate K.
Defined.

(** ** More on the resolver of [main.py] *)

(** In exact arithmetic [max] returns an upper bound of its
    arguments. *)
Lemma max_by_exact_ge (xs : list Q) :
  forall x : Q,
    (x <= max_by (fun v => v) x xs)%Q
    /\ forall y, In y xs -> (y <= max_by (fun v => v) x xs)%Q.
Proof.
  induction xs as [|a xs IH]; intros x.
  - split; [apply Qle_refl | intros y []].
  - unfold max_by in *. cbn [fold_left].
    destruct (fltb x a) eqn:E.
    + apply fltb_exact in E. destruct (IH a) as [Ha Hxs]. split.
      * apply Qle_trans with a; [apply Qlt_le_weak; exact E | exact Ha].
      * intros y [<- | Hy]; [exact Ha | apply Hxs; exact Hy].
    + assert (Hax : (a <= x)%Q).
      { apply Qnot_lt_le. intros X. apply fltb_exact in X. congruence. }
      destruct (IH x) as [Hx Hxs]. split; [exact Hx|].
      intros y [<- | Hy];
        [apply Qle_trans with x; assumption | apply Hxs; exact Hy].
Qed.

Lemma top_ge_exact (scores : ScoreVector Q) (c : category) :
  (get scores c <= top scores)%Q.
Proof.
  unfold top.
  destruct (max_by_exact_ge
              [s_right_wing scores; s_extreme_left scores;
               s_extreme_right scores; s_neutral scores]
              (s_left_wing scores)) as [H0 H1].
  destruct c; cbn [get]; [exact H0 | | | |]; apply H1; simpl; auto.
Qed.

(** X8. [determine_overall_bias] of [main.py] raises exactly when the
    maximum is not 0 and no category reaches 0.85 times the maximum; the
    exception is then the [IndexError] of [dominant_categories[0]].  In
    exact arithmetic that is exactly when every score is negative. *)
Theorem determine_overall_bias_raises_iff {F : Type} `{Float F}
  (scores : ScoreVector F) (exact_scores : ScoreVector Q) :
  (forall e,
     Main.determine_overall_bias scores = Raise e <->
     e = IndexError /\ (top scores ==? zero)%py = false
     /\ dominant scores = [])
  /\ (forall e,
        Main.determine_overall_bias exact_scores = Raise e <->
        e = IndexError /\ forall c, (get exact_scores c < 0)%Q).
Proof.
  assert (G : forall (F' : Type) (H' : Float F') (s : ScoreVector F') e,
             Main.determine_overall_bias s = Raise e <->
             e = IndexError /\ (top s ==? zero)%py = false
             /\ dominant s = []).
  { intros F' H' s e. rewrite determine_overall_bias_cases.
    destruct (top s ==? zero)%py.
    - split; [discriminate | intros [_ [X _]]; discriminate].
    - pose proof (In_dominant s extreme_left) as IL.
      pose proof (In_dominant s extreme_right) as IR.
      destruct (reaches s extreme_left).
      + assert (X : In extreme_left (dominant s)) by (apply IL; reflexivity).
        destruct (reaches s extreme_right);
          [destruct (get s extreme_right >? get s extreme_left)%py|];
          (split; [discriminate|]); intros [_ [_ D]]; rewrite D in X;
          destruct X.
      + destruct (reaches s extreme_right).
        * assert (X : In extreme_right (dominant s))
            by (apply IR; reflexivity).
          split; [discriminate|]. intros [_ [_ D]]. rewrite D in X.
          destruct X.
        * destruct (dominant s) as [|c [|c' r]]; cbn [length Nat.ltb Nat.leb].
          -- split; [intros [= <-]; auto | intros [-> _]; reflexivity].
          -- split; [discriminate | intros [_ [_ D]]; discriminate].
          -- split; [discriminate | intros [_ [_ D]]; discriminate]. }
  split; [apply G|].
  intros e. rewrite G.
  pose proof (top_ge_exact exact_scores) as T.
  destruct (top_is_a_score exact_scores) as [c0 Hc0].
  split.
  - intros [-> [Hz Hd]]. split; [reflexivity|].
    assert (Hneg : (top exact_scores < 0)%Q).
    { apply Qnot_le_lt. intros Hpos.
      assert (X : In c0 (dominant exact_scores)).
      { apply In_dominant. unfold reaches. apply fleb_exact.
        rewrite <- Hc0. cbn [fmul exact].
        assert (D : (Main.dominance (F := Q) == 85 # 100)%Q) by reflexivity.
        rewrite D. nra. }
      rewrite Hd in X. destruct X. }
    intros c. specialize (T c). lra.
  - intros [-> Hneg]. split; [reflexivity|].
    assert (Ht : (top exact_scores < 0)%Q) by (rewrite Hc0; apply Hneg).
    split.
    + destruct (top exact_scores ==? zero)%py eqn:Z; [|reflexivity].
      apply feqb_exact in Z. rewrite zero_exact in Z. lra.
    + destruct (dominant exact_scores) as [|c r] eqn:D; [reflexivity|].
      exfalso.
      assert (X : In c (dominant exact_scores)) by (rewrite D; left; reflexivity).
      apply In_dominant in X. unfold reaches in X. apply fleb_exact in X.
      cbn [fmul exact] in X.
      assert (Dm : (Main.dominance (F := Q) == 85 # 100)%Q) by reflexivity.
      rewrite Dm in X. specialize (T c). nra.
Qed.

(** The shape of a verdict. *)
Lemma verdict_shape {F : Type} `{Float F}
  (scores : ScoreVector F) (label : string) (conf : F) :
  Main.determine_overall_bias scores = Ok (label, conf) ->
  In label main_labels
  /\ (((top scores ==? zero)%py = true
       /\ label = "neutral"%string /\ conf = zero)
      \/ ((top scores ==? zero)%py = false
          /\ (conf = top scores
              \/ exists c, In c Main.extreme_categories /\ label = name c
                           /\ conf = get scores c
                           /\ reaches scores c = true)))
  /\ (label = "mixed"%string ->
      reaches scores extreme_left = false
      /\ reaches scores extreme_right = false
      /\ 1 < length (dominant scores)).
Proof.
  rewrite determine_overall_bias_cases.
  assert (N : forall c, In (name c) main_labels)
    by (intros c; destruct c; simpl; auto 10).
  assert (M : forall c, name c <> "mixed"%string)
    by (intros c; destruct c; discriminate).
  destruct (top scores ==? zero)%py.
  { intros [= <- <-]. split; [apply (N neutral)|].
    split; [left; auto | discriminate]. }
  destruct (reaches scores extreme_left) eqn:RL.
  { destruct (reaches scores extreme_right) eqn:RR;
      [destruct (get scores extreme_right >? get scores extreme_left)%py|];
      intros [= <- <-].
    - split; [apply (N extreme_right)|].
      split; [|intros X; discriminate X].
      right. split; [reflexivity|]. right. exists extreme_right.
      simpl. auto 6.
    - split; [apply (N extreme_left)|].
      split; [|intros X; discriminate X].
      right. split; [reflexivity|]. right. exists extreme_left.
      simpl. auto 6.
    - split; [apply (N extreme_left)|].
      split; [|intros X; discriminate X].
      right. split; [reflexivity|]. right. exists extreme_left.
      simpl. auto 6. }
  destruct (reaches scores extreme_right) eqn:RR.
  { intros [= <- <-]. split; [apply (N extreme_right)|].
    split; [|intros X; discriminate X].
    right. split; [reflexivity|]. right. exists extreme_right.
    simpl. auto 6. }
  destruct (1 <? length (dominant scores)) eqn:L.
  { intros [= <- <-]. split; [simpl; auto 10|].
    split; [right; split; [reflexivity | left; reflexivity]|].
    intros _. apply Nat.ltb_lt in L. auto. }
  destruct (dominant scores) as [|c r]; [discriminate|].
  intros [= <- <-]. split; [apply (N c)|].
  split; [right; split; [reflexivity | left; reflexivity]|].
  intros X. exfalso. exact (M c X).
Qed.

(** X9. Whatever the scores, a verdict of [determine_overall_bias] of
    [main.py] carries one of six labels, the five category names and
    "mixed".  Its confidence is 0.0 with the label "neutral" when the
    maximum is 0, and otherwise the maximum score or the own score of
    the dominant extreme category it names.  "mixed" is answered only
    when no extreme category is dominant and at least two categories
    are. *)
Theorem determine_overall_bias_verdict {F : Type} `{Float F}
  (scores : ScoreVector F) (label : string) (conf : F) :
  Main.determine_overall_bias scores = Ok (label, conf) ->
  In label main_labels
  /\ (((top scores ==? zero)%py = true
       /\ label = "neutral"%string /\ conf = zero)
      \/ ((top scores ==? zero)%py = false
          /\ (conf = top scores
              \/ exists c, In c Main.extreme_categories /\ label = name c
                           /\ conf = get scores c
                           /\ reaches scores c = true)))
  /\ (label = "mixed"%string ->
      reaches scores extreme_left = false
      /\ reaches scores extreme_right = false
      /\ 1 < length (dominant scores)).
Proof. apply verdict_shape. Qed.

Lemma determine_overall_bias_verdict_witness :
  In "mixed"%string main_labels
  /\ (((top level_wings ==? zero)%py = true
       /\ "mixed"%string = "neutral"%string /\ (1 # 2)%Q = zero)
      \/ ((top level_wings ==? zero)%py = false
          /\ ((1 # 2)%Q = top level_wings
              \/ exists c, In c Main.extreme_categories
                           /\ "mixed"%string = name c
                           /\ (1 # 2)%Q = get level_wings c
                           /\ reaches level_wings c = true)))
  /\ ("mixed"%string = "mixed"%string ->
      reaches level_wings extreme_left = false
      /\ reaches level_wings extreme_right = false
      /\ 1 < length (dominant level_wings)).
Proof.
  apply (@determine_overall_bias_verdict Q exact level_wings "mixed" (1 # 2)%Q).
  vm_compute. reflexivity.
Defined.

(** ** The scorer and the resolver together *)

(** A double that is at least 0 and not equal to 0 is positive. *)
Lemma nonneg_nonzero_pos (x : float) :
  PrimFloat.leb 0 x = true -> PrimFloat.eqb x 0 = false ->
  PrimFloat.ltb 0 x = true.
Proof.
  rewrite FloatAxioms.leb_spec, FloatAxioms.eqb_spec, FloatAxioms.ltb_spec.
  change (Prim2SF 0) with (S754_zero false).
  destruct (Prim2SF x) as [s | s | | s m e]; try discriminate;
    destruct s; try discriminate; reflexivity.
Qed.

(** On binary64 the resolver of [main.py] returns on every score vector
    whose entries are all at least 0. *)
Lemma determine_overall_bias_nonneg (scores : ScoreVector float) :
  (forall c, (get scores c >=? zero)%py = true) ->
  exists verdict, Main.determine_overall_bias scores = Ok verdict.
Proof.
  intros Hnn. destruct (top scores ==? zero)%py eqn:Z.
  - rewrite determine_overall_bias_cases, Z. eexists. reflexivity.
  - destruct (top_is_a_score scores) as [c Hc].
    assert (Hpos : PrimFloat.ltb 0 (top scores) = true).
    { apply nonneg_nonzero_pos; [|exact Z]. rewrite Hc. apply Hnn. }
    apply dominant_nonempty_when. apply mul_dominance_le. exact Hpos.
Qed.

(** The scores the binary64 scorer returns are at least 0, for keyword
    lists of up to 256 phrases. *)
Lemma calculate_bias_scores_nonneg (kw : Keywords) (text : str)
  (l : list (Main.record float)) (scores : ScoreVector float)
  (d : DetectedPhrases) :
  small_lists kw = true ->
  Main.calculate_bias_scores kw text = (l, Ok (scores, d)) ->
  forall c, (get scores c >=? zero)%py = true.
Proof.
  intros Hb E.
  destruct (calculate_bias_scores_inv _ _ E) as [l0 [raw [A [Hf _]]]].
  destruct (accumulate_scores_inv _ _ A)
    as [er [el [lwe [lws [rwe [rws [nt Hc]]]]]]].
  destruct (accumulate_scores_ok Hc) as [l1 A'].
  rewrite A in A'. injection A' as _ -> _.
  apply (@finish_binary64_nonneg (raw_of er el lwe lws rwe rws nt)
           scores d); [|exact Hf].
  apply raw_of_binary64. exact (matches_bounded Hb Hc).
Qed.

(** The body of the [try] block, by the outcome of its two calls. *)
Lemma analyze_body_ok {F : Type} `{Float F} (kw : Keywords) (text : str)
  (l : list (Main.record F)) (scores : ScoreVector F) (d : DetectedPhrases)
  (label : string) (conf : F) :
  Main.calculate_bias_scores kw text = (l, Ok (scores, d)) ->
  Main.determine_overall_bias scores = Ok (label, conf) ->
  Main.analyze_body kw text
  = (l ++ [(Main.INFO, Main.Complete label conf)],
     Ok {| Main.text_of := text; Main.bias_scores := scores;
           Main.overall_bias := label; Main.confidence := conf;
           Main.detected_phrases := d |}).
Proof.
  intros C D. unfold Main.analyze_body. rewrite C.
  cbn [Main.mbind]. rewrite D. reflexivity.
Qed.

Lemma analyze_body_raise {F : Type} `{Float F} (kw : Keywords) (text : str)
  (l : list (Main.record F)) (e : exn) :
  Main.calculate_bias_scores kw text = (l, Raise e) ->
  Main.analyze_body kw text = (l, Raise e).
Proof.
  intros C. unfold Main.analyze_body. rewrite C. reflexivity.
Qed.

(** X10. What [/analyze] of [main.py] answers to a text that is not
    blank, on binary64 and for keyword lists of up to 256 phrases.  If
    some keyword is made of whitespace only and does not occur in the
    text, the answer is HTTP 500 with the detail
    "Analysis failed: division by zero", and the error is logged.
    Otherwise the answer is the response: it echoes the text, carries
    the scores and detected phrases of [calculate_bias_scores] and the
    verdict of [determine_overall_bias] on those scores, and the
    completion is logged.  The [IndexError] of the resolver is never
    reached. *)
Theorem analyze_text_outcome (kw : Keywords) (text : str) :
  small_lists kw = true ->
  forallb isspace text = false ->
  (Keywords_fail kw text ->
   exists l,
     Main.analyze_text (F := float) kw text
     = (l, Main.HTTPException 500 "Analysis failed: division by zero")
     /\ In (Main.ERROR, Main.Failed ZeroDivisionError) l)
  /\ (~ Keywords_fail kw text ->
      exists l body,
        Main.analyze_text (F := float) kw text = (l, Main.Response body)
        /\ Main.text_of body = text
        /\ snd (Main.calculate_bias_scores kw text)
           = Ok (Main.bias_scores body, Main.detected_phrases body)
        /\ Main.determine_overall_bias (Main.bias_scores body)
           = Ok (Main.overall_bias body, Main.confidence body)
        /\ In (Main.INFO,
               Main.Complete (Main.overall_bias body) (Main.confidence body))
             l).
Proof.
  intros Hb Hs.
  assert (St : exists c r, strip text = c :: r).
  { destruct (strip text) as [|c r] eqn:E; [|eauto].
    apply strip_nil_whitespace in E. congruence. }
  destruct St as [c0 [r0 St]].
  split.
  - intros K. apply keywords_fail_iff in K.
    destruct (calculate_bias_scores_raises (F := float) kw text K) as [l C].
    eexists. unfold Main.analyze_text. rewrite St.
    rewrite (analyze_body_raise _ _ C). split; [reflexivity|].
    apply in_or_app. right. apply in_or_app. right. left. reflexivity.
  - intros K.
    assert (K' : keywords_fail kw text = false).
    { destruct (keywords_fail kw text) eqn:X; [|reflexivity].
      exfalso. apply K, keywords_fail_iff. exact X. }
    destruct (calculate_bias_scores_returns (F := float) kw text
                finish_binary64_returns K') as [l [scores [d C]]].
    destruct (@determine_overall_bias_nonneg scores
                (calculate_bias_scores_nonneg _ _ Hb C)) as [[label conf] D].
    eexists. eexists. unfold Main.analyze_text. rewrite St.
    rewrite (analyze_body_ok _ _ C D).
    split; [reflexivity|]. cbn [Main.text_of Main.bias_scores
      Main.overall_bias Main.confidence Main.detected_phrases].
    split; [reflexivity|]. split; [rewrite C; reflexivity|].
    split; [exact D|].
    apply in_or_app. right. apply in_or_app. right. left. reflexivity.
Qed.

Lemma analyze_text_outcome_witness :
  exists l body,
    Main.analyze_text (F := float) example_keywords example_text
    = (l, Main.Response body)
    /\ Main.text_of body = example_text
    /\ snd (Main.calculate_bias_scores example_keywords example_text)
       = Ok (Main.bias_scores body, Main.detected_phrases body)
    /\ Main.determine_overall_bias (Main.bias_scores body)
       = Ok (Main.overall_bias body, Main.confidence body)
    /\ In (Main.INFO,
           Main.Complete (Main.overall_bias body) (Main.confidence body))
         l.
Proof.
  apply (proj2 (@analyze_text_outcome example_keywords example_text
                  ltac:(vm_compute; reflexivity)
                  ltac:(vm_compute; reflexivity))).
  intros K. apply keywords_fail_iff in K. vm_compute in K. discriminate K.
Defined.

(** ** The pipeline of [main.py] in exact arithmetic *)

Lemma dominance_exact : (Main.dominance (F := Q) == 85 # 100)%Q.
Proof. reflexivity. Qed.

(** X11. In exact arithmetic, when [calculate_bias_scores] returns,
    [determine_overall_bias] returns on its scores.  If nothing was
    detected the verdict is "neutral" with confidence 0; if something
    was, the confidence lies between 0.17 and 1: the maximum of five
    non-negative scores that sum to 1 is at least 0.2, and a dominant
    extreme is answered with its own score, at least 0.85 times the
    maximum. *)
Theorem exact_pipeline_confidence (kw : Keywords) (text : str)
  (l : list (Main.record Q)) (scores : ScoreVector Q) (d : DetectedPhrases) :
  Main.calculate_bias_scores kw text = (l, Ok (scores, d)) ->
  exists label conf,
    Main.determine_overall_bias scores = Ok (label, conf)
    /\ (d = [] -> label = "neutral"%string /\ (conf == 0)%Q)
    /\ (d <> [] -> (17 # 100 <= conf)%Q /\ (conf <= 1)%Q).
Proof.
  intros E.
  destruct (normalised_scores_exact _ _ E)
    as [raw [_ [Hnn [Hpos [Hsum Hzero]]]]].
  pose proof (top_ge_exact scores) as T.
  destruct (top_is_a_score scores) as [c0 Hc0].
  destruct d as [|item d'].
  - assert (Z : (top scores ==? zero)%py = true).
    { apply feqb_exact. rewrite Hc0, zero_exact. apply Hzero. reflexivity. }
    exists "neutral"%string, zero.
    rewrite determine_overall_bias_cases, Z.
    split; [reflexivity|]. split; [|intros X; contradiction].
    intros _. split; reflexivity.
  - assert (Hd : item :: d' <> []) by discriminate.
    assert (S1 : (sum (values scores) == 1)%Q)
      by (apply Hsum, Hpos; exact Hd).
    rewrite sum_values in S1.
    pose proof (Hnn left_wing) as N1. pose proof (Hnn right_wing) as N2.
    pose proof (Hnn extreme_left) as N3. pose proof (Hnn extreme_right) as N4.
    pose proof (Hnn neutral) as N5.
    pose proof (T left_wing) as T1. pose proof (T right_wing) as T2.
    pose proof (T extreme_left) as T3. pose proof (T extreme_right) as T4.
    pose proof (T neutral) as T5.
    assert (Ht : (1 # 5 <= top scores)%Q) by lra.
    assert (Ht1 : (top scores <= 1)%Q) by (rewrite Hc0; destruct c0; lra).
    assert (Hp : (0 < top scores)%Q) by lra.
    destruct (proj2 (dominant_nonempty_exact scores Hp)) as [[label conf] D].
    exists label, conf. split; [exact D|].
    split; [intros X; discriminate X|]. intros _.
    destruct (verdict_shape _ D) as [_ [[[Z _] | [_ [-> | X]]] _]].
    + apply feqb_exact in Z. rewrite zero_exact in Z. lra.
    + lra.
    + destruct X as [c [_ [_ [-> R]]]].
      unfold reaches in R. apply fleb_exact in R. cbn [fmul exact] in R.
      rewrite dominance_exact in R.
      split; [nra | destruct c; lra].
Qed.

Lemma exact_pipeline_confidence_witness :
  exists l scores d,
    Main.calculate_bias_scores (F := Q) example_keywords example_text
    = (l, Ok (scores, d))
    /\ exists label conf,
         Main.determine_overall_bias scores = Ok (label, conf)
         /\ (d = [] -> label = "neutral"%string /\ (conf == 0)%Q)
         /\ (d <> [] -> (17 # 100 <= conf)%Q /\ (conf <= 1)%Q).
Proof.
  destruct (Main.calculate_bias_scores (F := Q) example_keywords example_text)
    as [l [[scores d] | e]] eqn:E.
  - exists l, scores, d. split; [reflexivity|].
    exact (exact_pipeline_confidence _ _ E).
  - exfalso. vm_compute in E. discriminate E.
Defined.

(** What the scorer returns, by the matches of the seven calls. *)
Lemma calculate_bias_scores_shape {F : Type} `{Float F}
  (kw : Keywords) (text : str) (l : list (Main.record F))
  (scores : ScoreVector F) (d : DetectedPhrases) :
  Main.calculate_bias_scores kw text = (l, Ok (scores, d)) ->
  let ms phrases := filter (kept text) (map lower phrases) in
  let raw :=
    raw_of (ms (extreme_right_keywords kw)) (ms (extreme_left_keywords kw))
      (ms (left_wing_economic kw)) (ms (left_wing_social kw))
      (ms (right_wing_economic kw)) (ms (right_wing_social kw))
      (ms (neutral_terms kw)) in
  d = detected_of (ms (extreme_right_keywords kw))
        (ms (extreme_left_keywords kw))
        (ms (left_wing_economic kw)) (ms (left_wing_social kw))
        (ms (right_wing_economic kw)) (ms (right_wing_social kw))
        (ms (neutral_terms kw))
  /\ finish raw d = Ok (scores, d).
Proof.
  intros E ms raw.
  destruct (calculate_bias_scores_inv _ _ E) as [l0 [raw0 [A [Hf _]]]].
  assert (K : keywords_fail kw text = false).
  { destruct (keywords_fail kw text) eqn:K; [|reflexivity].
    destruct (calculate_bias_scores_raises (F := F) kw text K) as [l1 C].
    rewrite E in C. discriminate C. }
  pose proof (matcher_returns_kept (F := F) kw text K) as Hc.
  unfold matcher_returns in Hc. simpl map in Hc.
  destruct (accumulate_scores_ok Hc) as [l1 A'].
  rewrite A in A'. injection A' as _ -> ->.
  split; [reflexivity | exact Hf].
Qed.

Lemma In_kept_lower {F : Type} `{Float F} (text : str)
  (phrases : list str) (p : str) :
  In p (filter (kept text) (map lower phrases)) <->
  exists q, In q phrases /\ p = lower q /\ PhraseHit text p.
Proof.
  rewrite filter_In, in_map_iff, kept_PhraseHit. split.
  - intros [[q [<- Hq]] Hk]. exists q. auto.
  - intros [q [Hq [-> Hk]]]. split; [exists q; auto | exact Hk].
Qed.

(** The phrases reported under a category. *)
Lemma phrases_of_calculate {F : Type} `{Float F}
  (kw : Keywords) (text : str) (l : list (Main.record F))
  (scores : ScoreVector F) (d : DetectedPhrases) :
  Main.calculate_bias_scores kw text = (l, Ok (scores, d)) ->
  forall c p,
    In p (phrases_of d c) <->
    exists phrases q,
      In phrases (lists_of kw c) /\ In q phrases /\ p = lower q
      /\ PhraseHit text p.
Proof.
  intros E c p.
  destruct (calculate_bias_scores_shape _ _ E) as [-> _].
  rewrite phrases_of_detected_of.
  destruct c; cbn [matched_under lists_of];
    rewrite ?in_app_iff, !In_kept_lower; split.
  all: try (intros [[q X] | [q X]];
            [eexists; exists q; split; [left; reflexivity | exact X]
            | eexists; exists q; split;
              [right; left; reflexivity | exact X]]).
  all: try (intros [phrases [q [[<- | [<- | []]] X]]];
            [left | right]; exists q; exact X).
  all: try (intros [q X]; eexists; exists q;
            split; [left; reflexivity | exact X]).
  all: try (intros [phrases [q [[<- | []] X]]]; exists q; exact X).
Qed.

(** X12. The phrases [calculate_bias_scores] of [main.py] reports under
    a category are exactly the keywords of that category's lists,
    lowercased, that the matcher accepts in the text: nothing else is
    reported, and no matched keyword is left out. *)
Theorem detected_phrases_are_keywords {F : Type} `{Float F}
  (kw : Keywords) (text : str) (l : list (Main.record F))
  (scores : ScoreVector F) (d : DetectedPhrases) :
  Main.calculate_bias_scores kw text = (l, Ok (scores, d)) ->
  forall c p,
    In p (phrases_of d c) <->
    exists phrases q,
      In phrases (lists_of kw c) /\ In q phrases /\ p = lower q
      /\ PhraseHit text p.
Proof. apply phrases_of_calculate. Qed.

Lemma detected_phrases_are_keywords_witness :
  exists l scores d,
    Main.calculate_bias_scores (F := float) example_keywords example_text
    = (l, Ok (scores, d))
    /\ forall c p,
         In p (phrases_of d c) <->
         exists phrases q,
           In phrases (lists_of example_keywords c) /\ In q phrases
           /\ p = lower q /\ PhraseHit (F := float) example_text p.
Proof.
  destruct (Main.calculate_bias_scores (F := float) example_keywords
              example_text) as [l [[scores d] | e]] eqn:E.
  - exists l, scores, d. split; [reflexivity|].
    exact (detected_phrases_are_keywords _ _ E).
  - exfalso. vm_compute in E. discriminate E.
Defined.

Local Open Scope Q_scope.

(** The sign of a score, in exact arithmetic. *)
Lemma positive_iff_detected_exact (kw : Keywords) (text : str)
  (l : list (Main.record Q)) (scores : ScoreVector Q) (d : DetectedPhrases) :
  Main.calculate_bias_scores kw text = (l, Ok (scores, d)) ->
  forall c, 0 < get scores c <-> lookup d c <> None.
Proof.
  intros E c.
  destruct (calculate_bias_scores_shape _ _ E) as [Hd Hf].
  cbv zeta in Hf.
  set (ms := fun phrases => filter (kept (F := Q) text) (map lower phrases))
    in *.
  set (er := ms (extreme_right_keywords kw)) in *.
  set (el := ms (extreme_left_keywords kw)) in *.
  set (lwe := ms (left_wing_economic kw)) in *.
  set (lws := ms (left_wing_social kw)) in *.
  set (rwe := ms (right_wing_economic kw)) in *.
  set (rws := ms (right_wing_social kw)) in *.
  set (nt := ms (neutral_terms kw)) in *.
  set (raw := raw_of er el lwe lws rwe rws nt) in *.
  assert (Hraw : 0 < get raw c <-> lookup d c <> None).
  { rewrite Hd, lookup_detected_of.
    destruct (raw_of_exact er el lwe lws rwe rws nt)
      as [Her [Hel [Hlw [Hrw Hnt]]]].
    fold raw in Her, Hel, Hlw, Hrw, Hnt.
    assert (P : forall (w : Q) (n : nat),
               0 < w -> (0 < w * of_count n <-> (0 < n)%nat)).
    { intros w n Hw. split.
      - intros Hp. destruct n; [|lia]. exfalso.
        change (of_count (F := Q) 0) with 0 in Hp. lra.
      - intros Hn. apply Qmult_lt_0_compat;
          [exact Hw | apply of_count_pos; exact Hn]. }
    assert (L : forall xs : list str,
               (0 < length xs)%nat <->
               match xs with [] => None | m :: r => Some (m :: r) end
               <> None).
    { intros [|m r]; simpl; split; try lia; try discriminate.
      intros X. exfalso. apply X. reflexivity. }
    destruct c; cbn [matched_under].
    - rewrite Hlw, P by reflexivity. rewrite <- length_app. apply L.
    - rewrite Hrw, P by reflexivity. rewrite <- length_app. apply L.
    - rewrite Hel, P by reflexivity. apply L.
    - rewrite Her, P by reflexivity. apply L.
    - rewrite Hnt, P by reflexivity. apply L. }
  destruct (Qlt_le_dec 0 (sum (values raw))) as [Ht | Ht].
  - rewrite (finish_exact_pos _ Ht) in Hf. injection Hf as <-.
    rewrite get_normalized, <- Hraw. split.
    + intros Hp. apply Qnot_le_lt. intros Hle.
      assert (X : get raw c / sum (values raw) <= 0).
      { apply Qle_shift_div_r; [exact Ht|]. rewrite Qmult_0_l. exact Hle. }
      lra.
    + intros Hp. apply Qlt_shift_div_l; [exact Ht|].
      rewrite Qmult_0_l. exact Hp.
  - assert (Hn : ~ 0 < sum (values raw)) by lra.
    rewrite (finish_exact_nonpos _ Hn) in Hf. injection Hf as <-.
    exact Hraw.
Qed.

(** X13. In exact arithmetic a category's score is positive exactly
    when phrases were detected for it: no score without a reported
    phrase, and no reported phrase without a score. *)
Theorem positive_score_iff_detected (kw : Keywords) (text : str)
  (l : list (Main.record Q)) (scores : ScoreVector Q) (d : DetectedPhrases) :
  Main.calculate_bias_scores kw text = (l, Ok (scores, d)) ->
  forall c, 0 < get scores c <-> lookup d c <> None.
Proof. apply positive_iff_detected_exact. Qed.

Local Close Scope Q_scope.

Lemma positive_score_iff_detected_witness :
  exists l scores d,
    Main.calculate_bias_scores (F := Q) example_keywords example_text
    = (l, Ok (scores, d))
    /\ forall c, (0 < get scores c)%Q <-> lookup d c <> None.
Proof.
  destruct (Main.calculate_bias_scores (F := Q) example_keywords example_text)
    as [l [[scores d] | e]] eqn:E.
  - exists l, scores, d. split; [reflexivity|].
    exact (positive_score_iff_detected _ _ E).
  - exfalso. vm_compute in E. discriminate E.
Defined.

(** ** The matcher of [server.py] *)

Lemma server_match_step {F : Type} `{Float F} (text : str)
  (matches : list str) (phrase : str) :
  Server.match_step (lower text) (set_of (split (lower text))) matches phrase
  = if server_kept text phrase then matches ++ [phrase] else matches.
Proof.
  unfold Server.match_step, server_kept.
  destruct (str_in (lower phrase) (lower text)); [reflexivity|].
  cbn [orb].
  destruct (set_of (split (lower phrase))) as [|w [|w' ws]]; reflexivity.
Qed.

Lemma server_find_filter {F : Type} `{Float F} (text : str)
  (phrases : list str) :
  Server.find_phrase_matches text phrases
  = filter (server_kept text) phrases.
Proof.
  unfold Server.find_phrase_matches.
  assert (G : forall matches,
             fold_left (Server.match_step (lower text)
                          (set_of (split (lower text)))) phrases matches
             = matches ++ filter (server_kept text) phrases).
  { induction phrases as [|p ps IH]; intros matches; simpl.
    - rewrite app_nil_r. reflexivity.
    - rewrite server_match_step, IH.
      destruct (server_kept text p); [rewrite <- app_assoc|]; reflexivity. }
  apply (G []).
Qed.

Lemma NoDup_set_of (xs : list str) : NoDup (set_of xs).
Proof.
  induction xs as [|x xs IH]; simpl; constructor.
  - intros Hin. apply filter_In in Hin. destruct Hin as [_ Hn].
    rewrite str_eqb_refl in Hn. discriminate.
  - apply NoDup_filter. exact IH.
Qed.

(** No more tokens are common to the text and the phrase than the
    phrase has distinct words. *)
Lemma common_count_le (text phrase : str) :
  common_count text phrase <= length (set_of (split (lower phrase))).
Proof.
  unfold common_count. apply NoDup_incl_length.
  - apply NoDup_filter. apply NoDup_set_of.
  - intros w Hw. apply filter_In in Hw. destruct Hw as [_ Hm].
    apply mem_In. exact Hm.
Qed.

Lemma single_word_hit (text : str) (w : str) :
  existsb (fun input_word => str_in w input_word)
    (set_of (split (lower text))) = true
  <-> exists t, In t (split (lower text)) /\ Infix w t.
Proof.
  rewrite existsb_exists. split; intros [t [Ht Hi]]; exists t.
  - split; [apply In_set_of; exact Ht | apply str_in_Infix; exact Hi].
  - split; [apply In_set_of; exact Ht | apply str_in_Infix; exact Hi].
Qed.

(** In exact arithmetic, [m >= max(1, k * 0.3)] reads "at least one, and
    at least 30%". *)
Lemma threshold_exact (m k : nat) :
  (of_count (F := Q) m >=? Server.common_threshold k)%py = true
  <-> 1 <= m /\ 3 * k <= 10 * m.
Proof.
  unfold Server.common_threshold, max_by. cbn [fold_left].
  assert (E3 : (lit (F := Q) 3 10 == 3 # 10)%Q) by reflexivity.
  assert (Hm : forall a b : nat, (of_count (F := Q) a <= of_count b)%Q
                                 <-> a <= b).
  { intros a b. simpl. rewrite <- Zle_Qle. lia. }
  assert (Hk : forall a b : nat,
             ((of_count (F := Q) a * (3 # 10) <= of_count b)%Q
              <-> 3 * a <= 10 * b)).
  { intros a b. simpl. unfold Qle, Qmult, inject_Z. cbn [Qnum Qden]. lia. }
  destruct (fltb (of_count 1) (of_count k * lit 3 10)%py) eqn:L.
  - apply fltb_exact in L. cbn [fmul exact] in L. rewrite E3 in L.
    rewrite fleb_exact. cbn [fmul exact]. rewrite E3, Hk.
    split; [|tauto]. intros X. split; [|exact X].
    assert (Y : (of_count (F := Q) 1 < of_count m)%Q).
    { apply Qlt_le_trans with (of_count k * (3 # 10))%Q; [exact L|].
      apply Hk. exact X. }
    simpl in Y. rewrite <- Zlt_Qlt in Y. lia.
  - assert (L' : (of_count (F := Q) k * (3 # 10) <= of_count 1)%Q).
    { apply Qnot_lt_le. intros X. rewrite <- E3 in X.
      apply fltb_exact in X. cbn [fmul exact] in L. congruence. }
    rewrite fleb_exact, Hm. split; [|tauto].
    intros X. split; [exact X|]. apply Hk in L'. lia.
Qed.

(** The same reading holds on binary64 for every phrase of up to 256
    distinct words, checked value by value. *)
Lemma threshold_binary64 (m k : nat) :
  k <= 256 -> m <= k ->
  ((of_count (F := float) m >=? Server.common_threshold k)%py = true
   <-> 1 <= m /\ 3 * k <= 10 * m).
Proof.
  intros Hk Hm.
  assert (A : forallb threshold_agrees (seq 0 257) = true)
    by (vm_compute; reflexivity).
  rewrite forallb_forall in A.
  assert (B : threshold_agrees k = true) by (apply A, in_seq; lia).
  unfold threshold_agrees in B. rewrite forallb_forall in B.
  assert (C := B m ltac:(apply in_seq; lia)).
  apply Bool.eqb_prop in C. rewrite C.
  rewrite andb_true_iff, !Nat.leb_le. tauto.
Qed.

(** The verdict on one phrase, given the reading of the threshold. *)
Lemma server_kept_ServerHit {F : Type} `{Float F} (text phrase : str) :
  ((of_count (common_count text phrase)
      >=? Server.common_threshold
            (length (set_of (split (lower phrase)))))%py = true
   <-> 1 <= common_count text phrase
       /\ 3 * length (set_of (split (lower phrase)))
          <= 10 * common_count text phrase) ->
  (server_kept text phrase = true <-> ServerHit text phrase).
Proof.
  intros T. unfold server_kept, ServerHit.
  rewrite orb_true_iff, str_in_Infix.
  fold (common_count text phrase).
  destruct (set_of (split (lower phrase))) as [|w [|w' ws]] eqn:P.
  - rewrite T. cbn [length]. split.
    + intros [X | X]; [left; exact X | right; right].
      split; [discriminate | exact X].
    + intros [X | [[w [X _]] | [_ X]]];
        [left; exact X | discriminate X | right; exact X].
  - rewrite single_word_hit. split.
    + intros [X | X]; [left; exact X | right; left].
      exists w. split; [reflexivity | exact X].
    + intros [X | [[w0 [[= <-] X]] | [X _]]];
        [left; exact X | right; exact X | exfalso; apply X; reflexivity].
  - rewrite T. split.
    + intros [X | X]; [left; exact X | right; right].
      split; [discriminate | exact X].
    + intros [X | [[w0 [X _]] | [_ X]]];
        [left; exact X | discriminate X | right; exact X].
Qed.

Lemma length_set_of_le (xs : list str) : length (set_of xs) <= length xs.
Proof.
  induction xs as [|x xs IH]; simpl; [lia|].
  pose proof (filter_length_le (fun y => negb (str_eqb x y)) (set_of xs)).
  lia.
Qed.

(** X14. [find_phrase_matches] of [server.py] returns, in the order it
    is given them and as they are given, the phrases that occur verbatim
    in the lowercased text, or whose one distinct word is inside a token
    of the text, or that have [k <> 1] distinct words of which at least
    one and at least 30% are tokens of the text.  This holds in exact
    arithmetic, and on binary64 for phrases of up to 256 words.  A
    phrase without words is reported only when it occurs verbatim. *)
Theorem server_find_phrase_matches_characterised
  (text : str) (phrases : list str) :
  (exists keep : str -> bool,
     Server.find_phrase_matches (F := Q) text phrases = filter keep phrases
     /\ forall p, keep p = true <-> ServerHit text p)
  /\ ((forall p, In p phrases -> length (split (lower p)) <= 256) ->
      exists keep : str -> bool,
        Server.find_phrase_matches (F := float) text phrases
        = filter keep phrases
        /\ forall p, In p phrases -> (keep p = true <-> ServerHit text p))
  /\ (forall p, split (lower p) = [] ->
                (ServerHit text p <-> Infix (lower p) (lower text))).
Proof.
  split; [|split].
  - exists (server_kept (F := Q) text). split; [apply server_find_filter|].
    intros p. apply server_kept_ServerHit. apply threshold_exact.
  - intros Hb. exists (server_kept (F := float) text).
    split; [apply server_find_filter|].
    intros p Hp. apply server_kept_ServerHit. apply threshold_binary64.
    + pose proof (length_set_of_le (split (lower p))).
      specialize (Hb p Hp). lia.
    + apply common_count_le.
  - intros p Hs. unfold ServerHit, common_count. rewrite Hs.
    cbn [set_of length]. split; [|tauto].
    intros [X | [[w [X _]] | [_ [X _]]]];
      [exact X | discriminate X |].
    exfalso.
    assert (Y : filter (fun w : str => mem w [])
                  (set_of (split (lower text))) = []).
    { clear X. induction (set_of (split (lower text))); [reflexivity|].
      simpl. assumption. }
    rewrite Y in X. simpl in X. lia.
Qed.

Lemma server_find_phrase_matches_characterised_witness :
  exists keep : str -> bool,
    Server.find_phrase_matches (F := float) "Social justice for all"
      (strs ["social justice warrior"; "tax"; "all"])
    = filter keep (strs ["social justice warrior"; "tax"; "all"])
    /\ forall p,
         In p (strs ["social justice warrior"; "tax"; "all"]) ->
         (keep p = true <-> ServerHit "Social justice for all" p).
Proof.
  apply (proj1 (proj2 (server_find_phrase_matches_characterised
                         "Social justice for all"
                         (strs ["social justice warrior"; "tax"; "all"])))).
  intros p [<- | [<- | [<- | []]]]; vm_compute; lia.
Defined.

(** ** The scorer of [server.py] *)

Lemma server_score_block {F : Type} `{Float F} (text : str)
  (phrases : list str) (c : category) (w : F) (scores : ScoreVector F)
  (d : DetectedPhrases) :
  Server.score_block text phrases c w (scores, d)
  = (set scores c
       (credit (get scores c) (Server.find_phrase_matches text phrases) w),
     noted d c (Server.find_phrase_matches text phrases)).
Proof.
  unfold Server.score_block.
  destruct (Server.find_phrase_matches text phrases); simpl.
  - rewrite set_get_same. reflexivity.
  - reflexivity.
Qed.

Lemma add_baseline_with_baseline {F : Type} `{Float F}
  (scores : ScoreVector F) :
  Server.add_baseline scores
  = {| s_left_wing := with_baseline (s_left_wing scores);
       s_right_wing := with_baseline (s_right_wing scores);
       s_extreme_left := with_baseline (s_extreme_left scores);
       s_extreme_right := with_baseline (s_extreme_right scores);
       s_neutral := with_baseline (s_neutral scores) |}.
Proof.
  destruct scores as [a b c d e].
  unfold Server.add_baseline, with_baseline, keys.
  cbn [fold_left get set s_left_wing s_right_wing s_extreme_left
       s_extreme_right s_neutral].
  destruct (a >? zero)%py;
    cbn [get set s_left_wing s_right_wing s_extreme_left s_extreme_right
         s_neutral];
    destruct (b >? zero)%py;
    cbn [get set s_left_wing s_right_wing s_extreme_left s_extreme_right
         s_neutral];
    destruct (c >? zero)%py;
    cbn [get set s_left_wing s_right_wing s_extreme_left s_extreme_right
         s_neutral];
    destruct (d >? zero)%py;
    cbn [get set s_left_wing s_right_wing s_extreme_left s_extreme_right
         s_neutral];
    destruct (e >? zero)%py; reflexivity.
Qed.

(** The scorer of [server.py], by the matches of its seven calls. *)
Lemma server_calculate_shape {F : Type} `{Float F}
  (kw : Keywords) (text : str) :
  let ms phrases :=
    Server.find_phrase_matches text (Server.processed phrases) in
  Server.calculate_bias_scores kw text
  = server_finish
      (server_raw_of (ms (extreme_right_keywords kw))
         (ms (extreme_left_keywords kw))
         (ms (left_wing_economic kw)) (ms (left_wing_social kw))
         (ms (right_wing_economic kw)) (ms (right_wing_social kw))
         (ms (neutral_terms kw)))
      (detected_of (ms (extreme_right_keywords kw))
         (ms (extreme_left_keywords kw))
         (ms (left_wing_economic kw)) (ms (left_wing_social kw))
         (ms (right_wing_economic kw)) (ms (right_wing_social kw))
         (ms (neutral_terms kw))).
Proof.
  intros ms. subst ms. cbv beta. unfold Server.calculate_bias_scores.
  rewrite !server_score_block.
  cbn [get set s_left_wing s_right_wing s_extreme_left s_extreme_right
       s_neutral].
  rewrite add_baseline_with_baseline.
  cbn [s_left_wing s_right_wing s_extreme_left s_extreme_right s_neutral].
  unfold server_finish, server_raw_of, detected_of.
  cbn [s_left_wing s_right_wing s_extreme_left s_extreme_right s_neutral].
  match goal with
  | |- context [if (?t >? zero)%py then _ else _] =>
      destruct (t >? zero)%py; [|reflexivity]
  end.
  rewrite normalize_loop_keys.
  match goal with
  | |- context [if (?t ==? zero)%py then _ else _] =>
      destruct (t ==? zero)%py; reflexivity
  end.
Qed.

Lemma server_finish_binary64 (raw : ScoreVector float)
  (d : DetectedPhrases) :
  exists scores, server_finish raw d = Ok (scores, d).
Proof.
  unfold server_finish.
  match goal with
  | |- context [if (?t >? zero)%py then _ else _] =>
      destruct (t >? zero)%py eqn:Hpos; [|eexists; reflexivity];
      change (PrimFloat.ltb 0 t = true) in Hpos;
      change (t ==? zero)%py with (PrimFloat.eqb t 0);
      rewrite (pos_nonzero_binary64 Hpos)
  end.
  eexists. reflexivity.
Qed.

Local Open Scope Q_scope.

Lemma with_baseline_exact (x : Q) :
  0 <= x ->
  0 <= with_baseline x /\ (0 < with_baseline x <-> 0 < x).
Proof.
  intros Hx. unfold with_baseline.
  assert (E : lit (F := Q) 5 10 == 1 # 2) by reflexivity.
  destruct (fltb zero x) eqn:L.
  - apply fltb_exact in L. rewrite zero_exact in L.
    cbn [fadd exact]. rewrite E. split; [lra|]. split; intros; lra.
  - split; [exact Hx | tauto].
Qed.

Lemma server_raw_exact (er el lwe lws rwe rws nt : list str) :
  let raw := server_raw_of (F := Q) er el lwe lws rwe rws nt in
  get raw extreme_right == 2 * of_count (length er)
  /\ get raw extreme_left == 2 * of_count (length el)
  /\ get raw left_wing == (12 # 10) * of_count (length lwe + length lws)
  /\ get raw right_wing == (12 # 10) * of_count (length rwe + length rws)
  /\ get raw neutral == (3 # 10) * of_count (length nt).
Proof.
  assert (E12 : lit (F := Q) 12 10 == 12 # 10) by reflexivity.
  assert (E3 : lit (F := Q) 3 10 == 3 # 10) by reflexivity.
  assert (E2 : of_count (F := Q) 2 == 2) by reflexivity.
  cbn [server_raw_of get s_extreme_right s_extreme_left s_left_wing
       s_right_wing s_neutral].
  rewrite !credit_exact, !of_count_add, E12, E3, E2.
  unfold zero. change (of_count (F := Q) 0) with 0.
  repeat split; ring.
Qed.

(** The server's raw score of a category is not negative, and positive
    exactly when the category has a match. *)
Lemma server_raw_sign (er el lwe lws rwe rws nt : list str) (c : category) :
  0 <= get (server_raw_of (F := Q) er el lwe lws rwe rws nt) c
  /\ (0 < get (server_raw_of (F := Q) er el lwe lws rwe rws nt) c
      <-> matched_under er el lwe lws rwe rws nt c <> []).
Proof.
  destruct (server_raw_exact er el lwe lws rwe rws nt)
    as [Her [Hel [Hlw [Hrw Hnt]]]].
  assert (P : forall (w : Q) (xs : list str),
             0 < w ->
             0 <= w * of_count (length xs)
             /\ (0 < w * of_count (length xs) <-> xs <> [])).
  { intros w xs Hw. split.
    - apply Qmult_le_0_compat; [lra | apply of_count_nonneg].
    - destruct xs as [|x xs]; simpl length.
      + change (of_count (F := Q) 0) with 0. split; [lra | congruence].
      + split; [discriminate|]. intros _.
        apply Qmult_lt_0_compat; [exact Hw | apply of_count_pos; lia]. }
  destruct c; cbn [matched_under].
  - rewrite Hlw, <- length_app. apply P. reflexivity.
  - rewrite Hrw, <- length_app. apply P. reflexivity.
  - rewrite Hel. apply P. reflexivity.
  - rewrite Her. apply P. reflexivity.
  - rewrite Hnt. apply P. reflexivity.
Qed.

(** The scorer of [server.py], on both arithmetics. *)
Lemma server_scores_both (kw : Keywords) (text : str) :
  let ms phrases :=
    Server.find_phrase_matches (F := Q) text (Server.processed phrases) in
  (exists scores d,
     Server.calculate_bias_scores (F := float) kw text = Ok (scores, d))
  /\ exists scores d,
       Server.calculate_bias_scores (F := Q) kw text = Ok (scores, d)
       /\ (forall c, 0 <= get scores c)
       /\ (d <> [] -> sum (values scores) == 1)
       /\ (d = [] -> forall c, get scores c == 0)
       /\ (forall c, 0 < get scores c <-> lookup d c <> None)
       /\ (forall c,
             phrases_of d c
             = matched_under (ms (extreme_right_keywords kw))
                 (ms (extreme_left_keywords kw))
                 (ms (left_wing_economic kw)) (ms (left_wing_social kw))
                 (ms (right_wing_economic kw)) (ms (right_wing_social kw))
                 (ms (neutral_terms kw)) c).
Proof.
  intros ms. subst ms. cbv beta. split.
  - pose proof (server_calculate_shape (F := float) kw text) as S.
    cbv zeta in S. rewrite S.
    match goal with
    | |- exists s d, server_finish ?raw ?d0 = _ =>
        destruct (server_finish_binary64 raw d0) as [scores Hf];
        exists scores, d0; exact Hf
    end.
  - pose proof (server_calculate_shape (F := Q) kw text) as S.
    cbv zeta in S. rewrite S. clear S.
    set (er := Server.find_phrase_matches text
                 (Server.processed (extreme_right_keywords kw))).
    set (el := Server.find_phrase_matches text
                 (Server.processed (extreme_left_keywords kw))).
    set (lwe := Server.find_phrase_matches text
                  (Server.processed (left_wing_economic kw))).
    set (lws := Server.find_phrase_matches text
                  (Server.processed (left_wing_social kw))).
    set (rwe := Server.find_phrase_matches text
                  (Server.processed (right_wing_economic kw))).
    set (rws := Server.find_phrase_matches text
                  (Server.processed (right_wing_social kw))).
    set (nt := Server.find_phrase_matches text
                 (Server.processed (neutral_terms kw))).
    pose proof (server_raw_sign er el lwe lws rwe rws nt) as Hraw.
    set (raw := server_raw_of (F := Q) er el lwe lws rwe rws nt) in *.
    set (d := detected_of er el lwe lws rwe rws nt).
    set (based :=
           {| s_left_wing := with_baseline (s_left_wing raw);
              s_right_wing := with_baseline (s_right_wing raw);
              s_extreme_left := with_baseline (s_extreme_left raw);
              s_extreme_right := with_baseline (s_extreme_right raw);
              s_neutral := with_baseline (s_neutral raw) |}).
    assert (Hb : forall c, 0 <= get based c
                           /\ (0 < get based c <-> lookup d c <> None)).
    { intros c.
      assert (Hl : lookup d c <> None
                   <-> matched_under er el lwe lws rwe rws nt c <> []).
      { unfold d. rewrite lookup_detected_of.
        destruct (matched_under er el lwe lws rwe rws nt c);
          split; congruence. }
      rewrite Hl. destruct (Hraw c) as [H0 H1].
      replace (get based c) with (with_baseline (get raw c))
        by (destruct c; reflexivity).
      destruct (with_baseline_exact H0) as [B0 B1].
      split; [exact B0|]. rewrite B1. exact H1. }
    assert (Hd : d <> [] <-> exists c, lookup d c <> None).
    { split.
      - intros Hne. destruct d as [|[c x] r] eqn:D; [contradiction|].
        exists c. simpl.
        assert (X : category_eqb c c = true)
          by (apply category_eqb_eq; reflexivity).
        rewrite X. discriminate.
      - intros [c Hc] E. rewrite E in Hc. apply Hc. reflexivity. }
    assert (Ht : 0 < sum (values based) <-> d <> []).
    { rewrite sum_values, Hd. split.
      - intros Hp.
        destruct (Qlt_le_dec 0 (get based left_wing)) as [X | X1];
          [exists left_wing; apply Hb; exact X|].
        destruct (Qlt_le_dec 0 (get based right_wing)) as [X | X2];
          [exists right_wing; apply Hb; exact X|].
        destruct (Qlt_le_dec 0 (get based extreme_left)) as [X | X3];
          [exists extreme_left; apply Hb; exact X|].
        destruct (Qlt_le_dec 0 (get based extreme_right)) as [X | X4];
          [exists extreme_right; apply Hb; exact X|].
        destruct (Qlt_le_dec 0 (get based neutral)) as [X | X5];
          [exists neutral; apply Hb; exact X|].
        lra.
      - intros [c Hc]. apply Hb in Hc.
        pose proof (proj1 (Hb left_wing)). pose proof (proj1 (Hb right_wing)).
        pose proof (proj1 (Hb extreme_left)).
        pose proof (proj1 (Hb extreme_right)).
        pose proof (proj1 (Hb neutral)).
        destruct c; lra. }
    unfold server_finish. cbv zeta. fold based.
    destruct (Qlt_le_dec 0 (sum (values based))) as [Hp | Hn].
    + assert (L : (sum (values based) >? zero)%py = true)
        by (apply fltb_exact; rewrite zero_exact; exact Hp).
      assert (N : (sum (values based) ==? zero)%py = false).
      { destruct (sum (values based) ==? zero)%py eqn:N; [|reflexivity].
        apply feqb_exact in N. rewrite zero_exact in N. lra. }
      rewrite L, N.
      exists (normalized based (sum (values based))), d.
      split; [reflexivity|].
      assert (G : forall c, get (normalized based (sum (values based))) c
                            = get based c / sum (values based))
        by (intros c; apply get_normalized).
      split; [|split; [|split; [|split]]].
      * intros c. rewrite G. apply Qle_shift_div_l; [exact Hp|].
        rewrite Qmult_0_l. apply Hb.
      * intros _. rewrite sum_values, !G.
        assert (St : sum (values based)
                     == get based left_wing + get based right_wing
                        + get based extreme_left + get based extreme_right
                        + get based neutral) by apply sum_values.
        assert (Hz : ~ sum (values based) == 0) by lra.
        set (t := sum (values based)) in *.
        setoid_replace (get based left_wing / t + get based right_wing / t
                        + get based extreme_left / t
                        + get based extreme_right / t
                        + get based neutral / t)
          with ((get based left_wing + get based right_wing
                 + get based extreme_left + get based extreme_right
                 + get based neutral) / t) by (field; exact Hz).
        rewrite <- St. field. exact Hz.
      * intros E. exfalso. apply Ht in Hp. contradiction.
      * intros c. rewrite G, <- (proj2 (Hb c)). split.
        -- intros X. apply Qnot_le_lt. intros Hle.
           assert (Y : get based c / sum (values based) <= 0).
           { apply Qle_shift_div_r; [exact Hp|]. rewrite Qmult_0_l.
             exact Hle. }
           lra.
        -- intros X. apply Qlt_shift_div_l; [exact Hp|].
           rewrite Qmult_0_l. exact X.
      * intros c. apply phrases_of_detected_of.
    + assert (L : (sum (values based) >? zero)%py = false).
      { destruct (sum (values based) >? zero)%py eqn:L; [|reflexivity].
        apply fltb_exact in L. rewrite zero_exact in L. lra. }
      rewrite L. exists based, d. split; [reflexivity|].
      assert (Hno : d = []).
      { destruct d eqn:D; [reflexivity|]. exfalso.
        assert (X : 0 < sum (values based)) by (apply Ht; discriminate).
        lra. }
      assert (Hz : forall c, get based c == 0).
      { intros c. destruct (Hb c) as [B0 B1].
        destruct (Qlt_le_dec 0 (get based c)) as [X | X]; [|lra].
        exfalso. apply B1 in X. rewrite Hno in X. apply X. reflexivity. }
      split; [|split; [|split; [|split]]].
      * intros c. apply Hb.
      * intros X. contradiction.
      * intros _. exact Hz.
      * intros c. apply Hb.
      * intros c. apply phrases_of_detected_of.
Qed.


Local Close Scope Q_scope.

(** ** The resolver of [server.py] *)

(** [max] returns one of its arguments, and its key is the maximum of
    the keys. *)
Lemma max_by_In {F A : Type} `{Float F} (key : A -> F) (xs : list A) :
  forall x, In (max_by key x xs) (x :: xs).
Proof.
  unfold max_by. induction xs as [|y xs IH]; intros x; cbn [fold_left].
  - left. reflexivity.
  - destruct (fltb (key x) (key y)).
    + right. apply IH.
    + destruct (IH x) as [E | Hin]; [left; exact E | right; right; exact Hin].
Qed.

Lemma max_by_key {F A : Type} `{Float F} (key : A -> F) (xs : list A) :
  forall x, key (max_by key x xs) = max_by (fun v => v) (key x) (map key xs).
Proof.
  unfold max_by. induction xs as [|y xs IH]; intros x; cbn [fold_left map].
  - reflexivity.
  - destruct (fltb (key x) (key y)); apply IH.
Qed.

Lemma name_in_server_labels (c : category) : In (name c) server_labels.
Proof. destruct c; simpl; auto 10. Qed.

Lemma name_injective (a b : category) : name a = name b -> a = b.
Proof. destruct a, b; intros E; try discriminate E; reflexivity. Qed.

Lemma In_items {F : Type} (scores : ScoreVector F) (x : category * F) :
  In x (items scores) <-> x = (fst x, get scores (fst x)).
Proof.
  destruct x as [c v]. cbn [fst]. unfold items, keys. cbn [map In]. split.
  - intros [E | [E | [E | [E | [E | []]]]]]; injection E as <- <-;
      reflexivity.
  - intros [= ->]. destruct c; auto 10.
Qed.

(** No category other than "neutral" has a positive score. *)
Lemma biased_filter_nil {F : Type} `{Float F} (scores : ScoreVector F) :
  filter (fun item : category * F =>
            (snd item >? zero)%py && negb (category_eqb (fst item) neutral))
    (items scores) = [] ->
  forall c, c <> neutral -> (get scores c >? zero)%py = false.
Proof.
  intros E c Hc. destruct (get scores c >? zero)%py eqn:P; [|reflexivity].
  exfalso.
  assert (X : In (c, get scores c)
                (filter (fun item : category * F =>
                           (snd item >? zero)%py
                           && negb (category_eqb (fst item) neutral))
                   (items scores))).
  { apply filter_In. split; [apply In_items; reflexivity|]. cbn [fst snd].
    rewrite P. destruct c; try reflexivity. contradiction. }
  rewrite E in X. exact X.
Qed.

(** One leaf of the resolver: the key of the maximum of a dictionary whose
    entries are positive scores of categories other than "neutral". *)
Lemma server_leaf {F : Type} `{Float F} (scores : ScoreVector F)
  (item : category * F) (rest : list (category * F)) :
  (forall x, In x (item :: rest) ->
             fst x <> neutral /\ (get scores (fst x) >? zero)%py = true) ->
  exists label conf,
    (let* c := Server.argmax (item :: rest) in Ok (name c, top scores))
    = Ok (label, conf)
    /\ conf = top scores /\ Names scores label.
Proof.
  intros Hx. unfold Server.argmax. cbn [bind].
  eexists. eexists. split; [reflexivity|]. split; [reflexivity|].
  exists (fst (max_by snd item rest)). split; [reflexivity|]. left.
  apply Hx. apply max_by_In.
Qed.

(** The last leaf: the key of the maximum of the whole dictionary. *)
Lemma server_last_leaf {F : Type} `{Float F} (scores : ScoreVector F) :
  (forall c, c <> neutral -> (get scores c >? zero)%py = false) ->
  exists label conf,
    (let* c := Server.argmax (items scores) in Ok (name c, top scores))
    = Ok (label, conf)
    /\ conf = top scores /\ Names scores label.
Proof.
  intros B.
  assert (Hi : exists item rest, items scores = item :: rest
                                 /\ snd (max_by snd item rest) = top scores).
  { exists (left_wing, get scores left_wing),
      [(right_wing, get scores right_wing);
       (extreme_left, get scores extreme_left);
       (extreme_right, get scores extreme_right);
       (neutral, get scores neutral)].
    split; [reflexivity|]. rewrite max_by_key. reflexivity. }
  destruct Hi as [item [rest [Hi Ht]]]. rewrite Hi.
  unfold Server.argmax. cbn [bind].
  eexists. eexists. split; [reflexivity|]. split; [reflexivity|].
  exists (fst (max_by snd item rest)). split; [reflexivity|]. right.
  split; [|exact B].
  assert (X : In (max_by snd item rest) (items scores))
    by (rewrite Hi; apply max_by_In).
  apply In_items in X. rewrite X in Ht at 1. exact Ht.
Qed.

Ltac filtered_leaf Efilter :=
  apply server_leaf;
  let x := fresh "x" in
  let Hin := fresh "Hin" in
  let Hf := fresh "Hf" in
  intros x Hin; rewrite <- Efilter in Hin;
  apply filter_In in Hin; destruct Hin as [Hin Hf];
  apply In_items in Hin; rewrite Hin in Hf; cbn [fst snd] in Hf;
  rewrite ?andb_true_iff in Hf;
  split; [intros N; rewrite N in Hf; cbn in Hf; intuition discriminate
         | intuition assumption].

(** The resolver of [server.py], branch by branch. *)
Lemma server_verdict_shape {F : Type} `{Float F} (scores : ScoreVector F) :
  let dominant_categories :=
    Main.dominant_categories_of scores (top scores * lit 5 10)%py in
  exists label conf,
    Server.determine_overall_bias scores = Ok (label, conf)
    /\ (((top scores ==? zero)%py = true
         /\ label = "neutral"%string /\ conf = zero)
        \/ ((top scores ==? zero)%py = false
            /\ conf = top scores
            /\ ((cat_in extreme_left dominant_categories
                 && cat_in extreme_right dominant_categories = true
                 /\ label = "mixed extreme"%string)
                \/ (cat_in extreme_left dominant_categories
                    && cat_in extreme_right dominant_categories = false
                    /\ Names scores label)))).
Proof.
  intros dom. unfold Server.determine_overall_bias.
  rewrite max_score_of_top. cbn [bind].
  destruct (top scores ==? zero)%py.
  { exists "neutral"%string, zero. split; [reflexivity|]. left; auto. }
  cbv zeta. fold dom.
  assert (W : forall (z : bool) (r : result (string * F)),
             z = false ->
             (cat_in extreme_left dom && cat_in extreme_right dom = false) ->
             (exists label conf,
                r = Ok (label, conf)
                /\ conf = top scores /\ Names scores label) ->
             exists label conf,
               r = Ok (label, conf)
               /\ ((z = true /\ label = "neutral"%string /\ conf = zero)
                   \/ (z = false /\ conf = top scores
                       /\ ((cat_in extreme_left dom
                            && cat_in extreme_right dom = true
                            /\ label = "mixed extreme"%string)
                           \/ (cat_in extreme_left dom
                               && cat_in extreme_right dom = false
                               /\ Names scores label))))).
  { intros z r Hz B [label [conf [E [C N]]]].
    exists label, conf. split; [exact E|]. right.
    split; [exact Hz|]. split; [exact C|]. right. auto. }
  assert (Highest :
    exists label conf,
      match
        filter (fun item : category * F =>
                  (snd item >? zero)%py
                  && negb (category_eqb (fst item) neutral)) (items scores)
      with
      | [] => let* c := Server.argmax (items scores) in
              Ok (name c, top scores)
      | _ :: _ =>
          let* c := Server.argmax
                      (filter (fun item : category * F =>
                                 (snd item >? zero)%py
                                 && negb (category_eqb (fst item) neutral))
                         (items scores)) in
          Ok (name c, top scores)
      end = Ok (label, conf)
      /\ conf = top scores /\ Names scores label).
  { destruct (filter _ (items scores)) as [|item rest] eqn:E.
    - apply server_last_leaf. apply biased_filter_nil. exact E.
    - filtered_leaf E. }
  assert (Regular :
    exists label conf,
      (if cat_in neutral dom
       then
         match
           filter (fun item : category * F =>
                     (snd item >? zero)%py
                     && negb (category_eqb (fst item) neutral)
                     && negb (cat_in (fst item)
                                [extreme_left; extreme_right]))
             (items scores)
         with
         | [] =>
             match
               filter (fun item : category * F =>
                         (snd item >? zero)%py
                         && negb (category_eqb (fst item) neutral))
                 (items scores)
             with
             | [] => let* c := Server.argmax (items scores) in
                     Ok (name c, top scores)
             | _ :: _ =>
                 let* c := Server.argmax
                             (filter (fun item : category * F =>
                                        (snd item >? zero)%py
                                        && negb (category_eqb (fst item)
                                                   neutral))
                                (items scores)) in
                 Ok (name c, top scores)
             end
         | _ :: _ =>
             let* c := Server.argmax
                         (filter (fun item : category * F =>
                                    (snd item >? zero)%py
                                    && negb (category_eqb (fst item) neutral)
                                    && negb (cat_in (fst item)
                                               [extreme_left; extreme_right]))
                            (items scores)) in
             Ok (name c, top scores)
         end
       else
         match
           filter (fun item : category * F =>
                     (snd item >? zero)%py
                     && negb (category_eqb (fst item) neutral))
             (items scores)
         with
         | [] => let* c := Server.argmax (items scores) in
                 Ok (name c, top scores)
         | _ :: _ =>
             let* c := Server.argmax
                         (filter (fun item : category * F =>
                                    (snd item >? zero)%py
                                    && negb (category_eqb (fst item) neutral))
                            (items scores)) in
             Ok (name c, top scores)
         end) = Ok (label, conf)
      /\ conf = top scores /\ Names scores label).
  { destruct (cat_in neutral dom); [|exact Highest].
    destruct (filter (fun item : category * F =>
                        (snd item >? zero)%py
                        && negb (category_eqb (fst item) neutral)
                        && negb (cat_in (fst item)
                                   [extreme_left; extreme_right]))
                (items scores)) as [|item rest] eqn:E; [exact Highest|].
    filtered_leaf E. }
  destruct (cat_in extreme_left dom && cat_in extreme_right dom) eqn:B.
  - apply andb_true_iff in B. destruct B as [BL BR].
    assert (X : existsb
                  (fun c => cat_in c [extreme_left; extreme_right]) dom
                = true).
    { apply existsb_exists. exists extreme_left.
      split; [apply cat_in_In; exact BL | reflexivity]. }
    rewrite X.
    exists "mixed extreme"%string, (top scores). split; [reflexivity|].
    right. split; [reflexivity|]. split; [reflexivity|]. left. auto.
  - destruct (existsb _ dom).
    + destruct (filter _ (map _ [extreme_left; extreme_right]))
        as [|item rest] eqn:E.
      * apply W; [reflexivity | reflexivity | exact Regular].
      * apply W; [reflexivity | reflexivity|]. apply server_leaf.
        intros x Hin. rewrite <- E in Hin.
        apply filter_In in Hin. destruct Hin as [Hin Hf].
        simpl in Hin. destruct Hin as [<- | [<- | []]];
          (split; [discriminate | exact Hf]).
    + apply W; [reflexivity | reflexivity | exact Regular].
Qed.

(** What [Names] says of the label. *)
Lemma Names_label {F : Type} `{Float F} (scores : ScoreVector F)
  (label : string) :
  Names scores label ->
  In label server_labels /\ label <> "mixed extreme"%string
  /\ (label = "neutral"%string ->
      forall c, c <> neutral -> (get scores c >? zero)%py = false).
Proof.
  intros [c [-> N]]. split; [apply name_in_server_labels|].
  split; [destruct c; discriminate|].
  intros E. apply (name_injective c neutral) in E. subst c.
  destruct N as [[X _] | [_ B]]; [contradiction | exact B].
Qed.

(** X16. [determine_overall_bias] of [server.py] returns on every score
    vector: each [max] it takes is over a dictionary that is not empty.
    Its label is one of the five category names or "mixed extreme",
    never "mixed"; its confidence is 0.0 with the label "neutral" when
    the maximum is 0 and the maximum otherwise; and "mixed extreme" is
    answered exactly when the maximum is not 0 and both extremes reach
    half of it. *)
Theorem server_determine_overall_bias_total {F : Type} `{Float F}
  (scores : ScoreVector F) :
  let dominant_categories :=
    Main.dominant_categories_of scores (top scores * lit 5 10)%py in
  exists label conf,
    Server.determine_overall_bias scores = Ok (label, conf)
    /\ In label server_labels
    /\ (((top scores ==? zero)%py = true
         /\ label = "neutral"%string /\ conf = zero)
        \/ ((top scores ==? zero)%py = false
            /\ conf = top scores
            /\ (label = "mixed extreme"%string <->
                cat_in extreme_left dominant_categories = true
                /\ cat_in extreme_right dominant_categories = true))).
Proof.
  intros dom.
  destruct (server_verdict_shape scores) as [label [conf [E C]]].
  exists label, conf. split; [exact E|].
  destruct C as [[Z [-> ->]] | [Z [C [[B ->] | [B N]]]]].
  - split; [apply (name_in_server_labels neutral) | left; auto].
  - split; [simpl; auto 10|]. right. split; [exact Z|].
    split; [exact C|]. apply andb_true_iff in B. tauto.
  - destruct (Names_label N) as [L [M _]]. split; [exact L|]. right.
    split; [exact Z|]. split; [exact C|]. split; [contradiction|].
    intros [X Y]. fold dom in B. rewrite X, Y in B. discriminate B.
Qed.

(** X17. [determine_overall_bias] of [server.py] never answers
    "neutral" when the maximum is not 0 and some category other than
    "neutral" has a positive score, however small that score is beside
    the neutral one; the confidence it reports is still the maximum. *)
Theorem server_prefers_bias {F : Type} `{Float F}
  (scores : ScoreVector F) (label : string) (conf : F) :
  (top scores ==? zero)%py = false ->
  (exists c, c <> neutral /\ (get scores c >? zero)%py = true) ->
  Server.determine_overall_bias scores = Ok (label, conf) ->
  label <> "neutral"%string /\ conf = top scores.
Proof.
  intros Z [c [Hc P]] E.
  destruct (server_verdict_shape scores) as [label' [conf' [E' C]]].
  rewrite E in E'. injection E' as <- <-.
  destruct C as [[Z' _] | [_ [C [[_ ->] | [_ N]]]]]; [congruence | |].
  - split; [discriminate | exact C].
  - split; [|exact C]. intros X.
    destruct (Names_label N) as [_ [_ B]]. specialize (B X c Hc).
    congruence.
Qed.

Lemma server_prefers_bias_witness :
  Server.determine_overall_bias mostly_neutral
  = Ok ("left_wing"%string, (9 # 10)%Q)
  /\ "left_wing"%string <> "neutral"%string
  /\ (9 # 10)%Q = top mostly_neutral.
Proof.
  assert (E : Server.determine_overall_bias mostly_neutral
              = Ok ("left_wing"%string, (9 # 10)%Q))
    by (vm_compute; reflexivity).
  split; [exact E|].
  apply (@server_prefers_bias Q exact mostly_neutral "left_wing" (9 # 10)%Q).
  - vm_compute. reflexivity.
  - exists left_wing. split; [discriminate | vm_compute; reflexivity].
  - exact E.
Defined.

(** X18. The analysis of [server.py] never raises: on binary64 and in
    exact arithmetic, for every keyword set and every text, the scorer
    followed by the resolver returns a verdict whose label is one of the
    five category names or "mixed extreme". *)
Theorem server_pipeline_returns (kw : Keywords) (text : str) :
  (exists label conf,
     server_pipeline (F := float) kw text = Ok (label, conf)
     /\ In label server_labels)
  /\ (exists label conf,
        server_pipeline (F := Q) kw text = Ok (label, conf)
        /\ In label server_labels).
Proof.
  destruct (server_scores_both kw text)
    as [[scores [d E]] [scores' [d' [E' _]]]].
  unfold server_pipeline. rewrite E, E'. cbn [bind fst].
  assert (G : forall (F : Type) (Fl : Float F) (s : ScoreVector F),
             exists label conf,
               Server.determine_overall_bias s = Ok (label, conf)
               /\ In label server_labels).
  { intros F Fl s.
    destruct (server_verdict_shape s) as [label [conf [V C]]].
    exists label, conf. split; [exact V|].
    destruct C as [[_ [-> _]] | [_ [_ [[_ ->] | [_ N]]]]].
    - apply (name_in_server_labels neutral).
    - simpl. auto 10.
    - apply (Names_label N). }
  split; apply G.
Qed.

(** ** The phrases [server.py] reports *)

Lemma In_processed (keywords : list str) (p : str) :
  In p (Server.processed keywords) <->
  exists q, In q keywords /\ p = lower q.
Proof.
  unfold Server.processed. rewrite In_set_of, in_map_iff.
  split; intros [q [X Y]]; exists q; auto.
Qed.

Lemma server_finish_detected {F : Type} `{Float F} (raw : ScoreVector F)
  (d0 d : DetectedPhrases) (scores : ScoreVector F) :
  server_finish raw d0 = Ok (scores, d) -> d = d0.
Proof.
  unfold server_finish.
  repeat match goal with
         | |- context [if ?b then _ else _] => destruct b
         end; congruence.
Qed.

(** The phrases reported under a category, given the reading of the
    matcher on the keywords. *)
Lemma server_detected_shape {F : Type} `{Float F}
  (kw : Keywords) (text : str) (scores : ScoreVector F)
  (d : DetectedPhrases) :
  Server.calculate_bias_scores kw text = Ok (scores, d) ->
  (forall c, NoDup (phrases_of d c) \/ c = left_wing \/ c = right_wing)
  /\ forall c p,
       In p (phrases_of d c) <->
       exists phrases q,
         In phrases (lists_of kw c) /\ In q phrases /\ p = lower q
         /\ server_kept text p = true.
Proof.
  intros E. pose proof (server_calculate_shape kw text) as S.
  cbv zeta in S. rewrite S in E. apply server_finish_detected in E.
  subst d. clear S. split.
  - intros c. rewrite phrases_of_detected_of.
    destruct c; cbn [matched_under]; auto; left;
      rewrite server_find_filter; apply NoDup_filter, NoDup_set_of.
  - intros c p. rewrite phrases_of_detected_of.
    assert (G : forall phrases,
               In p (Server.find_phrase_matches text
                       (Server.processed phrases)) <->
               exists q, In q phrases /\ p = lower q
                         /\ server_kept text p = true).
    { intros phrases. rewrite server_find_filter, filter_In, In_processed.
      split.
      - intros [[q [X Y]] K]. exists q. auto.
      - intros [q [X [Y K]]]. split; [exists q; auto | exact K]. }
    destruct c; cbn [matched_under lists_of];
      rewrite ?in_app_iff, !G; split.
    all: try (intros [[q X] | [q X]];
              [eexists; exists q; split; [left; reflexivity | exact X]
              | eexists; exists q; split;
                [right; left; reflexivity | exact X]]).
    all: try (intros [phrases [q [[<- | [<- | []]] X]]];
              [left | right]; exists q; exact X).
    all: try (intros [q X]; eexists; exists q;
              split; [left; reflexivity | exact X]).
    all: try (intros [phrases [q [[<- | []] X]]]; exists q; exact X).
Qed.

(** X19. The phrases the scorer of [server.py] reports under a category
    are exactly the keywords of that category's lists, lowercased, that
    its matcher accepts in the text, read in exact arithmetic; and under
    "extreme_left", "extreme_right" and "neutral", whose keywords were
    made a set, no phrase is reported twice. *)
Theorem server_detected_phrases_are_keywords
  (kw : Keywords) (text : str) (scores : ScoreVector Q)
  (d : DetectedPhrases) :
  Server.calculate_bias_scores kw text = Ok (scores, d) ->
  (forall c p,
     In p (phrases_of d c) <->
     exists phrases q,
       In phrases (lists_of kw c) /\ In q phrases /\ p = lower q
       /\ ServerHit text p)
  /\ NoDup (phrases_of d extreme_left)
  /\ NoDup (phrases_of d extreme_right)
  /\ NoDup (phrases_of d neutral).
Proof.
  intros E. destruct (server_detected_shape _ _ E) as [N G].
  split.
  - intros c p. rewrite G.
    split; intros [phrases [q [X [Y [Z K]]]]]; exists phrases, q;
      (split; [exact X|]); (split; [exact Y|]); (split; [exact Z|]).
    + apply (server_kept_ServerHit (F := Q)); [apply threshold_exact|].
      exact K.
    + apply (server_kept_ServerHit (F := Q)); [apply threshold_exact|].
      exact K.
  - repeat split.
    + destruct (N extreme_left) as [X | [X | X]];
        [exact X | discriminate X | discriminate X].
    + destruct (N extreme_right) as [X | [X | X]];
        [exact X | discriminate X | discriminate X].
    + destruct (N neutral) as [X | [X | X]];
        [exact X | discriminate X | discriminate X].
Qed.

Lemma server_detected_phrases_are_keywords_witness :
  exists scores d,
    Server.calculate_bias_scores (F := Q) example_keywords example_text
    = Ok (scores, d)
    /\ (forall c p,
          In p (phrases_of d c) <->
          exists phrases q,
            In phrases (lists_of example_keywords c) /\ In q phrases
            /\ p = lower q /\ ServerHit example_text p)
    /\ NoDup (phrases_of d extreme_left)
    /\ NoDup (phrases_of d extreme_right)
    /\ NoDup (phrases_of d neutral).
Proof.
  destruct (Server.calculate_bias_scores (F := Q) example_keywords
              example_text) as [[scores d] | e] eqn:E.
  - exists scores, d. split; [reflexivity|].
    exact (server_detected_phrases_are_keywords _ _ E).
  - exfalso. vm_compute in E. discriminate E.
Defined.

(** ** Longer texts, and keywords that occur verbatim *)

Lemma split_from_app_space (a b : str) (sp : ascii) :
  isspace sp = true ->
  forall word,
    split_from word (a ++ sp :: b) = split_from word a ++ split_from [] b.
Proof.
  intros Hsp. induction a as [|c a IH]; intros word; simpl.
  - rewrite Hsp. destruct word; reflexivity.
  - destruct (isspace c).
    + destruct word; rewrite IH; reflexivity.
    + apply IH.
Qed.

Lemma split_app_space (a b : str) (sp : ascii) :
  isspace sp = true -> split (a ++ sp :: b) = split a ++ split b.
Proof. intros Hsp. apply split_from_app_space. exact Hsp. Qed.

Lemma lower_app_space (a b : str) (sp : ascii) :
  lower (a ++ sp :: b) = lower a ++ lower_char sp :: lower b.
Proof. unfold lower. rewrite map_app. reflexivity. Qed.

Lemma WordHit_more (tokens tokens' : list str) (w : str) :
  (forall t, In t tokens -> In t tokens') ->
  WordHit tokens w -> WordHit tokens' w.
Proof. intros I [t [Ht X]]. exists t. split; [apply I; exact Ht | exact X]. Qed.

Lemma counted_more (tokens tokens' ws : list str) :
  (forall t, In t tokens -> In t tokens') ->
  length (filter (counted tokens) ws)
  <= length (filter (counted tokens') ws) <= length ws.
Proof.
  intros I. induction ws as [|w ws IH]; simpl; [lia|].
  destruct (counted tokens w) eqn:C.
  - apply counted_WordHit in C. apply (WordHit_more _ I) in C.
    apply counted_WordHit in C. rewrite C. simpl. lia.
  - destruct (counted tokens' w); simpl; lia.
Qed.

(** A phrase kept for a text is kept for the text with more words
    after it, when the ratio test is monotone in the number of matched
    words. *)
Lemma kept_more {F : Type} `{Float F} (text extra : str) (sp : ascii)
  (p : str) :
  isspace sp = true ->
  (forall m m', m <= m' <= length (split p) ->
                ratio_ok m (length (split p)) = true ->
                ratio_ok m' (length (split p)) = true) ->
  kept text p = true -> kept (text ++ sp :: extra) p = true.
Proof.
  intros Hsp Mono. unfold kept.
  rewrite lower_app_space, !orb_true_iff, !str_in_Infix.
  intros [X | X].
  - left. destruct X as [a [b ->]].
    exists a, (b ++ lower_char sp :: lower extra).
    rewrite <- !app_assoc. reflexivity.
  - right. rewrite split_app_space by (rewrite isspace_lower_char; exact Hsp).
    refine (Mono _ _ _ X). apply counted_more.
    intros t Ht. apply in_or_app. left. exact Ht.
Qed.

Lemma ratio_ok_mono_exact (m m' n : nat) :
  m <= m' <= n -> ratio_ok (F := Q) m n = true ->
  ratio_ok (F := Q) m' n = true.
Proof.
  intros Hm R. destruct n as [|n].
  - assert (m = m') by lia. subst. exact R.
  - apply ratio_ok_exact; [lia|]. apply ratio_ok_exact in R; lia.
Qed.

Lemma ratio_ok_mono_binary64 (m m' n : nat) :
  n <= 256 -> m <= m' <= n -> ratio_ok (F := float) m n = true ->
  ratio_ok (F := float) m' n = true.
Proof.
  intros Hn Hm R. destruct n as [|n].
  - assert (m = m') by lia. subst. exact R.
  - apply ratio_ok_binary64; [lia | lia|].
    apply ratio_ok_binary64 in R; lia.
Qed.

Lemma matches_more {F : Type} `{Float F} (text extra : str) (sp : ascii)
  (phrases found found' : list str) :
  isspace sp = true ->
  (forall p m m', In p phrases ->
     m <= m' <= length (split (lower p)) ->
     ratio_ok m (length (split (lower p))) = true ->
     ratio_ok m' (length (split (lower p))) = true) ->
  Main.find_phrase_matches text phrases = Ok found ->
  Main.find_phrase_matches (text ++ sp :: extra) phrases = Ok found' ->
  forall p, In p found -> In p found'.
Proof.
  intros Hsp Mono E E' p Hp.
  rewrite find_phrase_matches_outcome in E, E'.
  destruct (existsb (wordless_absent text) phrases); [discriminate E|].
  destruct (existsb (wordless_absent (text ++ sp :: extra)) phrases);
    [discriminate E'|].
  injection E as <-. injection E' as <-.
  apply filter_In in Hp. destruct Hp as [Hin K].
  apply filter_In. split; [exact Hin|].
  apply in_map_iff in Hin. destruct Hin as [q [<- Hq]].
  apply kept_more; [exact Hsp | | exact K].
  intros m m'. apply Mono. exact Hq.
Qed.

(** X20. Adding words after a text never loses a match of
    [find_phrase_matches] of [main.py]: every phrase reported for [text]
    is reported for [text] followed by a whitespace character and any
    further text, when both calls return.  This holds in exact
    arithmetic, and on binary64 for candidates of up to 256 words. *)
Theorem find_phrase_matches_monotone (text extra : str) (sp : ascii)
  (phrases : list str) :
  isspace sp = true ->
  (forall found found',
     Main.find_phrase_matches (F := Q) text phrases = Ok found ->
     Main.find_phrase_matches (F := Q) (text ++ sp :: extra) phrases
     = Ok found' ->
     forall p, In p found -> In p found')
  /\ ((forall p, In p phrases -> length (split (lower p)) <= 256) ->
      forall found found',
        Main.find_phrase_matches (F := float) text phrases = Ok found ->
        Main.find_phrase_matches (F := float) (text ++ sp :: extra) phrases
        = Ok found' ->
        forall p, In p found -> In p found').
Proof.
  intros Hsp. split.
  - intros found found'. apply matches_more; [exact Hsp|].
    intros p m m' _. apply ratio_ok_mono_exact.
  - intros Hb found found'. apply matches_more; [exact Hsp|].
    intros p m m' Hp. apply ratio_ok_mono_binary64. apply Hb. exact Hp.
Qed.

Lemma find_phrase_matches_monotone_witness :
  exists found found',
    Main.find_phrase_matches (F := float) "tax cuts"
      (strs ["tax cuts"; "deep state"]) = Ok found
    /\ Main.find_phrase_matches (F := float)
         (("tax cuts" : str) ++ " "%char :: ("for the state" : str))
         (strs ["tax cuts"; "deep state"]) = Ok found'
    /\ forall p, In p found -> In p found'.
Proof.
  destruct (Main.find_phrase_matches (F := float) "tax cuts"
              (strs ["tax cuts"; "deep state"])) as [found | e] eqn:E;
    [|exfalso; vm_compute in E; discriminate E].
  destruct (Main.find_phrase_matches (F := float)
              (("tax cuts" : str) ++ " "%char :: ("for the state" : str))
              (strs ["tax cuts"; "deep state"])) as [found' | e] eqn:E';
    [|exfalso; vm_compute in E'; discriminate E'].
  exists found, found'. split; [reflexivity|]. split; [reflexivity|].
  refine (proj2 (@find_phrase_matches_monotone "tax cuts" "for the state"
                   " "%char (strs ["tax cuts"; "deep state"]) eq_refl)
            _ found found' E E').
  intros p [<- | [<- | []]]; vm_compute; lia.
Defined.

Lemma phrases_of_lookup (d : DetectedPhrases) (c : category) (p : str) :
  In p (phrases_of d c) -> lookup d c <> None.
Proof.
  unfold phrases_of. destruct (lookup d c); [discriminate | intros []].
Qed.

(** X21. A keyword that occurs verbatim in the text, case ignored, is
    always reported under its category, lowercased, by the scorer of
    [main.py] when it returns and by the scorer of [server.py], whatever
    the arithmetic; and in exact arithmetic that category's score is
    then positive. *)
Theorem verbatim_keyword_detected (kw : Keywords) (text : str)
  (c : category) (phrases : list str) (q : str) :
  In phrases (lists_of kw c) -> In q phrases ->
  Infix (lower q) (lower text) ->
  (forall (F : Type) (Fl : Float F) l scores d,
     Main.calculate_bias_scores kw text = (l, Ok (scores, d)) ->
     In (lower q) (phrases_of d c))
  /\ (forall (F : Type) (Fl : Float F) scores d,
        Server.calculate_bias_scores kw text = Ok (scores, d) ->
        In (lower q) (phrases_of d c))
  /\ (forall l scores d,
        Main.calculate_bias_scores (F := Q) kw text = (l, Ok (scores, d)) ->
        (0 < get scores c)%Q)
  /\ (forall scores d,
        Server.calculate_bias_scores (F := Q) kw text = Ok (scores, d) ->
        (0 < get scores c)%Q).
Proof.
  intros Hl Hq Hin.
  assert (M : forall (F : Type) (Fl : Float F) l scores d,
             Main.calculate_bias_scores kw text = (l, Ok (scores, d)) ->
             In (lower q) (phrases_of d c)).
  { intros F Fl l scores d E. apply (phrases_of_calculate _ _ E).
    exists phrases, q. split; [exact Hl|]. split; [exact Hq|].
    split; [reflexivity|]. left. exact Hin. }
  assert (S : forall (F : Type) (Fl : Float F) scores d,
             Server.calculate_bias_scores kw text = Ok (scores, d) ->
             In (lower q) (phrases_of d c)).
  { intros F Fl scores d E.
    apply (proj2 (server_detected_shape _ _ E)).
    exists phrases, q. split; [exact Hl|]. split; [exact Hq|].
    split; [reflexivity|]. unfold server_kept.
    rewrite lower_idempotent.
    apply orb_true_iff. left. apply str_in_Infix. exact Hin. }
  split; [exact M|]. split; [exact S|]. split.
  - intros l scores d E. apply (positive_iff_detected_exact _ _ E).
    apply phrases_of_lookup with (lower q). exact (M _ _ _ _ _ E).
  - intros scores d E.
    destruct (server_scores_both kw text)
      as [_ [scores' [d' [E' [_ [_ [_ [P _]]]]]]]].
    rewrite E in E'. injection E' as <- <-.
    apply P. apply phrases_of_lookup with (lower q). exact (S _ _ _ _ E).
Qed.

Lemma verbatim_keyword_detected_witness :
  exists l scores d,
    Main.calculate_bias_scores (F := Q) example_keywords example_text
    = (l, Ok (scores, d))
    /\ In (lower "tax cuts") (phrases_of d right_wing)
    /\ (0 < get scores right_wing)%Q.
Proof.
  destruct (Main.calculate_bias_scores (F := Q) example_keywords example_text)
    as [l [[scores d] | e]] eqn:E;
    [|exfalso; vm_compute in E; discriminate E].
  exists l, scores, d. split; [reflexivity|].
  destruct (@verbatim_keyword_detected example_keywords example_text
              right_wing (strs ["deregulation"; "tax cuts"]) "tax cuts"
              ltac:(left; reflexivity) ltac:(right; left; reflexivity)
              ltac:(apply str_in_Infix; vm_compute; reflexivity))
    as [M [_ [P _]]].
  split; [exact (M Q exact l scores d E) | exact (P l scores d E)].
Defined.

(** ** Letter case *)

Lemma main_find_case {F : Type} `{Float F} (text text' : str)
  (phrases : list str) :
  lower text = lower text' ->
  Main.find_phrase_matches text phrases
  = Main.find_phrase_matches text' phrases.
Proof.
  intros E. unfold Main.find_phrase_matches. rewrite E. reflexivity.
Qed.

Lemma server_find_case {F : Type} `{Float F} (text text' : str)
  (phrases : list str) :
  lower text = lower text' ->
  Server.find_phrase_matches text phrases
  = Server.find_phrase_matches text' phrases.
Proof.
  intros E. unfold Server.find_phrase_matches. rewrite E. reflexivity.
Qed.

(** X22. Both analyses ignore the letter case of the text: two texts
    that agree once lowercased get the same scores, the same detected
    phrases, the same log records from the scorer of [main.py], and the
    same verdict from either pipeline. *)
Theorem analysis_ignores_case {F : Type} `{Float F}
  (kw : Keywords) (text text' : str) :
  lower text = lower text' ->
  Main.calculate_bias_scores kw text = Main.calculate_bias_scores kw text'
  /\ Server.calculate_bias_scores kw text
     = Server.calculate_bias_scores kw text'
  /\ main_pipeline kw text = main_pipeline kw text'
  /\ server_pipeline kw text = server_pipeline kw text'.
Proof.
  intros E.
  assert (M : Main.calculate_bias_scores kw text
              = Main.calculate_bias_scores kw text').
  { unfold Main.calculate_bias_scores, Main.accumulate_scores,
      Main.score_block.
    rewrite !(main_find_case _ _ _ E). reflexivity. }
  assert (S : Server.calculate_bias_scores kw text
              = Server.calculate_bias_scores kw text').
  { unfold Server.calculate_bias_scores, Server.score_block.
    rewrite !(server_find_case _ _ _ E). reflexivity. }
  split; [exact M|]. split; [exact S|].
  unfold main_pipeline, server_pipeline. rewrite M, S. split; reflexivity.
Qed.

Lemma analysis_ignores_case_witness :
  main_pipeline (F := float) example_keywords "TAX CUTS and Deregulation"
  = main_pipeline (F := float) example_keywords "tax cuts AND deregulation"
  /\ server_pipeline (F := float) example_keywords "TAX CUTS and Deregulation"
     = server_pipeline (F := float) example_keywords
         "tax cuts AND deregulation".
Proof.
  apply (@analysis_ignores_case float binary64 example_keywords
           "TAX CUTS and Deregulation" "tax cuts AND deregulation").
  vm_compute. reflexivity.
Defined.

(** ** One category only *)

Lemma In_dominant_categories_of {F : Type} `{Float F}
  (scores : ScoreVector F) (threshold : F) (c : category) :
  In c (Main.dominant_categories_of scores threshold) <->
  (get scores c >=? threshold)%py = true.
Proof.
  unfold Main.dominant_categories_of. rewrite in_map_iff. split.
  - intros [x [<- Hin]]. apply filter_In in Hin.
    destruct Hin as [Hin Hv]. apply In_items in Hin.
    rewrite Hin in Hv. exact Hv.
  - intros Hr. exists (c, get scores c). split; [reflexivity|].
    apply filter_In. split; [apply In_items; reflexivity | exact Hr].
Qed.

Local Open Scope Q_scope.

(** Scores of which one is 1 and the others are 0. *)
Lemma one_hot_scores (scores : ScoreVector Q) (c : category) :
  (forall c', 0 <= get scores c') ->
  sum (values scores) == 1 ->
  (forall c', 0 < get scores c' <-> c' = c) ->
  get scores c == 1
  /\ (forall c', c' <> c -> get scores c' == 0)
  /\ top scores == 1.
Proof.
  intros Hnn Hsum Hpos. rewrite sum_values in Hsum.
  assert (Z : forall c', c' <> c -> get scores c' == 0).
  { intros c' Hc. specialize (Hnn c').
    destruct (Qlt_le_dec 0 (get scores c')) as [X | X]; [|lra].
    apply Hpos in X. contradiction. }
  assert (O : get scores c == 1).
  { pose proof (Z left_wing) as Z1. pose proof (Z right_wing) as Z2.
    pose proof (Z extreme_left) as Z3. pose proof (Z extreme_right) as Z4.
    pose proof (Z neutral) as Z5.
    destruct c;
      repeat match goal with
             | Hz : _ <> _ -> _ |- _ => specialize (Hz ltac:(discriminate))
             end; lra. }
  split; [exact O|]. split; [exact Z|].
  destruct (top_is_a_score scores) as [c0 Hc0].
  pose proof (top_ge_exact scores c) as T.
  destruct (Qlt_le_dec 0 (get scores c0)) as [X | X].
  - apply Hpos in X. subst c0. rewrite Hc0. exact O.
  - rewrite Hc0 in T. lra.
Qed.

Lemma category_eqb_refl (c : category) : category_eqb c c = true.
Proof. destruct c; reflexivity. Qed.

Lemma single_category_main (scores : ScoreVector Q) (c : category) :
  get scores c == 1 ->
  (forall c', c' <> c -> get scores c' == 0) ->
  top scores == 1 ->
  exists conf,
    Main.determine_overall_bias scores = Ok (name c, conf) /\ conf == 1.
Proof.
  intros O Z T.
  assert (R : forall c', reaches scores c' = category_eqb c' c).
  { intros c'. unfold reaches.
    destruct (category_eqb c' c) eqn:E.
    - apply category_eqb_eq in E. subst c'. apply fleb_exact.
      cbn [fmul exact]. rewrite T, O, dominance_exact. lra.
    - destruct (get scores c' >=? top scores * Main.dominance)%py eqn:L;
        [|reflexivity].
      apply fleb_exact in L. cbn [fmul exact] in L.
      rewrite T, dominance_exact in L.
      assert (X : c' <> c)
        by (intros ->; rewrite category_eqb_refl in E; discriminate E).
      rewrite (Z c' X) in L. lra. }
  assert (Hz : (top scores ==? zero)%py = false).
  { destruct (top scores ==? zero)%py eqn:N; [|reflexivity].
    apply feqb_exact in N. rewrite zero_exact in N. lra. }
  rewrite determine_overall_bias_cases, Hz, dominant_unfold, !R.
  destruct c; cbn [category_eqb app length Nat.ltb Nat.leb];
    eexists; (split; [reflexivity|]); assumption.
Qed.

Lemma single_category_server (scores : ScoreVector Q) (c : category) :
  get scores c == 1 ->
  (forall c', c' <> c -> get scores c' == 0) ->
  top scores == 1 ->
  exists conf,
    Server.determine_overall_bias scores = Ok (name c, conf) /\ conf == 1.
Proof.
  intros O Z T.
  assert (P : forall c', (get scores c' >? zero)%py = true -> c' = c).
  { intros c' L. apply fltb_exact in L. rewrite zero_exact in L.
    destruct (category_eqb c' c) eqn:E; [apply category_eqb_eq; exact E|].
    assert (X : c' <> c)
      by (intros ->; rewrite category_eqb_refl in E; discriminate E).
    rewrite (Z c' X) in L. lra. }
  destruct (server_verdict_shape scores) as [label [conf [E C]]].
  destruct C as [[N _] | [_ [-> [[B _] | [_ [c' [-> S]]]]]]].
  - apply feqb_exact in N. rewrite zero_exact in N. lra.
  - exfalso. apply andb_true_iff in B. destruct B as [BL BR].
    apply cat_in_In, In_dominant_categories_of, fleb_exact in BL.
    apply cat_in_In, In_dominant_categories_of, fleb_exact in BR.
    cbn [fmul exact] in BL, BR.
    assert (E5 : lit (F := Q) 5 10 == 1 # 2) by reflexivity.
    rewrite T, E5 in BL, BR.
    destruct (category_eqb extreme_left c) eqn:X.
    + apply category_eqb_eq in X. subst c.
      rewrite (Z extreme_right ltac:(discriminate)) in BR. lra.
    + assert (Y : extreme_left <> c)
        by (intros <-; discriminate X).
      rewrite (Z extreme_left Y) in BL. lra.
  - assert (c' = c).
    { destruct S as [[_ L] | [L _]]; [apply P; exact L|].
      apply P. apply fltb_exact. rewrite zero_exact, L, T. lra. }
    subst c'. exists (top scores). split; [exact E | exact T].
Qed.

(** X23. When phrases were detected for exactly one category, both
    pipelines answer that category with confidence 1, in exact
    arithmetic. *)
Theorem single_category_verdict (kw : Keywords) (text : str) (c : category) :
  (forall l scores d,
     Main.calculate_bias_scores (F := Q) kw text = (l, Ok (scores, d)) ->
     (forall c', lookup d c' <> None <-> c' = c) ->
     exists conf,
       Main.determine_overall_bias scores = Ok (name c, conf) /\ conf == 1)
  /\ (forall scores d,
        Server.calculate_bias_scores (F := Q) kw text = Ok (scores, d) ->
        (forall c', lookup d c' <> None <-> c' = c) ->
        exists conf,
          Server.determine_overall_bias scores = Ok (name c, conf)
          /\ conf == 1).
Proof.
  split.
  - intros l scores d E Hd.
    destruct (normalised_scores_exact _ _ E)
      as [raw [_ [Hnn [Hpos [Hsum _]]]]].
    pose proof (positive_iff_detected_exact _ _ E) as P.
    assert (Hne : d <> []).
    { intros X. subst d. apply (proj2 (Hd c) eq_refl). reflexivity. }
    destruct (@one_hot_scores scores c Hnn (Hsum (proj2 Hpos Hne)))
      as [O [Z T]].
    + intros c'. rewrite P. apply Hd.
    + apply single_category_main; assumption.
  - intros scores d E Hd.
    destruct (server_scores_both kw text)
      as [_ [scores' [d' [E' [Hnn [Hsum [_ [P _]]]]]]]].
    rewrite E in E'. injection E' as <- <-.
    assert (Hne : d <> []).
    { intros X. subst d. apply (proj2 (Hd c) eq_refl). reflexivity. }
    destruct (@one_hot_scores scores c Hnn (Hsum Hne)) as [O [Z T]].
    + intros c'. rewrite P. apply Hd.
    + apply single_category_server; assumption.
Qed.

Local Close Scope Q_scope.

Lemma single_category_verdict_witness :
  (exists l scores d,
     Main.calculate_bias_scores (F := Q) example_keywords "tax cuts"
     = (l, Ok (scores, d))
     /\ exists conf,
          Main.determine_overall_bias scores = Ok (name right_wing, conf)
          /\ (conf == 1)%Q)
  /\ (exists scores d,
        Server.calculate_bias_scores (F := Q) example_keywords "deregulation"
        = Ok (scores, d)
        /\ exists conf,
             Server.determine_overall_bias scores
             = Ok (name right_wing, conf)
             /\ (conf == 1)%Q).
Proof.
  split.
  - destruct (Main.calculate_bias_scores (F := Q) example_keywords "tax cuts")
      as [l [[scores d] | e]] eqn:E;
      [|exfalso; vm_compute in E; discriminate E].
    exists l, scores, d. split; [reflexivity|].
    apply (proj1 (single_category_verdict example_keywords "tax cuts"
                    right_wing) l scores d E).
    vm_compute in E. injection E as _ _ <-.
    intros c'. destruct c'; vm_compute; split; congruence.
  - destruct (Server.calculate_bias_scores (F := Q) example_keywords
                "deregulation") as [[scores d] | e] eqn:E;
      [|exfalso; vm_compute in E; discriminate E].
    exists scores, d. split; [reflexivity|].
    apply (proj2 (single_category_verdict example_keywords "deregulation"
                    right_wing) scores d E).
    vm_compute in E. injection E as _ <-.
    intros c'. destruct c'; vm_compute; split; congruence.
Defined.
